(** * esb2ha: the HDF ingestion and normalisation engine (package [parse])

    Shallow embedding of [src/src/parse/parse.go] (the current revision:
    [HDF], [fixTimezone], [splitTimes], [isHalfSharp], [parseLine],
    [validateHeader], [isRound], [Translate]) and, in [Module Legacy], of the
    earlier [fixTimezone]/[validateTimes]/[HDF] of [src/parse/parse.go].

    Go's standard library is not part of the repository; the parts of
    package [time] and [encoding/csv] the code calls are modelled in
    [Module time] and [Module csv] from their documented behaviour. *)

From Stdlib Require Import ZArith QArith Floats Ascii Lia.
From stdpp Require Import base list strings gmap sorting.

Open Scope Z_scope.

(** ** Package [time] *)

Module time.

(** A [Duration] is an int64 count of nanoseconds. *)
Definition Duration := Z.

Definition Nanosecond : Duration := 1.
Definition Second : Duration := 1000000000.
Definition Minute : Duration := 60 * Second.
Definition Hour : Duration := 60 * Minute.

Definition minDuration : Duration := - 2 ^ 63.
Definition maxDuration : Duration := 2 ^ 63 - 1.

(** The locations the program meets: [time.UTC], a [time.FixedZone] and
    the result of [time.LoadLocation("Europe/Dublin")]. *)
Inductive Location :=
| UTC
| FixedZone (name : string) (offset : Z)
| EuropeDublin.

(** A [Time] is an instant (nanoseconds since the Unix epoch) presented in
    a location. *)
Record Time := mkTime { unixNano : Z; loc : Location }.

Definition Unix (t : Time) : Z := unixNano t `div` Second.

(** Seconds from January 1, year 1 00:00:00 UTC to the Unix epoch. *)
Definition unixToInternal : Z := 62135596800.

(** The zero value of [time.Time]. *)
Definition zeroTime : Time := mkTime (- unixToInternal * Second) UTC.

Definition IsZero (t : Time) : bool := unixNano t =? - unixToInternal * Second.

Definition Equal (t u : Time) : bool := unixNano t =? unixNano u.

Definition Add (t : Time) (d : Duration) : Time :=
  mkTime (unixNano t + d) (loc t).

(** [t.Sub(u)]: the difference, saturated to the int64 range. *)
Definition Sub (t u : Time) : Duration :=
  let d := unixNano t - unixNano u in
  if maxDuration <? d then maxDuration
  else if d <? minDuration then minDuration
  else d.

(** [d.Minutes()] and [d.Hours()] are float64 sums of an integral part and
    a fraction below one, [float64(d/Minute) + float64(d%Minute)/(60*1e9)].
    The program only compares them with 30, 0 and 1; on those comparisons
    the float64 sum and the exact rational agree (the integral part is
    below 2^53 and the fraction, when not zero, is at least 1/(3.6e12)
    away from an integer), so the exact rational stands for the float. *)
Definition Minutes (d : Duration) : Q :=
  Qplus (inject_Z (d `quot` Minute)) (Qmake (d `rem` Minute) 60000000000).

Definition Hours (d : Duration) : Q :=
  Qplus (inject_Z (d `quot` Hour)) (Qmake (d `rem` Hour) 3600000000000).

(** *** The civil calendar (proleptic Gregorian, days since 1970-01-01) *)

Definition daysFromCivil (y m d : Z) : Z :=
  let y' := if m <=? 2 then y - 1 else y in
  let era := y' `div` 400 in
  let yoe := y' - era * 400 in
  let mp := if 2 <? m then m - 3 else m + 9 in
  let doy := (153 * mp + 2) `div` 5 + d - 1 in
  let doe := yoe * 365 + yoe `div` 4 - yoe `div` 100 + doy in
  era * 146097 + doe - 719468.

Definition yearOfDays (z : Z) : Z :=
  let z := z + 719468 in
  let era := z `div` 146097 in
  let doe := z - era * 146097 in
  let yoe := (doe - doe `div` 1460 + doe `div` 36524 - doe `div` 146096) `div` 365 in
  let doy := doe - (365 * yoe + yoe `div` 4 - yoe `div` 100) in
  let mp := (5 * doy + 2) `div` 153 in
  let m := if mp <? 10 then mp + 3 else mp - 9 in
  yoe + era * 400 + (if m <=? 2 then 1 else 0).

(** Day of the week of a day number, 0 = Sunday. *)
Definition weekdayOfDays (z : Z) : Z := (z + 4) `mod` 7.

Definition isLeap (y : Z) : bool :=
  (y `mod` 4 =? 0) && (negb (y `mod` 100 =? 0) || (y `mod` 400 =? 0)).

Definition daysIn (m y : Z) : Z :=
  if m =? 2 then (if isLeap y then 29 else 28)
  else if (m =? 4) || (m =? 6) || (m =? 9) || (m =? 11) then 30
  else 31.

(** *** Europe/Dublin

    A zone period as [Location.lookup] reports it: abbreviation, offset in
    seconds east of UTC, and the Unix times between which it is in force. *)
Record zone := mkZone { zname : string; zoffset : Z; zstart : Z; zend : Z }.

Definition alpha : Z := - 2 ^ 63.
Definition omega : Z := 2 ^ 63 - 1.

(** The time zone database for Europe/Dublin: local mean time (25 minutes
    21 seconds west of Greenwich) until 2 August 1880, Dublin Mean Time
    with the same offset until 21 May 1916 02:00, and since 1996 (extended
    to later years by the zone's POSIX footer) Irish Standard Time (IST,
    UTC+1) from 01:00 UTC on the last Sunday of March until 01:00 UTC on
    the last Sunday of October, Greenwich Mean Time (GMT) otherwise. The
    years from 1916 to 1995, whose transitions fell on other days, are
    presented under the rule of 1996. *)
Definition dublinLMTEnd : Z := daysFromCivil 1880 8 2 * 86400 + 1521.
Definition dublinDMTEnd : Z := daysFromCivil 1916 5 21 * 86400 + 7200 + 1521.

(** Unix time of 01:00 UTC on the last Sunday of month [m] (of 31 days). *)
Definition lastSunday1am (y m : Z) : Z :=
  let d31 := daysFromCivil y m 31 in
  (d31 - weekdayOfDays d31) * 86400 + 3600.

Definition dublin (sec : Z) : zone :=
  if sec <? dublinLMTEnd then mkZone "LMT" (- 1521) alpha dublinLMTEnd
  else if sec <? dublinDMTEnd then mkZone "DMT" (- 1521) dublinLMTEnd dublinDMTEnd
  else
    let y := yearOfDays (sec `div` 86400) in
    let s := lastSunday1am y 3 in
    let e := lastSunday1am y 10 in
    if sec <? s then mkZone "GMT" 0 (lastSunday1am (y - 1) 10) s
    else if sec <? e then mkZone "IST" 3600 s e
    else mkZone "GMT" 0 e (lastSunday1am (y + 1) 3).

(** [l.lookup(sec)]: the zone period in force at Unix time [sec]. *)
Definition lookup (l : Location) (sec : Z) : zone :=
  match l with
  | UTC => mkZone "UTC" 0 alpha omega
  | FixedZone n o => mkZone n o alpha omega
  | EuropeDublin => dublin sec
  end.

(** [t.Zone()] *)
Definition Zone (t : Time) : string * Z :=
  let z := lookup (loc t) (Unix t) in (zname z, zoffset z).

(** Seconds of the wall clock of [t] in its location. *)
Definition localSec (t : Time) : Z := Unix t + snd (Zone t).

Definition Nanosecond_ (t : Time) : Z := unixNano t `mod` Second.
Definition Second_ (t : Time) : Z := localSec t `mod` 60.
Definition Minute_ (t : Time) : Z := (localSec t `div` 60) `mod` 60.
Definition Hour_ (t : Time) : Z := (localSec t `div` 3600) `mod` 24.

(** [t.Round(d)] for [d > 0]: rounds the time elapsed since the zero time
    to the nearest multiple of [d], halves up. *)
Definition Round (t : Time) (d : Duration) : Time :=
  let r := (unixNano t + unixToInternal * Second) `mod` d in
  if r + r <? d then Add t (- r) else Add t (d - r).

(** [time.Date(y, m, d, hh, mm, ss, 0, l)] on fields already in range: the
    wall clock is first read as UTC, the offset in force at that instant is
    subtracted, and when this leaves the zone period the offset is looked
    up again at the corrected instant. *)
Definition Date (y m d hh mm ss : Z) (l : Location) : Time :=
  let unix := daysFromCivil y m d * 86400 + hh * 3600 + mm * 60 + ss in
  let z := lookup l unix in
  let unix' :=
    if zoffset z =? 0 then unix
    else
      let utc := unix - zoffset z in
      let offset :=
        if (utc <? zstart z) || (zend z <=? utc)
        then zoffset (lookup l utc)
        else zoffset z in
      unix - offset in
  mkTime (unix' * Second) l.

End time.

(** *** [time.ParseInLocation("02-01-2006 15:04", value, l)] *)

Module timeparse.
Import time.

Definition digit (c : ascii) : option Z :=
  let n := Z.of_N (Ascii.N_of_ascii c) in
  if (48 <=? n) && (n <=? 57) then Some (n - 48) else None.

(** [getnum(s, fixed)]: one or two leading digits, exactly two when
    [fixed]. *)
Definition getnum (s : string) (fixed : bool) : option (Z * string) :=
  match s with
  | String c0 s1 =>
      match digit c0 with
      | None => None
      | Some d0 =>
          match s1 with
          | String c1 s2 =>
              match digit c1 with
              | Some d1 => Some (d0 * 10 + d1, s2)
              | None => if fixed then None else Some (d0, s1)
              end
          | EmptyString => if fixed then None else Some (d0, s1)
          end
      end
  | EmptyString => None
  end.

(** The four-digit year of [stdLongYear]. *)
Definition getyear (s : string) : option (Z * string) :=
  match s with
  | String c0 (String c1 (String c2 (String c3 rest))) =>
      match digit c0, digit c1, digit c2, digit c3 with
      | Some d0, Some d1, Some d2, Some d3 =>
          Some (d0 * 1000 + d1 * 100 + d2 * 10 + d3, rest)
      | _, _, _, _ => None
      end
  | _ => None
  end.

(** [skip(value, prefix)] for a one-byte literal other than a space. *)
Definition skipChar (c : ascii) (s : string) : option string :=
  match s with
  | String c' rest => if Ascii.eqb c c' then Some rest else None
  | EmptyString => None
  end.

Fixpoint cutspace (s : string) : string :=
  match s with
  | String c rest => if Ascii.eqb c " "%char then cutspace rest else s
  | EmptyString => s
  end.

(** [skip(value, " ")]: a value that does not start with a space is
    refused unless it is empty; a run of spaces is consumed. *)
Definition skipSpace (s : string) : option string :=
  match s with
  | String c _ => if Ascii.eqb c " "%char then Some (cutspace s) else None
  | EmptyString => Some s
  end.

(** The fields of the layout in order: day, month, year, hour, minute;
    the month is range-checked when read, then the hour and the minute,
    trailing text is refused, and the day is checked against the month
    last. [None] stands for the [*time.ParseError]. *)
Definition ParseInLocation (value : string) (l : Location) : option Time :=
  '(day, value) ← getnum value true;
  value ← skipChar "-"%char value;
  '(month, value) ← getnum value true;
  guard (negb ((month <=? 0) || (12 <? month)));;
  value ← skipChar "-"%char value;
  '(year, value) ← getyear value;
  value ← skipSpace value;
  '(hour, value) ← getnum value false;
  guard (negb ((hour <? 0) || (24 <=? hour)));;
  value ← skipChar ":"%char value;
  '(min, value) ← getnum value true;
  guard (negb ((min <? 0) || (60 <=? min)));;
  guard (value = EmptyString);;
  guard (negb ((day <? 1) || (daysIn month year <? day)));;
  Some (Date year month day hour min 0 l).

End timeparse.

(** ** Control flow: a Go call returns or panics *)

Inductive outcome (A : Type) :=
| Ret (a : A)
| Panic (msg : string).
Arguments Ret {A} a.
Arguments Panic {A} msg.

Definition obind {A B : Type} (f : A -> outcome B) (m : outcome A) : outcome B :=
  match m with
  | Ret a => f a
  | Panic msg => Panic msg
  end.

#[export] Instance outcome_ret : MRet outcome := @Ret.
#[export] Instance outcome_bind : MBind outcome := @obind.

(** Indexing a slice: [s[i]] panics out of range. *)
Definition index {A : Type} (s : list A) (i : nat) : outcome A :=
  match s !! i with
  | Some a => Ret a
  | None => Panic "index out of range"
  end.

(** ** Package [encoding/csv]

    The tokenizer is not modelled: the input of a [Reader] is the sequence
    of what it finds line by line up to the end of the file, a record or a
    syntax error. [Read] is modelled with the field-count rule of a reader
    created by [NewReader] ([FieldsPerRecord] 0: the first record fixes the
    count, a later record of another length is [ErrFieldCount]). *)

Module csv.

Inductive line :=
| Fields (record : list string)
| Malformed.

Inductive error := EOF | ErrFieldCount | ErrSyntax.

Record Reader := mkReader { FieldsPerRecord : nat; input : list line }.

Definition NewReader (hdf : list line) : Reader := mkReader 0 hdf.

(** One record through the field-count rule: the record or the error,
    and the [FieldsPerRecord] left behind. *)
Definition readRecord (fieldsPerRecord : nat) (l : line) : (error + list string) * nat :=
  match l with
  | Malformed => (inl ErrSyntax, fieldsPerRecord)
  | Fields record =>
      if (0 <? fieldsPerRecord)%nat then
        if negb (length record =? fieldsPerRecord)%nat
        then (inl ErrFieldCount, fieldsPerRecord)
        else (inr record, fieldsPerRecord)
      else (inr record, length record)
  end.

Definition Read (r : Reader) : (error + list string) * Reader :=
  match input r with
  | [] => (inl EOF, r)
  | l :: rest =>
      let '(res, n) := readRecord (FieldsPerRecord r) l in
      (res, mkReader n rest)
  end.

End csv.

(** ** Package [ha]: the statistics handed to Home Assistant *)

Module ha.

(** [StatisticMetadata] without its embedded [recorderSource], a constant
    for the JSON encoder. *)

Record StatisticMetadata := mkStatisticMetadata {
  HasMean : bool;
  HasSum : bool;
  Name : string;
  StatisticID : string;
  UnitOfMeasurement : string
}.

Record StatisticValue := mkStatisticValue {
  Start : time.Time;
  Mean : float;
  Min : float;
  Max : float;
  LastReset : time.Time;
  State : float;
  Sum : float
}.

Record Statistics := mkStatistics {
  Metadata : StatisticMetadata;
  Stats : list StatisticValue
}.

End ha.

(** ** Package [parse] *)

Import time.

Definition wantReadType : string := "Active Import Interval (kW)".

Definition headerFormat : list string :=
  ["MPRN"; "Meter Serial Number"; "Read Value"; "Read Type"; "Read Date and End Time"]%string.

Definition irelandTimezone : Location := EuropeDublin.
Definition irelandWinterTime : Location := FixedZone "GMT" 0.

Record line := mkLine {
  line_MPRN : string;
  line_SerialNumber : string;
  line_Value : float;
  line_EndTime : Time
}.

(** [Read] is a single line of the HDF. *)
Record Read := mkRead { Value : float; EndTime : Time }.

(** [Result] is the parsed HDF file. *)
Record Result := mkResult {
  MPRN : string;
  MeterSerialNumber : string;
  ReadTypes : string;
  Reads : list Read
}.

(** The errors the package builds, one constructor per [fmt.Errorf] or
    [errors.New], carrying the values the message prints. *)
Inductive error :=
| ErrCsv (e : csv.error)
| ErrCannotReadHeader (e : csv.error)
| ErrHeaderLength (got want : nat)
| ErrHeaderRecord (i : nat) (got want : string)
| ErrReadType (lineNumber : nat) (got want : string)
| ErrParseValue (lineNumber : nat) (sval : string)
| ErrParseTime (lineNumber : nat) (sts : string)
| ErrMultipleMPRN (first other : string)
| ErrMultipleSerialNumbers (first other : string)
| ErrNotAligned (ts : Time)
| ErrNotSorted (last current : Time)
| ErrNotEnoughData
| ErrIncrement (i : nat) (min : Q) (tsValidator current : Time).

Definition withReads (res : Result) (reads : list Read) : Result :=
  mkResult (MPRN res) (MeterSerialNumber res) (ReadTypes res) reads.

Definition withEndTime (r : Read) (t : Time) : Read := mkRead (Value r) t.

(** *** [isHalfSharp] *)
Definition isHalfSharp (ts : Time) : option error :=
  let m := Minute_ ts in
  if negb (Second_ ts =? 0) || negb (Nanosecond_ ts =? 0)
     || (negb (m =? 0) && negb (m =? 30))
  then Some (ErrNotAligned ts)
  else None.

(** *** [isRound] *)
Definition isRound (t : Time) : bool := Equal (Round t Hour) t.

(** *** [fixTimezone] (current revision)

    One iteration of [for i := 0; i < max; i++] on the slice being rewritten
    in place; the second component collects what [log.Println] prints.
    [i] ranges over [0 .. max-1], so [res.Reads[i]] is always in range. *)
Definition fixTimezoneStep (max : nat) (st : list Read * list string) (i : nat)
  : list Read * list string :=
  let '(reads, logs) := st in
  match reads !! i with
  | None => st
  | Some r =>
      if negb (String.eqb (fst (Zone (EndTime r))) "GMT") then st
      else
        let ct := EndTime r in
        if (i + 2 <? max)%nat then
          let fixed := Add ct (- Hour) in
          match reads !! (i + 2)%nat with
          | Some r2 =>
              if Equal (EndTime r2) ct
              then (<[i := withEndTime r fixed]> reads, logs)
              else st
          | None => st
          end
        else if (2 <=? i)%nat then
          match reads !! (i - 2)%nat with
          | Some r0 =>
              let fixed := Add (EndTime r0) Hour in
              let ftz := snd (Zone fixed) in
              let rtz := snd (Zone ct) in
              if negb (ftz =? rtz)
              then (<[i := withEndTime r fixed]> reads, logs)
              else st
          | None => st
          end
        else (reads, logs ++ ["Too little data to attempt fix timezone"%string])
  end.

Definition fixTimezoneLoop (reads : list Read) : list Read * list string :=
  let max := length reads in
  foldl (fixTimezoneStep max) (reads, []) (seq 0 max).

Definition fixTimezone (res : Result) : Result * list string :=
  let '(reads, logs) := fixTimezoneLoop (Reads res) in
  (withReads res reads, logs).

(** *** [splitTimes] *)
Definition shallowCopyResult (res : Result) : Result := withReads res [].

(** [rr[idx].Reads = append(rr[idx].Reads, r)] *)
Definition appendRead (rr : list Result) (idx : nat) (r : Read) : list Result :=
  alter (fun x => withReads x (Reads x ++ [r])) idx rr.

(** The body of [for _, r := range res.Reads]: the state left for the next
    reading, or what [splitTimes] returns at once. *)
Definition splitStep (res : Result) (rr : list Result) (idx : nat) (lastTs : Time)
    (r : Read) : (list Result * error) + (list Result * nat * Time) :=
  let ts := EndTime r in
  match isHalfSharp ts with
  | Some err => inl ([], err)
  | None =>
      if negb (IsZero lastTs) then
        let m := Minutes (Sub ts lastTs) in
        if Qeq_bool m 30 then
          inr (appendRead rr idx r, idx, ts)
        else if Qle_bool m 0 then
          inl (rr, ErrNotSorted lastTs ts)
        else
          inr (appendRead (rr ++ [shallowCopyResult res]) (S idx) r, S idx, ts)
      else inr (appendRead rr idx r, idx, ts)
  end.

Fixpoint splitLoop (res : Result) (reads : list Read)
    (rr : list Result) (idx : nat) (lastTs : Time) : list Result * option error :=
  match reads with
  | [] => (rr, None)
  | r :: reads' =>
      match splitStep res rr idx lastTs r with
      | inl (out, err) => (out, Some err)
      | inr (rr', idx', lastTs') => splitLoop res reads' rr' idx' lastTs'
      end
  end.

Definition splitTimes (res : Result) : list Result * option error :=
  splitLoop res (Reads res) [shallowCopyResult res] 0 zeroTime.

(** *** [Translate] *)
Definition translateMetadata : ha.StatisticMetadata :=
  ha.mkStatisticMetadata false true "" "" "kWh".

Definition statisticValue (start : Time) (state sum : float) : ha.StatisticValue :=
  ha.mkStatisticValue start 0 0 0 zeroTime state sum.

(** The body of [for i, r := range reads]; [reads] is the whole slice the
    loop ranges over, [rest] what is left of it from index [i] on. *)
Fixpoint translateLoop (reads : list Read) (i : nat) (rest : list Read)
    (tsValidator : Time) (sum value : float) (stats : list ha.StatisticValue)
  : outcome (ha.Statistics * option error) :=
  match rest with
  | [] => Ret (ha.mkStatistics translateMetadata stats, None)
  | r :: rest' =>
      let min := Minutes (Sub (EndTime r) tsValidator) in
      if negb (Qeq_bool min 30) then
        Ret (ha.mkStatistics translateMetadata stats,
             Some (ErrIncrement i min tsValidator (EndTime r)))
      else
        let tsValidator := EndTime r in
        let value := (value + Value r / 2)%float in
        if (i mod 2 =? 0)%nat && (0 <? i)%nat then
          let sum := (sum + value)%float in
          prev ← index reads (i - 1)%nat;
          translateLoop reads (S i) rest' tsValidator sum 0%float
            (stats ++ [statisticValue (EndTime prev) value sum])
        else translateLoop reads (S i) rest' tsValidator sum value stats
  end.

Definition Translate (raw : Result) : outcome (ha.Statistics * option error) :=
  let reads := Reads raw in
  if (length reads =? 0)%nat then
    Ret (ha.mkStatistics translateMetadata [], Some ErrNotEnoughData)
  else
    first ← index reads 0%nat;
    let reads :=
      if (0 <? length reads)%nat && isRound (EndTime first) then drop 1 reads else reads in
    r0 ← index reads 0%nat;
    let tsValidator := Add (EndTime r0) (- 30 * Minute) in
    translateLoop reads 0 reads tsValidator 0%float 0%float [].

(** *** Ingestion: [validateHeader], [parseLine], [HDF] *)

Section Ingest.

(** [strconv.ParseFloat(s, 64)]; [None] is its error. *)
Variable ParseFloat : string -> option float.

Definition parseLine (lineNumber : nat) (record : list string) : outcome (error + line) :=
  mprn ← index record 0%nat;
  serial ← index record 1%nat;
  recordType ← index record 3%nat;
  sval ← index record 2%nat;
  sts ← index record 4%nat;
  if negb (String.eqb recordType wantReadType) then
    Ret (inl (ErrReadType lineNumber recordType wantReadType))
  else
    match ParseFloat sval with
    | None => Ret (inl (ErrParseValue lineNumber sval))
    | Some v =>
        match timeparse.ParseInLocation sts irelandTimezone with
        | None => Ret (inl (ErrParseTime lineNumber sts))
        | Some t => Ret (inr (mkLine mprn serial v t))
        end
    end.

(** [for i, want := range headerFormat { if got := h[i]; got != want ... }]
    on a header already known to have the length of [headerFormat]. *)
Fixpoint headerMismatch (i : nat) (h want : list string) : option error :=
  match want, h with
  | w :: want', got :: h' =>
      if negb (String.eqb got w) then Some (ErrHeaderRecord i got w)
      else headerMismatch (S i) h' want'
  | _, _ => None
  end.

Definition validateHeader (r : csv.Reader) : option error * csv.Reader :=
  let '(h, r) := csv.Read r in
  match h with
  | inl err => (Some (ErrCannotReadHeader err), r)
  | inr h =>
      let wantLen := length headerFormat in
      if negb (length h =? wantLen)%nat then (Some (ErrHeaderLength (length h) wantLen), r)
      else (headerMismatch 0 h headerFormat, r)
  end.

(** The loop [for i := 1; ; i++] of [HDF], with [r.Read()] unfolded over
    the reader's remaining input; the end of the input is [io.EOF]. *)
Fixpoint readData (fieldsPerRecord : nat) (input : list csv.line) (i : nat) (res : Result)
  : outcome (error + Result) :=
  match input with
  | [] => Ret (inr res)
  | l :: input' =>
      match csv.readRecord fieldsPerRecord l with
      | (inl err, _) => Ret (inl (ErrCsv err))
      | (inr record, n) =>
          parsed ← parseLine i record;
          match parsed with
          | inl err => Ret (inl err)
          | inr ln =>
              let checked :=
                if (i =? 1)%nat then
                  inr (mkResult (line_MPRN ln) (line_SerialNumber ln) wantReadType (Reads res))
                else if negb (String.eqb (MPRN res) (line_MPRN ln)) then
                  inl (ErrMultipleMPRN (MPRN res) (line_MPRN ln))
                else if negb (String.eqb (MeterSerialNumber res) (line_SerialNumber ln)) then
                  inl (ErrMultipleSerialNumbers (MeterSerialNumber res) (line_SerialNumber ln))
                else inr res in
              match checked with
              | inl err => Ret (inl err)
              | inr res =>
                  readData n input' (S i)
                    (withReads res (Reads res ++ [mkRead (line_Value ln) (line_EndTime ln)]))
              end
          end
      end
  end.

Definition emptyResult : Result := mkResult "" "" "" [].

(** [HDF] up to its last statement: header, rows, reversal to ascending
    order and [fixTimezone] (whose log is dropped). *)
Definition ingest (hdf : list csv.line) : outcome (error + Result) :=
  let r := csv.NewReader hdf in
  let '(err, r) := validateHeader r in
  match err with
  | Some err => Ret (inl err)
  | None =>
      parsed ← readData (csv.FieldsPerRecord r) (csv.input r) 1 emptyResult;
      match parsed with
      | inl err => Ret (inl err)
      | inr res =>
          let res := withReads res (rev (Reads res)) in
          Ret (inr (fst (fixTimezone res)))
      end
  end.

(** [HDF]: every error before [splitTimes] returns [nil]; the last
    statement is [return splitTimes(res)]. *)
Definition HDF (hdf : list csv.line) : outcome (list Result * option error) :=
  ingested ← ingest hdf;
  match ingested with
  | inl err => Ret ([], Some err)
  | inr res => Ret (splitTimes res)
  end.

End Ingest.

(** ** The earlier revision ([src/parse/parse.go], second listing)

    [HDF] returns one [Result]; [fixTimezone] inspects the readings in
    IST and [validateTimes] refuses any spacing other than 30 minutes. *)

Module Legacy.

Definition fixTimezoneStep (max : nat) (st : list Read * list string) (i : nat)
  : list Read * list string :=
  let '(reads, logs) := st in
  match reads !! i with
  | None => st
  | Some r =>
      if negb (String.eqb (fst (Zone (EndTime r))) "IST") then st
      else
        let ct := EndTime r in
        if (2 <=? i)%nat then
          match reads !! (i - 2)%nat with
          | Some r0 =>
              if Equal (EndTime r0) ct
              then (<[i := withEndTime r (Add ct Hour)]> reads, logs)
              else st
          | None => st
          end
        else if (i + 2 <? max)%nat then
          let fixed := Add ct Hour in
          match reads !! (i + 2)%nat with
          | Some r2 =>
              if Qeq_bool (Hours (Sub (EndTime r2) fixed)) 1
              then (<[i := withEndTime r fixed]> reads, logs)
              else st
          | None => st
          end
        else (reads, logs ++ ["Too little data to attempt fix timezone"%string])
  end.

Definition fixTimezoneLoop (reads : list Read) : list Read * list string :=
  let max := length reads in
  foldl (fixTimezoneStep max) (reads, []) (seq 0 max).

Definition fixTimezone (res : Result) : Result * list string :=
  let '(reads, logs) := fixTimezoneLoop (Reads res) in
  (withReads res reads, logs).

(** The errors of this revision: those of the current one and the
    spacing error of [validateTimes]. *)
Inductive lerror :=
| Err (e : error)
| ErrNotIncrements (last current : Time) (m : Q).

Fixpoint validateLoop (reads : list Read) (lastTs : Time) : option lerror :=
  match reads with
  | [] => None
  | r :: reads' =>
      let ts := EndTime r in
      match isHalfSharp ts with
      | Some err => Some (Err err)
      | None =>
          if negb (IsZero lastTs) && negb (Qeq_bool (Minutes (Sub ts lastTs)) 30)
          then Some (ErrNotIncrements lastTs ts (Minutes (Sub ts lastTs)))
          else validateLoop reads' ts
      end
  end.

Definition validateTimes (res : Result) : option lerror :=
  validateLoop (Reads res) zeroTime.

Section Ingest.
Variable ParseFloat : string -> option float.

(** [HDF] of this revision, with the header check and the reading loop of
    the current one. Beside an error of the header or of a row it returns
    the rows read so far, which are left out here ([None]); beside an error
    of [validateTimes] it returns the whole series. *)
Definition HDF (hdf : list csv.line) : outcome (option Result * option lerror) :=
  let r := csv.NewReader hdf in
  let '(err, r) := validateHeader r in
  match err with
  | Some err => Ret (None, Some (Err err))
  | None =>
      parsed ← readData ParseFloat (csv.FieldsPerRecord r) (csv.input r) 1 emptyResult;
      match parsed with
      | inl err => Ret (None, Some (Err err))
      | inr res =>
          let res := withReads res (rev (Reads res)) in
          let res := fst (fixTimezone res) in
          Ret (Some res, validateTimes res)
      end
  end.
End Ingest.

End Legacy.

(** ** Specification vocabulary *)

(** The time elapsed from [u] to [t], in nanoseconds. *)
Definition elapsed (t u : Time) : Z := unixNano t - unixNano u.

(** A timestamp on the hour or the half hour, sharp. *)
Definition aligned (ts : Time) : Prop :=
  (Minute_ ts = 0 \/ Minute_ ts = 30) /\ Second_ ts = 0 /\ Nanosecond_ ts = 0.

(** No reading carries the zero [time.Time] (1 January of year 1, 00:00
    UTC), which [splitTimes] and [validateTimes] take for "no previous
    reading". *)
Definition noZero (reads : list Read) : Prop :=
  Forall (fun r => IsZero (EndTime r) = false) reads.

(** Each reading later than the one before it, starting after [prev]. *)
Fixpoint ascendingFrom (prev : Read) (reads : list Read) : Prop :=
  match reads with
  | [] => True
  | r :: rest => 0 < elapsed (EndTime r) (EndTime prev) /\ ascendingFrom r rest
  end.

Definition ascending (reads : list Read) : Prop :=
  match reads with
  | [] => True
  | r :: rest => ascendingFrom r rest
  end.

(** Consecutive readings exactly 30 minutes apart. *)
Fixpoint chainedAfter (t : Time) (reads : list Read) : Prop :=
  match reads with
  | [] => True
  | r :: rest => elapsed (EndTime r) t = 30 * Minute /\ chainedAfter (EndTime r) rest
  end.

Definition chained (reads : list Read) : Prop :=
  match reads with
  | [] => True
  | r :: rest => chainedAfter (EndTime r) rest
  end.

(** A gap between two runs: the first reading of the second is later than
    the last reading of the first, by something other than 30 minutes. *)
Definition gap (s1 s2 : list Read) : Prop :=
  exists a b, last s1 = Some a /\ head s2 = Some b
    /\ 0 < elapsed (EndTime b) (EndTime a)
    /\ elapsed (EndTime b) (EndTime a) <> 30 * Minute.

(** The runs of a series, following the words of the specification: the
    first reading opens the first run, a reading exactly 30 minutes after
    the previous one continues the current run, any other reading closes it
    and opens a new run. [done] are the closed runs, [cur] the open one,
    [prev] its last reading. *)
Fixpoint runsFrom (prev : Read) (done : list (list Read)) (cur : list Read)
    (reads : list Read) : list (list Read) :=
  match reads with
  | [] => done ++ [cur]
  | r :: rest =>
      if elapsed (EndTime r) (EndTime prev) =? 30 * Minute
      then runsFrom r done (cur ++ [r]) rest
      else runsFrom r (done ++ [cur]) [r] rest
  end.

Definition runs (reads : list Read) : list (list Read) :=
  match reads with
  | [] => [[]]
  | r :: rest => runsFrom r [] [r] rest
  end.


(** ** Sample series

    Readings of the meter of the repository's tests (MPRN 123, serial 45),
    written with [Date] in Europe/Dublin. *)

Definition series (reads : list Read) : Result :=
  mkResult "123" "45" wantReadType reads.

Definition at_ (y m d hh mm : Z) : Time := Date y m d hh mm 0 EuropeDublin.


(** A summer morning with a hole in the data: 10:00, 10:30, 12:00 (IST). *)
Definition summerGap : list Read :=
  [ mkRead 0.5 (at_ 2023 7 15 10 0);
    mkRead 0.25 (at_ 2023 7 15 10 30);
    mkRead 0.75 (at_ 2023 7 15 12 0) ].

(** The same morning, longer: 10:00, 10:30, 11:00, 11:30, 13:00 (IST). *)
Definition summerGap5 : list Read :=
  [ mkRead 0.5 (at_ 2023 7 15 10 0);
    mkRead 0.25 (at_ 2023 7 15 10 30);
    mkRead 0.75 (at_ 2023 7 15 11 0);
    mkRead 1 (at_ 2023 7 15 11 30);
    mkRead 2 (at_ 2023 7 15 13 0) ].

(** ** Sample files, as the records [encoding/csv] reads from them *)

Definition header : csv.line := csv.Fields headerFormat.

Definition row (sval sts : string) : csv.line :=
  csv.Fields ["123"; "45"; sval; wantReadType; sts]%string.

(** What [strconv.ParseFloat] returns on the value field of the sample
    files, [0.1] (the binary64 nearest to one tenth); the stand-in refuses
    every other text. *)
Definition sampleParseFloat (s : string) : option float :=
  if String.eqb s "0.1" then Some 0x1.999999999999ap-4%float else None.

(** The file of the specification's autumn transition: local times 01:00,
    00:30, 00:00, 00:30 on 29 October 2023, newest first. *)
Definition autumnFile : list csv.line :=
  [ header;
    row "0.1" "29-10-2023 01:00";
    row "0.1" "29-10-2023 00:30";
    row "0.1" "29-10-2023 00:00";
    row "0.1" "29-10-2023 00:30" ].

(** The instants the specification expects from [autumnFile], ascending: 00:30 at
    the daylight-saving offset, then 00:00, 00:30 and 01:00 at the standard
    offset. *)
Definition autumnExpected : list Time :=
  [ Date 2023 10 29 0 30 0 (FixedZone "IST" 3600);
    Date 2023 10 29 0 0 0 (FixedZone "GMT" 0);
    Date 2023 10 29 0 30 0 (FixedZone "GMT" 0);
    Date 2023 10 29 1 0 0 (FixedZone "GMT" 0) ].

(** The spring transition of the specification (26 March 2023): local
    times 02:30, 02:00, 00:30, 00:00, newest first. *)
Definition springFile : list csv.line :=
  [ header;
    row "0.1" "26-03-2023 02:30";
    row "0.1" "26-03-2023 02:00";
    row "0.1" "26-03-2023 00:30";
    row "0.1" "26-03-2023 00:00" ].

(** What a meter really exports around the repeated hour: local times
    02:00, 01:30, 01:00, 01:30, 01:00, 00:30, newest first. *)
Definition autumnRepeatedHour : list csv.line :=
  [ header;
    row "0.1" "29-10-2023 02:00";
    row "0.1" "29-10-2023 01:30";
    row "0.1" "29-10-2023 01:00";
    row "0.1" "29-10-2023 01:30";
    row "0.1" "29-10-2023 01:00";
    row "0.1" "29-10-2023 00:30" ].

(** Pointwise [Equal] of two lists of times. *)
Fixpoint sameInstants (ts us : list Time) : bool :=
  match ts, us with
  | [], [] => true
  | t :: ts', u :: us' => Equal t u && sameInstants ts' us'
  | _, _ => false
  end.

(** The loop of [splitTimes] stopped after [reads]: the state it has
    reached, or what it has returned. *)
Fixpoint splitRun (res : Result) (reads : list Read)
    (rr : list Result) (idx : nat) (lastTs : Time)
  : (list Result * error) + (list Result * nat * Time) :=
  match reads with
  | [] => inr (rr, idx, lastTs)
  | r :: reads' =>
      match splitStep res rr idx lastTs r with
      | inl stop => inl stop
      | inr (rr', idx', lastTs') => splitRun res reads' rr' idx' lastTs'
      end
  end.

(** Every two consecutive runs are separated by a gap. *)
Definition gaps (l : list (list Read)) : Prop :=
  forall k s1 s2, l !! k = Some s1 -> l !! S k = Some s2 -> gap s1 s2.

(** ** Vocabulary of the aggregation *)

(** The readings [Translate] works on: the segment without its first
    reading when that one is on the hour. *)
Definition retained (reads : list Read) : list Read :=
  match reads with
  | [] => []
  | r :: rest => if isRound (EndTime r) then rest else reads
  end.

(** The accumulator after the readings [l], each adding half its value. *)
Definition halfEnergy (acc : float) (l : list Read) : float :=
  foldl (fun a r => (a + Value r / 2)%float) acc l.

(** The readings behind the [k]-th statistic: the first three for the
    first one, then two by two. *)
Definition bucket (reads : list Read) (k : nat) : list Read :=
  if (k =? 0)%nat then take 3 reads else take 2 (drop (2 * k + 1) reads).

(** The running total of the states emitted so far. *)
Definition runningTotal (states : list float) : float :=
  foldl (fun a x => (a + x)%float) 0%float states.

(** The statistics of the readings after the first three, two by two:
    started at the first of the two, with the energy of both. *)
Fixpoint pairStats (sum : float) (reads : list Read) : list ha.StatisticValue :=
  match reads with
  | a :: b :: rest =>
      let value := halfEnergy 0 [a; b] in
      let sum := (sum + value)%float in
      statisticValue (EndTime a) value sum :: pairStats sum rest
  | _ => []
  end.

(** The statistics of a whole segment (already trimmed). *)
Definition translateStats (reads : list Read) : list ha.StatisticValue :=
  match reads with
  | r0 :: r1 :: r2 :: rest =>
      let value := halfEnergy 0 [r0; r1; r2] in
      let sum := (0 + value)%float in
      statisticValue (EndTime r1) value sum :: pairStats sum rest
  | _ => []
  end.

(** Segments for the aggregation, in January 2023 (GMT): 22:00 to 23:30;
    00:30 and 01:00; 00:30 to 01:30; 23:00 alone, of value 0.1. *)
Definition evening : list Read :=
  [ mkRead 0.5 (at_ 2023 1 15 22 0);
    mkRead 0.25 (at_ 2023 1 15 22 30);
    mkRead 0.75 (at_ 2023 1 15 23 0);
    mkRead 1 (at_ 2023 1 15 23 30) ].

Definition twoReadings : list Read :=
  [ mkRead 0.5 (at_ 2023 1 15 0 30);
    mkRead 0.25 (at_ 2023 1 15 1 0) ].

Definition threeReadings : list Read :=
  [ mkRead 0.5 (at_ 2023 1 15 0 30);
    mkRead 0.25 (at_ 2023 1 15 1 0);
    mkRead 0.75 (at_ 2023 1 15 1 30) ].

Definition onTheHour : list Read :=
  [ mkRead 0x1.999999999999ap-4 (at_ 2023 1 15 23 0) ].

(** The file with the single row of [onTheHour]. *)
Definition onTheHourFile : list csv.line :=
  [ header; row "0.1" "15-01-2023 23:00" ].

(** A series with a hole: 22:30, 23:00, 23:30, then 02:30 and 03:00 of
    the next day. *)
Definition holed : list Read :=
  [ mkRead 0.5 (at_ 2023 1 15 22 30);
    mkRead 0.25 (at_ 2023 1 15 23 0);
    mkRead 0.75 (at_ 2023 1 15 23 30);
    mkRead 1 (at_ 2023 1 16 2 30);
    mkRead 2 (at_ 2023 1 16 3 0) ].

(** The files "Different MPRN" and "Different serial number" of the
    repository's tests. *)
Definition differentMPRN : list csv.line :=
  [ header;
    csv.Fields ["123"; "45"; "0.1"; wantReadType; "15-01-2023 23:30"]%string;
    csv.Fields ["321"; "45"; "0.1"; wantReadType; "15-01-2023 23:00"]%string ].

Definition differentSerial : list csv.line :=
  [ header;
    csv.Fields ["123"; "45"; "0.1"; wantReadType; "15-01-2023 23:30"]%string;
    csv.Fields ["123"; "00"; "0.1"; wantReadType; "15-01-2023 23:00"]%string ].

(** Two files whose second data row carries another meter identifier and
    is refused for a reason of its own: a value [strconv.ParseFloat] does
    not parse (a decimal comma), and a read type other than the expected
    one. *)
Definition otherMeterBadValue : list csv.line :=
  [ header;
    csv.Fields ["123"; "45"; "0.1"; wantReadType; "15-01-2023 23:30"]%string;
    csv.Fields ["321"; "45"; "1,5"; wantReadType; "15-01-2023 23:00"]%string ].

Definition otherMeterOtherReadType : list csv.line :=
  [ header;
    csv.Fields ["123"; "45"; "0.1"; wantReadType; "15-01-2023 23:30"]%string;
    csv.Fields ["321"; "45"; "0.1"; "Active Export Interval (kW)"; "15-01-2023 23:00"]%string ].

(** A row that carries the meter identifier [m] and the serial number
    [s]. *)
Definition sameMeter (m s : string) (l : csv.line) : Prop :=
  exists sval rt sts, l = csv.Fields [m; s; sval; rt; sts].

(** What ingestion guarantees of every timestamp: it is presented in
    Europe/Dublin and is either 21 seconds past a minute (a local mean time
    reading, before 1916) or not earlier than two hours before the end of
    Dublin Mean Time; in both cases it is not the zero [time.Time]. *)
Definition dublinInstant (t : Time) : Prop :=
  loc t = EuropeDublin
  /\ (unixNano t `mod` (60 * Second) = 21 * Second
      \/ (dublinDMTEnd - 7200) * Second <= unixNano t).

(** ** Vocabulary of the pipeline *)

(** The value a data row carries: its third field as [strconv.ParseFloat]
    reads it. *)
Definition rowValue (ParseFloat : string -> option float) (l : csv.line) : option float :=
  match l with
  | csv.Fields record => record !! 2%nat ≫= ParseFloat
  | csv.Malformed => None
  end.

(** A reading of the hour that comes twice: it falls in the last hour of
    summer time, so that its wall clock is shown again one hour later, in
    winter time. A file shows the wall clock only, and [time.Date] resolves
    a wall clock that comes twice to its second coming: such a reading is
    parsed one hour late ([HDF_autumnRepeatedHour] is an instance). *)
Definition ambiguous (t : Time) : bool :=
  String.eqb (fst (Zone t)) "IST" && String.eqb (fst (Zone (Add t Hour))) "GMT".

Definition asParsed (r : Read) : Read :=
  if ambiguous (EndTime r) then withEndTime r (Add (EndTime r) Hour) else r.

(** The true readings around the end of summer time 2023 (the clocks go
    back at 01:00 UTC on 29 October): every half hour from 23:30 UTC to
    01:30 UTC. *)
Definition autumnTruth : list Read :=
  map (fun k => mkRead 0x1.999999999999ap-4
                  (mkTime ((Unix (at_ 2023 10 29 0 30) + k * 1800) * Second) EuropeDublin))
    [0; 1; 2; 3; 4; 5].

(** The sample evening as a file, newest row first, and the file of
    [holed]. *)
Definition eveningFile : list csv.line :=
  [ header;
    row "0.1" "15-01-2023 23:30";
    row "0.1" "15-01-2023 23:00";
    row "0.1" "15-01-2023 22:30";
    row "0.1" "15-01-2023 22:00" ].

Definition holedFile : list csv.line :=
  [ header;
    row "0.1" "16-01-2023 03:00";
    row "0.1" "16-01-2023 02:30";
    row "0.1" "15-01-2023 23:30";
    row "0.1" "15-01-2023 23:00";
    row "0.1" "15-01-2023 22:30" ].

(** The errors of package [parse], under a name of their own for the
    packages that have their own [error]. *)
Definition parse_error := error.

(** ** Package [ha]: the websocket connection to Home Assistant
    ([src/src/esb2ha.go], second listing)

    The websocket library is not part of the repository. A connection is
    modelled by what the code can observe of it through [wsjson]: the
    result of each successive read, already decoded into the struct at
    hand, and whether each successive write is refused; what has been
    written and whether the connection was closed are kept for the
    properties. *)

Module websocket.

(** A message of the server as [wsjson.Read] decodes it into
    [authResponseMessage] or [response]; a field the message lacks is left
    at its zero value. [Result], which the code never inspects, is left
    out. *)
Record incoming := mkIncoming {
  HAVersion : string;
  MessageType : string;
  ID : Z;
  Success : bool;
  ErrorCode : string;
  ErrorMessage : string
}.

(** What the code writes: the [auth] map and the anonymous struct of
    [SendStatistics], whose [type] is always
    ["recorder/import_statistics"]. *)
Inductive outgoing :=
| Auth (access_token : string)
| ImportStatistics (id : Z) (stat : ha.Statistics).

Record Conn := mkConn {
  url : string;
  inbox : list (option incoming);
  refusals : list bool;
  sent : list outgoing;
  closed : option (Z * string)
}.

Definition StatusGoingAway : Z := 1001.

(** [wsjson.Read]: the next message, or [None] for an error (of the
    network, of the decoding, or because nothing more comes). *)
Definition Read (c : Conn) : option incoming * Conn :=
  match closed c, inbox c with
  | None, m :: rest => (m, mkConn (url c) rest (refusals c) (sent c) (closed c))
  | _, _ => (None, c)
  end.

(** [wsjson.Write]: [true] when the message went out. *)
Definition Write (c : Conn) (m : outgoing) : bool * Conn :=
  match closed c, refusals c with
  | None, true :: rest => (false, mkConn (url c) (inbox c) rest (sent c) (closed c))
  | None, false :: rest => (true, mkConn (url c) (inbox c) rest (sent c ++ [m]) (closed c))
  | None, [] => (true, mkConn (url c) (inbox c) [] (sent c ++ [m]) (closed c))
  | Some _, _ => (false, c)
  end.

Definition Close (c : Conn) (code : Z) (reason : string) : Conn :=
  match closed c with
  | None => mkConn (url c) (inbox c) (refusals c) (sent c) (Some (code, reason))
  | Some _ => c
  end.

(** The network: the servers that successive calls of [Dial] reach
    ([None] when the dial fails), and the URLs dialled so far. *)
Record Network := mkNetwork {
  servers : list (option Conn);
  dialled : list string
}.

Definition Dial (net : Network) (u : string) : option Conn * Network :=
  match servers net with
  | Some c :: rest =>
      (Some (mkConn u (inbox c) (refusals c) (sent c) (closed c)),
       mkNetwork rest (dialled net ++ [u]))
  | None :: rest => (None, mkNetwork rest (dialled net ++ [u]))
  | [] => (None, mkNetwork [] (dialled net ++ [u]))
  end.

End websocket.

Module haclient.
Import websocket.

Inductive error :=
| ErrDial
| ErrRead
| ErrWrite
| ErrNoVersion
| ErrExpectedAuthRequired (got : string)
| ErrInvalidAuth (got : string)
| ErrOutOfSync (got want : Z)
| ErrResult (code message : string).

(** [Connection] is a websocket connection to Home Assistant. *)
Record Connection := mkConnection {
  conn : Conn;
  msgID : Z;
  ServerVersion : string
}.

Definition withConn (c : Connection) (ws : Conn) : Connection :=
  mkConnection ws (msgID c) (ServerVersion c).

Definition incMessageID (c : Connection) : Z * Connection :=
  (msgID c, mkConnection (conn c) (msgID c + 1) (ServerVersion c)).

Definition Close (c : Connection) : Connection :=
  withConn c (websocket.Close (conn c) StatusGoingAway "bye").

(** [login] sends the access token to authenticate to Home Assistant. *)
Definition login (c : Connection) (accessToken : string) : option error * Connection :=
  let '(rsp, ws) := Read (conn c) in
  let c := withConn c ws in
  match rsp with
  | None => (Some ErrRead, c)
  | Some rsp =>
      if String.eqb (HAVersion rsp) "" then (Some ErrNoVersion, c)
      else if negb (String.eqb (MessageType rsp) "auth_required") then
        (Some (ErrExpectedAuthRequired (MessageType rsp)), c)
      else
        let c := mkConnection (conn c) (msgID c) (HAVersion rsp) in
        let '(ok, ws) := Write (conn c) (Auth accessToken) in
        let c := withConn c ws in
        if negb ok then (Some ErrWrite, c)
        else
          let '(rsp, ws) := Read (conn c) in
          let c := withConn c ws in
          match rsp with
          | None => (Some ErrRead, c)
          | Some rsp =>
              if negb (String.eqb (MessageType rsp) "auth_ok") then
                (Some (ErrInvalidAuth (MessageType rsp)), c)
              else (None, c)
          end
  end.

(** [NewConnection]: the connection, or the error and the connection as
    it is left behind ([None] when the dial failed). *)
Definition NewConnection (net : Network) (host accessToken : string)
  : ((error * option Conn) + Connection) * Network :=
  let u := ("ws://" ++ host ++ "/api/websocket")%string in
  let '(ws, net) := Dial net u in
  match ws with
  | None => (inl (ErrDial, None), net)
  | Some ws =>
      let ret := mkConnection ws 42 "" in
      let '(err, ret) := login ret accessToken in
      match err with
      | Some err => let ret := Close ret in (inl (err, Some (conn ret)), net)
      | None => (inr ret, net)
      end
  end.

(** [waitResponse]; the response itself, which the only caller drops, is
    not returned. *)
Definition waitResponse (c : Connection) (id : Z) : option error * Connection :=
  let '(rsp, ws) := Read (conn c) in
  let c := withConn c ws in
  match rsp with
  | None => (Some ErrRead, c)
  | Some rsp =>
      if negb (ID rsp =? id) then (Some (ErrOutOfSync (ID rsp) id), c)
      else if negb (String.eqb (MessageType rsp) "result") || negb (Success rsp) then
        (Some (ErrResult (ErrorCode rsp) (ErrorMessage rsp)), c)
      else (None, c)
  end.

(** [SendStatistics] sends the statistics to Home Assistant. *)
Definition SendStatistics (c : Connection) (stat : ha.Statistics) : option error * Connection :=
  let '(id, c) := incMessageID c in
  let '(ok, ws) := Write (conn c) (ImportStatistics id stat) in
  let c := withConn c ws in
  if negb ok then (Some ErrWrite, c)
  else waitResponse c id.

End haclient.

(** ** Package [flag] and the environment

    A [FlagSet] whose flags are all string flags ([StringVar]), as those of
    the three commands are: the current value of each flag, by name.
    [VisitAll] visits the flags in lexicographical order of their names;
    the function it is given is written with the state it works on passed
    along. *)

Module flag.

Definition FlagSet := gmap string string.

Definition nameLe (a b : string) : Prop := String.leb a b = true.

#[export] Instance nameLe_dec : RelDecision nameLe :=
  fun a b => decide (String.leb a b = true).

(** [sortFlags] *)
Definition sortFlags (f : FlagSet) : list string :=
  merge_sort nameLe (map_to_list f).*1.

Definition VisitAll {S : Type} (f : FlagSet) (fn : S -> string -> S) (s : S) : S :=
  foldl fn s (sortFlags f).

(** [f.Value.String()] and [f.Value.Set(v)] of the flag [name]. *)
Definition String_ (f : FlagSet) (name : string) : string := default ""%string (f !! name).

Definition Set_ (f : FlagSet) (name v : string) : FlagSet := <[name := v]> f.

End flag.

(** [os.Getenv]: the value of the variable, empty when it is not set. *)
Definition Getenv (env : gmap string string) (key : string) : string :=
  default ""%string (env !! key).

(** ** Package [main]: the [upload] command ([src/src/esb2ha.go]) *)

Module main.
Import websocket haclient.

Inductive ExitStatus := ExitSuccess | ExitFailure | ExitUsageError.

Inductive error :=
| ErrMissingFlags (missing : list string)
| ErrHDF (e : parse_error)
| ErrNothingToUpload
| ErrCannotParse (e : parse_error)
| ErrCannotConnect (e : haclient.error)
| ErrCannotSend (e : haclient.error).

Record uploadCmd := mkUploadCmd { server : string; token : string; sensor : string }.

(** [stat.Metadata.StatisticID = c.sensor] *)
Definition withStatisticID (stat : ha.Statistics) (id : string) : ha.Statistics :=
  let m := ha.Metadata stat in
  ha.mkStatistics
    (ha.mkStatisticMetadata (ha.HasMean m) (ha.HasSum m) (ha.Name m) id
       (ha.UnitOfMeasurement m))
    (ha.Stats stat).

(** What one call of [upload] leaves: the statistics and the error it
    returns, the connection it opened as it is left (the function returns
    without closing it), and the network. *)
Record uploaded := mkUploaded {
  stat : ha.Statistics;
  err : option error;
  left_conn : option Conn;
  network : Network
}.

Definition upload (c : uploadCmd) (net : Network) (data : Result) : outcome uploaded :=
  translated ← Translate data;
  let '(stat, err) := translated in
  match err with
  | Some err => Ret (mkUploaded stat (Some (ErrCannotParse err)) None net)
  | None =>
      let stat := withStatisticID stat (sensor c) in
      let '(conn, net) := NewConnection net (server c) (token c) in
      match conn with
      | inl (err, ws) => Ret (mkUploaded stat (Some (ErrCannotConnect err)) ws net)
      | inr conn =>
          let '(err, conn) := SendStatistics conn stat in
          match err with
          | Some err =>
              Ret (mkUploaded stat (Some (ErrCannotSend err)) (Some (haclient.conn conn)) net)
          | None => Ret (mkUploaded stat None (Some (haclient.conn conn)) net)
          end
      end
  end.

(** The loop [for _, chunk := range parsed] of [parseAndUpload]: the exit
    status so far, what each call of [upload] left, the network. *)
Fixpoint uploadAll (c : uploadCmd) (net : Network) (parsed : list Result)
    (ret : ExitStatus) (done : list uploaded) : outcome (ExitStatus * list uploaded * Network) :=
  match parsed with
  | [] => Ret (ret, done, net)
  | chunk :: parsed' =>
      up ← upload c net chunk;
      let ret := match err up with Some _ => ExitFailure | None => ret end in
      uploadAll c (network up) parsed' ret (done ++ [up])
  end.

Section ParseAndUpload.

Variable ParseFloat : string -> option float.

(** [parseAndUpload]: the exit status, the error that ends the command
    before any upload (if any), what each upload left, and the network. *)
Definition parseAndUpload (c : uploadCmd) (net : Network) (data : list csv.line)
  : outcome (ExitStatus * option error * list uploaded * Network) :=
  hdf ← HDF ParseFloat data;
  let '(parsed, err) := hdf in
  match err with
  | Some err => Ret (ExitFailure, Some (ErrHDF err), [], net)
  | None =>
      if (length parsed =? 0)%nat then Ret (ExitFailure, Some ErrNothingToUpload, [], net)
      else
        r ← uploadAll c net parsed ExitSuccess [];
        let '(ret, done, net) := r in
        Ret (ret, None, done, net)
  end.

End ParseAndUpload.

(** [flagsFromEnv] sets the unset flags from the environment variables
    of the same name. *)
Definition flagsFromEnv (env : gmap string string) (f : flag.FlagSet) : flag.FlagSet :=
  flag.VisitAll f
    (fun fs name =>
       if String.eqb (flag.String_ fs name) "" then flag.Set_ fs name (Getenv env name)
       else fs)
    f.

(** [ensureFlagsAreSet]: the error, and the flags as [flagsFromEnv] left
    them. *)
Definition ensureFlagsAreSet (env : gmap string string) (f : flag.FlagSet)
  : option error * flag.FlagSet :=
  let f := flagsFromEnv env f in
  let missing :=
    flag.VisitAll f
      (fun missing name =>
         if String.eqb (flag.String_ f name) "" then missing ++ [name] else missing)
      [] in
  if (0 <? length missing)%nat then (Some (ErrMissingFlags missing), f) else (None, f).

(** The fields of the command are the variables of its three flags
    ([SetFlags]). *)
Definition uploadCmdOf (f : flag.FlagSet) : uploadCmd :=
  mkUploadCmd (flag.String_ f "ha_server") (flag.String_ f "ha_token")
    (flag.String_ f "ha_sensor").

Section Execute.

Variable ParseFloat : string -> option float.

(** [Execute] of the [upload] command on the flags as parsed from the command line,
    with the file on standard input. *)
Definition Execute (env : gmap string string) (f : flag.FlagSet) (net : Network)
    (stdin : list csv.line)
  : outcome (ExitStatus * option error * list uploaded * Network) :=
  let '(err, f) := ensureFlagsAreSet env f in
  match err with
  | Some err => Ret (ExitUsageError, Some err, [], net)
  | None => parseAndUpload ParseFloat (uploadCmdOf f) net stdin
  end.

End Execute.

End main.

(** ** Vocabulary of the connection *)

(** A server that authenticates a client: the connection is open, its
    first message asks for authentication and names a version, the first
    write is not refused, and its second message accepts; [rest] is what
    it sends afterwards. *)
Definition authenticates (s : websocket.Conn) (version : string)
    (rest : list (option websocket.incoming)) : Prop :=
  websocket.closed s = None
  /\ exists m1 m2,
       websocket.inbox s = Some m1 :: Some m2 :: rest
       /\ websocket.HAVersion m1 = version /\ version <> ""%string
       /\ websocket.MessageType m1 = "auth_required"%string
       /\ head (websocket.refusals s) <> Some true
       /\ websocket.MessageType m2 = "auth_ok"%string.

(** A message that acknowledges the request [id]. *)
Definition acknowledges (m : websocket.incoming) (id : Z) : Prop :=
  websocket.ID m = id /\ websocket.MessageType m = "result"%string
  /\ websocket.Success m = true.

(** A segment made of a single reading on the hour. *)
Definition singleRound (seg : Result) : Prop :=
  exists r, Reads seg = [r] /\ isRound (EndTime r) = true.

(** A Home Assistant that accepts one import: it authenticates and
    acknowledges request 42. *)
Definition sampleServer : websocket.Conn :=
  websocket.mkConn "" 
    [ Some (websocket.mkIncoming "2023.9.1" "auth_required" 0 false "" "");
      Some (websocket.mkIncoming "2023.9.1" "auth_ok" 0 false "" "");
      Some (websocket.mkIncoming "" "result" 42 true "" "") ]
    [] [] None.

(** A server that refuses the token. *)
Definition refusingServer : websocket.Conn :=
  websocket.mkConn "" 
    [ Some (websocket.mkIncoming "2023.9.1" "auth_required" 0 false "" "");
      Some (websocket.mkIncoming "2023.9.1" "auth_invalid" 0 false "" "") ]
    [] [] None.

Definition sampleCmd : main.uploadCmd := main.mkUploadCmd "ha.local:8123" "secret" "sensor.esb".

(** The network met by the [k]-th call of [upload] in a run that left
    [done]: the one left by the call before it, the initial one for the
    first. *)
Definition netBefore (net : websocket.Network) (done : list main.uploaded) (k : nat)
  : websocket.Network :=
  foldl (fun _ up => main.network up) net (take k done).

(** ** Vocabulary of the flags *)

(** The value a flag ends with: its own unless it is empty, then that of
    the environment variable of its name. *)
Definition fill (env : gmap string string) (name v : string) : string :=
  if String.eqb v "" then Getenv env name else v.

(** The function [flagsFromEnv] gives to [VisitAll]. *)
Definition fillStep (env : gmap string string) (fs : flag.FlagSet) (name : string)
  : flag.FlagSet :=
  if String.eqb (flag.String_ fs name) "" then flag.Set_ fs name (Getenv env name) else fs.

(** The flags of the [upload] command with only the token given on the
    command line, and an environment that names the server. *)
Definition sampleFlags : flag.FlagSet :=
  <["ha_server"%string := ""%string]>
    (<["ha_token"%string := "secret"%string]>
       (<["ha_sensor"%string := ""%string]> ∅)).

Definition sampleEnv : gmap string string :=
  <["ha_server"%string := "ha.local:8123"%string]>
    (<["ha_token"%string := "other"%string]> ∅).

(** ** Package [esblib] ([src/src/esblib/esblib.go])

    The parts that work on data already received: the attributes and the
    form of the redirect page, and the settings line of the login page.
    The HTML parser, the JSON decoder and the HTTP client are not part of
    the repository; a document is the tree [html.Parse] returns, and the
    decoder is a parameter. *)

Module html.

Record Attribute := mkAttribute { Namespace : string; Key : string; Val : string }.

Inductive NodeType :=
| ErrorNode | TextNode | DocumentNode | ElementNode | CommentNode | DoctypeNode | RawNode.

(** A node with its children in order, from [FirstChild] along
    [NextSibling]. *)
#[warnings="-register-all"] Inductive Node :=
| mkNode (type : NodeType) (data : string) (attr : list Attribute) (children : list Node).

Definition Type_ (n : Node) : NodeType := let 'mkNode t _ _ _ := n in t.
Definition Data (n : Node) : string := let 'mkNode _ d _ _ := n in d.
Definition Attr (n : Node) : list Attribute := let 'mkNode _ _ a _ := n in a.
Definition children (n : Node) : list Node := let 'mkNode _ _ _ c := n in c.

End html.

Module neturl.

Record URL := mkURL { Scheme : string; Host : string; Path : string; RawQuery : string }.

(** [url.Values] and [Values.Set], which replaces what the key had. *)
Definition Values := gmap string (list string).

Definition Set_ (v : Values) (key value : string) : Values := <[key := [value]]> v.

End neturl.

(** Package [strings] on byte strings. The characters [TrimRightFunc] is
    asked about here are all ASCII, which are whole runes wherever they
    stand, so bytes stand for runes. *)
Module gostrings.

Definition newline : ascii := "010"%char.

(** [strings.Split(s, sep)] for a separator of one byte. *)
Fixpoint Split (s : string) (sep : ascii) : list string :=
  match s with
  | EmptyString => [EmptyString]
  | String c rest =>
      if Ascii.eqb c sep then EmptyString :: Split rest sep
      else
        match Split rest sep with
        | p :: ps => String c p :: ps
        | [] => [String c EmptyString]
        end
  end.

(** [strings.CutPrefix], behind [HasPrefix] and [TrimPrefix]. *)
Fixpoint CutPrefix (s prefix : string) : option string :=
  match prefix, s with
  | EmptyString, _ => Some s
  | String a prefix', String b s' => if Ascii.eqb a b then CutPrefix s' prefix' else None
  | String _ _, EmptyString => None
  end.

Definition HasPrefix (s prefix : string) : bool :=
  match CutPrefix s prefix with Some _ => true | None => false end.

Definition TrimPrefix (s prefix : string) : string :=
  match CutPrefix s prefix with Some after => after | None => s end.

Fixpoint TrimRightFunc (s : string) (f : ascii -> bool) : string :=
  match s with
  | EmptyString => EmptyString
  | String c rest =>
      match TrimRightFunc rest f with
      | EmptyString => if f c then EmptyString else String c EmptyString
      | kept => String c kept
      end
  end.

End gostrings.

Module esblib.
Import gostrings.

(** [attributesToMap] returns a map of key value attributes on the
    default namespace. *)
Definition attributesToMap (aa : list html.Attribute) : gmap string string :=
  foldl
    (fun ret a =>
       if negb (String.eqb (html.Namespace a) "") then ret
       else <[html.Key a := html.Val a]> ret)
    ∅ aa.

(** [attrs[key]]: the empty string for a key the map lacks. *)
Definition get (attrs : gmap string string) (key : string) : string :=
  default ""%string (attrs !! key).

(** The variables the closure [traverse] of [htmlFormToRequest] writes. *)
Record form := mkForm { method : string; reqURL : string; data : neturl.Values }.

Definition isElement (n : html.Node) (tag : string) : bool :=
  match html.Type_ n with
  | html.ElementNode => String.eqb (html.Data n) tag
  | _ => false
  end.

(** The two tests [traverse] makes on a node before it descends. *)
Definition visit (n : html.Node) (st : form) : form :=
  let st :=
    if isElement n "input" then
      let attrs := attributesToMap (html.Attr n) in
      if String.eqb (get attrs "type") "hidden"
      then mkForm (method st) (reqURL st)
             (neturl.Set_ (data st) (get attrs "name") (get attrs "value"))
      else st
    else st in
  if isElement n "form" then
    let attrs := attributesToMap (html.Attr n) in
    mkForm (get attrs "method") (get attrs "action") (data st)
  else st.

Fixpoint traverse (n : html.Node) (st : form) : form :=
  match n with
  | html.mkNode type d attr children =>
      foldl (fun st c => traverse c st) (visit (html.mkNode type d attr children) st) children
  end.

(** [htmlFormToRequest] on the parsed document, up to its call of
    [http.NewRequest]: the method and the URL it passes, and the form data
    whose encoding is the body. *)
Definition htmlFormToRequest (doc : html.Node) : form :=
  traverse doc (mkForm "" "" ∅).

(** *** The settings of the login page *)

Record pageSettings := mkPageSettings {
  CSRF : string;
  TransID : string;
  API : string;
  Hosts_Tenant : string;
  Hosts_Policy : string
}.

Record loginSettings := mkLoginSettings {
  loginURL : neturl.URL;
  settings : pageSettings
}.

Inductive error :=
| ErrGet
| ErrReadAll
| ErrCannotFindPageSettings
| ErrUnmarshal.

(** The answer to [c.hc.Get(baseURL)]: the body as [ioutil.ReadAll] reads
    it ([None] when it fails) and [rsp.Request.URL]. *)
Record Response := mkResponse { Body : option string; RequestURL : neturl.URL }.

Definition settingsPrefix : string := "var SETTINGS = ".

(** The function given to [TrimRightFunc]. *)
Definition isCutset (r : ascii) : bool :=
  Ascii.eqb r newline || Ascii.eqb r "013"%char || Ascii.eqb r "009"%char
  || Ascii.eqb r ";"%char || Ascii.eqb r " "%char.

(** The loop over the lines, which stops at the first line that has the
    prefix; the empty string when there is none. *)
Fixpoint findSettings (lines : list string) : string :=
  match lines with
  | [] => EmptyString
  | l :: rest => if HasPrefix l settingsPrefix then l else findSettings rest
  end.

Section Login.

(** [json.Unmarshal] into [pageSettings]; [None] is its error. *)
Variable Unmarshal : string -> option pageSettings.

(** [loadLoginPage] from the answer to its request ([None]: the request
    failed). *)
Definition loadLoginPage (rsp : option Response) : error + loginSettings :=
  match rsp with
  | None => inl ErrGet
  | Some rsp =>
      match Body rsp with
      | None => inl ErrReadAll
      | Some b =>
          let settings := findSettings (Split b newline) in
          if String.eqb settings "" then inl ErrCannotFindPageSettings
          else
            let settings := TrimPrefix settings settingsPrefix in
            let settings := TrimRightFunc settings isCutset in
            match Unmarshal settings with
            | None => inl ErrUnmarshal
            | Some sj => inr (mkLoginSettings (RequestURL rsp) sj)
            end
      end
  end.

End Login.

End esblib.

(** ** Vocabulary of the documents *)

(** The nodes of a document in document order. *)
Fixpoint preorder (n : html.Node) : list html.Node :=
  match n with
  | html.mkNode type d attr children =>
      html.mkNode type d attr children :: flat_map preorder children
  end.

(** The value of the last attribute of the default namespace with the key
    [key]. *)
Definition lastAttribute (aa : list html.Attribute) (key : string) : option string :=
  last (omap (fun a =>
                if String.eqb (html.Namespace a) "" && String.eqb (html.Key a) key
                then Some (html.Val a) else None) aa).

(** The attribute as the code reads it, empty when it is missing. *)
Definition attribute (n : html.Node) (key : string) : string :=
  default ""%string (lastAttribute (html.Attr n) key).

(** The hidden inputs of a document (name and value) and its forms (method
    and action), in document order. *)
Definition hiddenInputs (doc : html.Node) : list (string * string) :=
  omap (fun n =>
          if esblib.isElement n "input" && String.eqb (attribute n "type") "hidden"
          then Some (attribute n "name", attribute n "value") else None)
    (preorder doc).

Definition forms (doc : html.Node) : list (string * string) :=
  omap (fun n =>
          if esblib.isElement n "form"
          then Some (attribute n "method", attribute n "action") else None)
    (preorder doc).

(** The characters of a string. *)
Definition chars (s : string) : list ascii := String.list_ascii_of_string s.

(** The lines put together, a newline after each. *)
Fixpoint unlines (lines : list string) : string :=
  match lines with
  | [] => EmptyString
  | l :: rest => (l ++ String gostrings.newline (unlines rest))%string
  end.

(** The redirect page of the repository's test, as parsed: a form with
    three hidden inputs and a submit button. *)
Definition input (type name value : string) : html.Node :=
  html.mkNode html.ElementNode "input"
    [ html.mkAttribute "" "type" type; html.mkAttribute "" "name" name;
      html.mkAttribute "" "value" value ] [].

Definition redirectPage : html.Node :=
  html.mkNode html.DocumentNode ""  []
    [ html.mkNode html.ElementNode "html" []
        [ html.mkNode html.ElementNode "body" []
            [ html.mkNode html.ElementNode "form"
                [ html.mkAttribute "" "id" "auto"; html.mkAttribute "" "method" "post";
                  html.mkAttribute "" "action" "https://myaccount.esbnetworks.ie/signin-oidc" ]
                [ html.mkNode html.ElementNode "div" []
                    [ input "hidden" "state" "state-val-1-2";
                      input "hidden" "client_info" "client_val";
                      input "hidden" "code" "code.val-1-2-3" ];
                  html.mkNode html.ElementNode "div" []
                    [ html.mkNode html.ElementNode "input"
                        [ html.mkAttribute "" "type" "submit";
                          html.mkAttribute "" "value" "Continue" ] [] ] ] ] ] ].

(** A login page: two lines, the settings line closed by a semicolon and
    a carriage return, and the rest of the page. The stand-in for the JSON
    decoder knows the one text of the sample. *)
Definition sampleSettings : esblib.pageSettings :=
  esblib.mkPageSettings "token" "tx1" "CombinedSigninAndSignup" "/tenant" "policy".

Definition sampleUnmarshal (s : string) : option esblib.pageSettings :=
  if String.eqb s "{csrf:token}" then Some sampleSettings else None.

Definition sampleLoginURL : neturl.URL :=
  neturl.mkURL "https" "login.esbnetworks.ie" "/tenant/oauth2/v2.0/authorize" "".

(** * Properties *)

(** Unfolds the sequencing of calls that may panic. *)
Ltac unfold_outcome := unfold mbind, outcome_bind, obind.

(** ** Durations and the comparisons the program makes on them *)

Lemma Minute_value : Minute = 60000000000.
Proof. reflexivity. Qed.

Lemma Hour_value : Hour = 3600000000000.
Proof. reflexivity. Qed.

Lemma Minutes_eq_30 (d : Duration) :
  Qeq_bool (Minutes d) 30 = (d =? 30 * Minute).
Proof.
  unfold Minutes, Qeq_bool, Qplus, inject_Z. cbn [Qnum Qden].
  rewrite Minute_value.
  pose proof (Z.quot_rem' d 60000000000) as E.
  change (Z.pos (1 * 60000000000)) with 60000000000.
  change (Z.pos 60000000000) with 60000000000.
  change (Z.pos 1) with 1.
  destruct (Z.eqb_spec d (30 * 60000000000)) as [Hd | Hd].
  - apply Z.eqb_eq. lia.
  - apply Z.eqb_neq. lia.
Qed.

Lemma Minutes_le_0 (d : Duration) :
  Qle_bool (Minutes d) 0 = (d <=? 0).
Proof.
  unfold Minutes, Qle_bool, Qplus, inject_Z. cbn [Qnum Qden].
  rewrite Minute_value.
  pose proof (Z.quot_rem' d 60000000000) as E.
  change (Z.pos (1 * 60000000000)) with 60000000000.
  change (Z.pos 60000000000) with 60000000000.
  change (Z.pos 1) with 1.
  destruct (Z.leb_spec d 0) as [Hd | Hd].
  - apply Z.leb_le. lia.
  - apply Z.leb_gt. lia.
Qed.

Lemma Hours_eq_1 (d : Duration) :
  Qeq_bool (Hours d) 1 = (d =? Hour).
Proof.
  unfold Hours, Qeq_bool, Qplus, inject_Z. cbn [Qnum Qden].
  rewrite Hour_value.
  pose proof (Z.quot_rem' d 3600000000000) as E.
  change (Z.pos (1 * 3600000000000)) with 3600000000000.
  change (Z.pos 3600000000000) with 3600000000000.
  change (Z.pos 1) with 1.
  destruct (Z.eqb_spec d 3600000000000) as [Hd | Hd].
  - apply Z.eqb_eq. lia.
  - apply Z.eqb_neq. lia.
Qed.

Lemma Sub_eq_30min (t u : Time) :
  (Sub t u =? 30 * Minute) = (elapsed t u =? 30 * Minute).
Proof.
  unfold Sub, elapsed, maxDuration, minDuration. rewrite Minute_value.
  repeat case_match; lia.
Qed.

Lemma Sub_le_0 (t u : Time) :
  (Sub t u <=? 0) = (elapsed t u <=? 0).
Proof.
  unfold Sub, elapsed, maxDuration, minDuration.
  repeat case_match; lia.
Qed.

Lemma Sub_eq_Hour (t u : Time) :
  (Sub t u =? Hour) = (elapsed t u =? Hour).
Proof.
  unfold Sub, elapsed, maxDuration, minDuration. rewrite Hour_value.
  repeat case_match; lia.
Qed.

(** ** Loops that rewrite a slice in place, one index per iteration *)

Section InPlace.

Variable step : nat -> list Read * list string -> nat -> list Read * list string.

Hypothesis step_other : forall max st i j,
  j <> i -> fst (step max st i) !! j = fst st !! j.
Hypothesis step_values : forall max st i,
  map Value (fst (step max st i)) = map Value (fst st).

Lemma foldl_other max (l : list nat) : forall st j,
  j ∉ l -> fst (foldl (step max) st l) !! j = fst st !! j.
Proof.
  induction l as [| i l IH]; intros st j Hj; [reflexivity |].
  cbn [foldl]. rewrite IH by (intros ?; apply Hj; now right).
  apply step_other. intros ->. apply Hj. now left.
Qed.

Lemma foldl_values max (l : list nat) : forall st,
  map Value (fst (foldl (step max) st l)) = map Value (fst st).
Proof.
  induction l as [| i l IH]; intros st; [reflexivity |].
  cbn [foldl]. now rewrite IH, step_values.
Qed.

(** Iteration [i] of the whole loop: it starts from a slice whose entries
    from [i] on are still the original ones and whose earlier entries are
    already final, and what it leaves at [i] is final. *)
Lemma loop_at (max : nat) (reads : list Read) (i : nat) :
  (i < max)%nat ->
  let before := foldl (step max) (reads, []) (seq 0 i) in
  let out := fst (foldl (step max) (reads, []) (seq 0 max)) in
  out !! i = fst (step max before i) !! i
  /\ (forall j, (i <= j)%nat -> fst before !! j = reads !! j)
  /\ (forall j, (j < i)%nat -> fst before !! j = out !! j).
Proof.
  intros Hi before out.
  assert (Hsplit : seq 0 max = seq 0 i ++ i :: seq (S i) (max - S i)).
  { replace max with (i + S (max - S i))%nat at 1 by lia.
    rewrite seq_app. reflexivity. }
  assert (Hout : out = fst (foldl (step max) (step max before i) (seq (S i) (max - S i)))).
  { unfold out. rewrite Hsplit, foldl_app. reflexivity. }
  split; [| split].
  - rewrite Hout. apply foldl_other. rewrite elem_of_seq. lia.
  - intros j Hj. unfold before. rewrite foldl_other; [reflexivity |].
    rewrite elem_of_seq. lia.
  - intros j Hj. rewrite Hout. rewrite foldl_other by (rewrite elem_of_seq; lia).
    symmetry. apply step_other. lia.
Qed.

End InPlace.

Lemma map_Value_insert (reads : list Read) (i : nat) (r : Read) (t : Time) :
  reads !! i = Some r ->
  map Value (<[i := withEndTime r t]> reads) = map Value reads.
Proof.
  intros Hr. change (map Value) with (fmap (M := list) Value).
  rewrite list_fmap_insert. apply list_insert_id.
  rewrite list_lookup_fmap, Hr. reflexivity.
Qed.

(** ** [fixTimezone] (current revision) *)

Lemma fixTimezoneStep_other max st i j :
  j <> i -> fst (fixTimezoneStep max st i) !! j = fst st !! j.
Proof.
  intros Hj. destruct st as [reads logs]. unfold fixTimezoneStep.
  repeat case_match; cbn [fst]; try reflexivity;
    apply list_lookup_insert_ne; congruence.
Qed.

Lemma fixTimezoneStep_values max st i :
  map Value (fst (fixTimezoneStep max st i)) = map Value (fst st).
Proof.
  destruct st as [reads logs]. unfold fixTimezoneStep.
  repeat case_match; cbn [fst]; try reflexivity;
    now apply map_Value_insert.
Qed.

Lemma fixTimezone_Reads (res : Result) :
  Reads (fst (fixTimezone res)) = fst (fixTimezoneLoop (Reads res)).
Proof.
  unfold fixTimezone. destruct (fixTimezoneLoop (Reads res)). reflexivity.
Qed.

Lemma fixTimezone_identity (res : Result) :
  MPRN (fst (fixTimezone res)) = MPRN res
  /\ MeterSerialNumber (fst (fixTimezone res)) = MeterSerialNumber res
  /\ ReadTypes (fst (fixTimezone res)) = ReadTypes res.
Proof.
  unfold fixTimezone. destruct (fixTimezoneLoop (Reads res)). repeat split.
Qed.

(** C10. The disambiguation pass changes nothing but timestamps: the meter
    identifier, the serial number and the reading-type label of the series
    are the same before and after, and so are the number of readings and
    the value found at every position. *)
Theorem fixTimezone_frame (res : Result) :
  let res' := fst (fixTimezone res) in
  MPRN res' = MPRN res
  /\ MeterSerialNumber res' = MeterSerialNumber res
  /\ ReadTypes res' = ReadTypes res
  /\ length (Reads res') = length (Reads res)
  /\ map Value (Reads res') = map Value (Reads res).
Proof.
  cbv zeta.
  assert (Hv : map Value (Reads (fst (fixTimezone res))) = map Value (Reads res)).
  { rewrite fixTimezone_Reads. unfold fixTimezoneLoop.
    apply (foldl_values _ fixTimezoneStep_values). }
  destruct (fixTimezone_identity res) as (H1 & H2 & H3).
  repeat split; try assumption.
  rewrite <- (length_map Value), Hv. apply length_map.
Qed.

Lemma fixTimezone_loop_at (res : Result) (i : nat) (r : Read) :
  Reads res !! i = Some r ->
  let n := length (Reads res) in
  let out := Reads (fst (fixTimezone res)) in
  exists reads logs,
    out !! i = fst (fixTimezoneStep n (reads, logs) i) !! i
    /\ reads !! i = Some r
    /\ reads !! (i + 2)%nat = Reads res !! (i + 2)%nat
    /\ ((2 <= i)%nat -> reads !! (i - 2)%nat = out !! (i - 2)%nat).
Proof.
  intros Hr n out.
  assert (Hi : (i < n)%nat) by (apply lookup_lt_Some in Hr; exact Hr).
  destruct (loop_at fixTimezoneStep fixTimezoneStep_other n (Reads res) i Hi)
    as (Hout & Hge & Hlt).
  destruct (foldl (fixTimezoneStep n) (Reads res, []) (seq 0 i)) as [reads logs] eqn:Hb.
  exists reads, logs. cbn [fst] in *.
  unfold out. rewrite fixTimezone_Reads. unfold fixTimezoneLoop. fold n.
  repeat split.
  - exact Hout.
  - rewrite Hge by lia. exact Hr.
  - apply Hge. lia.
  - intros H2. apply Hlt. lia.
Qed.




(** ** [fixTimezone] (earlier revision) *)

Lemma legacy_fixTimezoneStep_other max st i j :
  j <> i -> fst (Legacy.fixTimezoneStep max st i) !! j = fst st !! j.
Proof.
  intros Hj. destruct st as [reads logs]. unfold Legacy.fixTimezoneStep.
  repeat case_match; cbn [fst]; try reflexivity;
    apply list_lookup_insert_ne; congruence.
Qed.

Lemma legacy_fixTimezoneStep_values max st i :
  map Value (fst (Legacy.fixTimezoneStep max st i)) = map Value (fst st).
Proof.
  destruct st as [reads logs]. unfold Legacy.fixTimezoneStep.
  repeat case_match; cbn [fst]; try reflexivity;
    now apply map_Value_insert.
Qed.

Lemma legacy_fixTimezone_Reads (res : Result) :
  Reads (fst (Legacy.fixTimezone res)) = fst (Legacy.fixTimezoneLoop (Reads res)).
Proof.
  unfold Legacy.fixTimezone. destruct (Legacy.fixTimezoneLoop (Reads res)). reflexivity.
Qed.

(** The earlier pass inspects the readings in IST. At a position with a
    reading two places earlier only that (already processed) reading is
    compared, for equality of instants; the reading two places later is
    consulted at the first two positions only. *)
Lemma legacy_fixTimezone_reading (res : Result) (i : nat) (r : Read) :
  Reads res !! i = Some r ->
  let n := length (Reads res) in
  let out := Reads (fst (Legacy.fixTimezone res)) in
  let ct := EndTime r in
  (fst (Zone ct) <> "IST"%string -> out !! i = Some r)
  /\ (fst (Zone ct) = "IST"%string ->
      ((2 <= i)%nat -> forall r0, out !! (i - 2)%nat = Some r0 ->
         out !! i = Some (if Equal (EndTime r0) ct
                          then withEndTime r (Add ct Hour) else r))
      /\ ((i < 2)%nat -> forall r2, Reads res !! (i + 2)%nat = Some r2 ->
          out !! i = Some (if elapsed (EndTime r2) (Add ct Hour) =? Hour
                           then withEndTime r (Add ct Hour) else r))
      /\ ((i < 2)%nat -> (n <= i + 2)%nat -> out !! i = Some r)).
Proof.
  intros Hr n out ct.
  assert (Hi : (i < n)%nat) by (apply lookup_lt_Some in Hr; exact Hr).
  destruct (loop_at Legacy.fixTimezoneStep legacy_fixTimezoneStep_other n (Reads res) i Hi)
    as (Hout & Hge & Hlt).
  destruct (foldl (Legacy.fixTimezoneStep n) (Reads res, []) (seq 0 i)) as [reads logs] eqn:Hb.
  cbn [fst] in *.
  assert (Hout' : out !! i = (Legacy.fixTimezoneStep n (reads, logs) i).1 !! i).
  { unfold out. rewrite legacy_fixTimezone_Reads. exact Hout. }
  assert (Hri : reads !! i = Some r) by (rewrite Hge by lia; exact Hr).
  assert (Hlen : (i < length reads)%nat) by (apply lookup_lt_Some in Hri; exact Hri).
  rewrite Hout'. unfold Legacy.fixTimezoneStep. rewrite Hri. fold ct.
  split.
  - intros Hz. apply String.eqb_neq in Hz. rewrite Hz. cbn [negb fst]. exact Hri.
  - intros Hz. apply String.eqb_eq in Hz. rewrite Hz. cbn [negb].
    split; [| split].
    + intros H2 r0 Hr0.
      assert (H2' : (2 <=? i)%nat = true) by (apply Nat.leb_le; lia).
      assert (Hp : reads !! (i - 2)%nat = Some r0).
      { rewrite Hlt by lia. unfold out in Hr0.
        rewrite legacy_fixTimezone_Reads in Hr0. exact Hr0. }
      rewrite H2', Hp.
      destruct (Equal (EndTime r0) ct); cbn [fst]; [| exact Hri].
      now apply list_lookup_insert_eq.
    + intros H2 r2 Hr2.
      assert (H2' : (2 <=? i)%nat = false) by (apply Nat.leb_gt; lia).
      assert (H2'' : (i + 2 <? n)%nat = true).
      { apply Nat.ltb_lt. apply lookup_lt_Some in Hr2. exact Hr2. }
      rewrite H2', H2'', Hge, Hr2 by lia.
      rewrite Hours_eq_1, Sub_eq_Hour.
      destruct (elapsed (EndTime r2) (Add ct Hour) =? Hour); cbn [fst]; [| exact Hri].
      now apply list_lookup_insert_eq.
    + intros H2 Hn.
      assert (H2' : (2 <=? i)%nat = false) by (apply Nat.leb_gt; lia).
      assert (H2'' : (i + 2 <? n)%nat = false) by (apply Nat.ltb_ge; lia).
      rewrite H2', H2''. cbn [fst]. exact Hri.
Qed.

(** On [summerGap5] the third reading (11:00 IST) differs from the reading
    two places earlier, the reading two places later (13:00) is exactly one
    hour after its corrected instant, and the earlier pass leaves it as it
    is; on [summerGap] the first reading, which has no earlier neighbour,
    is moved one hour later. *)
Lemma legacy_fixTimezone_later_neighbour :
  (elapsed (at_ 2023 7 15 13 0) (Add (at_ 2023 7 15 11 0) Hour) = Hour
   /\ Reads (fst (Legacy.fixTimezone (series summerGap5))) = summerGap5)
  /\ Reads (fst (Legacy.fixTimezone (series summerGap)))
     = [ mkRead 0.5 (Add (at_ 2023 7 15 10 0) Hour);
         mkRead 0.25 (at_ 2023 7 15 10 30);
         mkRead 0.75 (at_ 2023 7 15 12 0) ].
Proof. vm_compute. repeat split; reflexivity. Qed.

(** ** Ingestion *)

Section IngestFacts.

Variable ParseFloat : string -> option float.

(** A well-formed row: five fields, the expected read type, a value and a
    timestamp that parse. *)
Lemma parseLine_ok (i : nat) (mprn serial sval sts : string) (v : float) (t : Time) :
  ParseFloat sval = Some v ->
  timeparse.ParseInLocation sts irelandTimezone = Some t ->
  parseLine ParseFloat i [mprn; serial; sval; wantReadType; sts]
  = Ret (inr (mkLine mprn serial v t)).
Proof.
  intros Hv Ht. unfold parseLine, index, mbind, outcome_bind, obind.
  cbn -[String.eqb wantReadType timeparse.ParseInLocation irelandTimezone].
  rewrite String.eqb_refl. cbn [negb]. rewrite Hv, Ht. reflexivity.
Qed.

(** One turn of the reading loop on a well-formed row. *)
Lemma readData_ok (rest : list csv.line) (i : nat) (res : Result)
    (mprn serial sval sts : string) (v : float) (t : Time) :
  ParseFloat sval = Some v ->
  timeparse.ParseInLocation sts irelandTimezone = Some t ->
  readData ParseFloat 5 (csv.Fields [mprn; serial; sval; wantReadType; sts] :: rest) i res
  = if (i =? 1)%nat then
      readData ParseFloat 5 rest (S i)
        (mkResult mprn serial wantReadType (Reads res ++ [mkRead v t]))
    else if negb (String.eqb (MPRN res) mprn) then
      Ret (inl (ErrMultipleMPRN (MPRN res) mprn))
    else if negb (String.eqb (MeterSerialNumber res) serial) then
      Ret (inl (ErrMultipleSerialNumbers (MeterSerialNumber res) serial))
    else
      readData ParseFloat 5 rest (S i) (withReads res (Reads res ++ [mkRead v t])).
Proof.
  intros Hv Ht. cbn -[parseLine String.eqb wantReadType].
  rewrite (parseLine_ok i mprn serial sval sts v t Hv Ht).
  unfold_outcome.
  cbn [line_MPRN line_SerialNumber line_Value line_EndTime].
  destruct (i =? 1)%nat; [reflexivity |].
  destruct (negb (MPRN res =? mprn)%string); [reflexivity |].
  destruct (negb (MeterSerialNumber res =? serial)%string); reflexivity.
Qed.

End IngestFacts.

Lemma validateHeader_ok (rows : list csv.line) :
  validateHeader (csv.NewReader (header :: rows)) = (None, csv.mkReader 5 rows).
Proof. reflexivity. Qed.

(** How [ParseInLocation] resolves the local times of the sample files on
    29 October 2023: 00:00 and 00:30 are in IST, 01:00 and later in GMT. *)
Lemma ParseInLocation_autumn :
  timeparse.ParseInLocation "29-10-2023 00:00" irelandTimezone = Some (at_ 2023 10 29 0 0)
  /\ timeparse.ParseInLocation "29-10-2023 00:30" irelandTimezone = Some (at_ 2023 10 29 0 30)
  /\ timeparse.ParseInLocation "29-10-2023 01:00" irelandTimezone = Some (at_ 2023 10 29 1 0)
  /\ Zone (at_ 2023 10 29 0 0) = ("IST"%string, 3600)
  /\ Zone (at_ 2023 10 29 0 30) = ("IST"%string, 3600)
  /\ Zone (at_ 2023 10 29 1 0) = ("GMT"%string, 0).
Proof. vm_compute. repeat split; reflexivity. Qed.

(** C2 (the code on the claim's file). The repository's test "Leaving
    Daylight Saving time" expects from this file the four instants of the
    claim and no error. On the file with local times 01:00, 00:30, 00:00,
    00:30 of the autumn transition day, ingestion resolves 01:00 to GMT and
    the three other rows to IST; the current pass leaves the three IST
    readings as they are and moves the last reading from 01:00 GMT to one
    hour after the 00:00 IST reading, that is one hour earlier. The series
    handed to the segmenter is 00:30, 00:00, 00:30, 01:00, all four at the
    daylight-saving offset, which are not the expected instants; the two
    00:30 entries are one and the same instant, and [HDF] fails with "data
    is not sorted by time", returning the first reading alone. *)
Theorem HDF_autumnFile (ParseFloat : string -> option float) (v : float) :
  ParseFloat "0.1"%string = Some v ->
  let t0030 := at_ 2023 10 29 0 30 in
  let t0000 := at_ 2023 10 29 0 0 in
  let moved := Add t0000 Hour in
  timeparse.ParseInLocation "29-10-2023 01:00" irelandTimezone = Some (at_ 2023 10 29 1 0)
  /\ Zone (at_ 2023 10 29 1 0) = ("GMT"%string, 0)
  /\ elapsed (at_ 2023 10 29 1 0) moved = Hour
  /\ ingest ParseFloat autumnFile
     = Ret (inr (series [mkRead v t0030; mkRead v t0000; mkRead v t0030; mkRead v moved]))
  /\ map Zone [t0030; t0000; t0030; moved]
     = [("IST"%string, 3600); ("IST"%string, 3600); ("IST"%string, 3600); ("IST"%string, 3600)]
  /\ elapsed t0000 t0030 = - (30 * Minute)
  /\ sameInstants [t0030; t0000; t0030; moved] autumnExpected = false
  /\ elapsed (Date 2023 10 29 0 0 0 (FixedZone "GMT" 0)) t0000 = Hour
  /\ HDF ParseFloat autumnFile
     = Ret ([series [mkRead v t0030]], Some (ErrNotSorted t0030 t0000)).
Proof.
  intros Hv t0030 t0000 moved.
  destruct ParseInLocation_autumn as (P0 & P30 & P100 & _).
  assert (Hin : ingest ParseFloat autumnFile
    = Ret (inr (series [mkRead v t0030; mkRead v t0000; mkRead v t0030; mkRead v moved]))).
  { unfold ingest, autumnFile. rewrite validateHeader_ok.
    cbn [csv.FieldsPerRecord csv.input]. unfold row.
    rewrite (readData_ok ParseFloat _ 1 _ _ _ _ _ v _ Hv P100). cbn [Nat.eqb].
    rewrite (readData_ok ParseFloat _ 2 _ _ _ _ _ v _ Hv P30). cbn [Nat.eqb MPRN MeterSerialNumber].
    rewrite !String.eqb_refl. cbn [negb].
    rewrite (readData_ok ParseFloat _ 3 _ _ _ _ _ v _ Hv P0).
    cbn [Nat.eqb MPRN MeterSerialNumber withReads]. rewrite !String.eqb_refl. cbn [negb].
    rewrite (readData_ok ParseFloat _ 4 _ _ _ _ _ v _ Hv P30).
    cbn [Nat.eqb MPRN MeterSerialNumber withReads]. rewrite !String.eqb_refl. cbn [negb].
    cbn [readData]. unfold_outcome.
    vm_compute. reflexivity. }
  split; [exact P100 |].
  split; [vm_compute; reflexivity |].
  split; [vm_compute; reflexivity |].
  split; [exact Hin |].
  split; [vm_compute; reflexivity |].
  split; [vm_compute; reflexivity |].
  split; [vm_compute; reflexivity |].
  split; [vm_compute; reflexivity |].
  unfold HDF. rewrite Hin. unfold_outcome.
  vm_compute. reflexivity.
Qed.

(** The theorem at the stand-in for [strconv.ParseFloat]. *)
Lemma HDF_autumnFile_witness :
  sampleParseFloat "0.1"%string = Some 0x1.999999999999ap-4%float
  /\ HDF sampleParseFloat autumnFile
     = Ret ([series [mkRead 0x1.999999999999ap-4%float (at_ 2023 10 29 0 30)]],
            Some (ErrNotSorted (at_ 2023 10 29 0 30) (at_ 2023 10 29 0 0))).
Proof.
  split; [reflexivity |].
  exact (proj2 (proj2 (proj2 (proj2 (proj2 (proj2 (proj2 (proj2
           (HDF_autumnFile sampleParseFloat _ eq_refl))))))))).
Defined.

(** [autumnFile] against the instants the test expects: after ingestion
    and disambiguation the second reading is not the expected instant 00:00
    GMT but one hour earlier, the first and the third reading are the same
    instant, the four instants are not the expected ones, and [HDF] returns
    an error. *)
Lemma HDF_autumnFile_not_as_expected :
  exists r1 r2 r3 r4 partial e,
    ingest sampleParseFloat autumnFile = Ret (inr (series [r1; r2; r3; r4]))
    /\ elapsed (Date 2023 10 29 0 0 0 (FixedZone "GMT" 0)) (EndTime r2) = Hour
    /\ Equal (EndTime r1) (EndTime r3) = true
    /\ sameInstants (map EndTime [r1; r2; r3; r4]) autumnExpected = false
    /\ HDF sampleParseFloat autumnFile = Ret (partial, Some e).
Proof.
  do 6 eexists.
  split; [vm_compute; reflexivity |].
  split; [vm_compute; reflexivity |].
  split; [vm_compute; reflexivity |].
  split; vm_compute; reflexivity.
Qed.

(** The earlier revision on the same file: its pass yields exactly the
    expected instants and its validation accepts them. *)
Lemma legacy_HDF_autumnFile :
  exists res,
    Legacy.HDF sampleParseFloat autumnFile = Ret (Some res, None)
    /\ sameInstants (map EndTime (Reads res)) autumnExpected = true.
Proof. eexists. split; [vm_compute; reflexivity |]. vm_compute. reflexivity. Qed.

(** The current revision on the repeated hour as a meter exports it: the
    first 01:00 and 01:30, which [ParseInLocation] resolves to GMT, are
    moved one hour earlier, and the result is one segment of six readings
    half an hour apart. *)
Lemma HDF_autumnRepeatedHour :
  exists res,
    HDF sampleParseFloat autumnRepeatedHour = Ret ([res], None)
    /\ map (fun r => Unix (EndTime r)) (Reads res)
       = map (fun k => Unix (at_ 2023 10 29 0 30) + k * 1800) [0; 1; 2; 3; 4; 5].
Proof. eexists. split; [vm_compute; reflexivity |]. vm_compute. reflexivity. Qed.

(** The spring transition: 00:00 and 00:30 in GMT, 02:00 and 02:30 in
    IST, half an hour apart as instants; nothing is rewritten and the four
    readings form one segment. *)
Lemma HDF_springFile :
  exists res,
    HDF sampleParseFloat springFile = Ret ([res], None)
    /\ map (fun r => Zone (EndTime r)) (Reads res)
       = [("GMT"%string, 0); ("GMT"%string, 0); ("IST"%string, 3600); ("IST"%string, 3600)]
    /\ map (fun r => Unix (EndTime r)) (Reads res)
       = map (fun k => Unix (at_ 2023 3 26 0 0) + k * 1800) [0; 1; 2; 3].
Proof.
  eexists. split; [vm_compute; reflexivity |].
  split; vm_compute; reflexivity.
Qed.

(** ** [isHalfSharp] and [splitTimes] *)

Lemma isHalfSharp_None (ts : Time) : isHalfSharp ts = None <-> aligned ts.
Proof.
  unfold isHalfSharp, aligned.
  destruct (Z.eqb_spec (Second_ ts) 0) as [Hs | Hs];
    destruct (Z.eqb_spec (Nanosecond_ ts) 0) as [Hn | Hn];
    destruct (Z.eqb_spec (Minute_ ts) 0) as [H0 | H0];
    destruct (Z.eqb_spec (Minute_ ts) 30) as [H30 | H30];
    cbn [negb orb andb]; split; intros H; try discriminate; try reflexivity;
    try (repeat split; auto; fail); destruct H as ([? | ?] & ? & ?); congruence.
Qed.

Lemma isHalfSharp_Some (ts : Time) (e : error) :
  isHalfSharp ts = Some e <-> ~ aligned ts /\ e = ErrNotAligned ts.
Proof.
  pose proof (isHalfSharp_None ts) as HN.
  unfold isHalfSharp in *.
  destruct (negb (Second_ ts =? 0) || negb (Nanosecond_ ts =? 0)
            || negb (Minute_ ts =? 0) && negb (Minute_ ts =? 30)); split.
  - intros [= <-]. split; [| reflexivity]. intros Ha. apply HN in Ha. discriminate.
  - intros [_ ->]. reflexivity.
  - discriminate.
  - intros [Ha _]. exfalso. apply Ha, HN. reflexivity.
Qed.

Lemma appendRead_open (res : Result) (done : list (list Read)) (cur : list Read) (r : Read) :
  appendRead (map (withReads res) (done ++ [cur])) (length done) r
  = map (withReads res) (done ++ [cur ++ [r]]).
Proof.
  unfold appendRead. rewrite !map_app. cbn [map].
  replace (length done) with (length (map (withReads res) done) + 0)%nat
    by (rewrite length_map; lia).
  rewrite alter_app_r. reflexivity.
Qed.

Lemma appendRead_new (res : Result) (done : list (list Read)) (cur : list Read) (r : Read) :
  appendRead (map (withReads res) (done ++ [cur]) ++ [shallowCopyResult res])
    (S (length done)) r
  = map (withReads res) ((done ++ [cur]) ++ [[r]]).
Proof.
  change [shallowCopyResult res] with (map (withReads res) [[]]).
  rewrite <- map_app.
  replace (S (length done)) with (length (done ++ [cur]))
    by (rewrite length_app; cbn; lia).
  apply (appendRead_open res (done ++ [cur]) [] r).
Qed.

(** The loop body on a state that holds the closed runs [done] and the
    open run [cur]. *)
Lemma splitStep_runs (res : Result) (done : list (list Read)) (cur : list Read)
    (lastTs : Time) (r : Read) :
  splitStep res (map (withReads res) (done ++ [cur])) (length done) lastTs r
  = match isHalfSharp (EndTime r) with
    | Some e => inl ([], e)
    | None =>
        if IsZero lastTs || (elapsed (EndTime r) lastTs =? 30 * Minute) then
          inr (map (withReads res) (done ++ [cur ++ [r]]), length done, EndTime r)
        else if elapsed (EndTime r) lastTs <=? 0 then
          inl (map (withReads res) (done ++ [cur]), ErrNotSorted lastTs (EndTime r))
        else
          inr (map (withReads res) ((done ++ [cur]) ++ [[r]]),
               length (done ++ [cur]), EndTime r)
    end.
Proof.
  unfold splitStep. destruct (isHalfSharp (EndTime r)); [reflexivity |].
  rewrite Minutes_eq_30, Minutes_le_0, Sub_eq_30min, Sub_le_0.
  destruct (IsZero lastTs); cbn [negb orb].
  - now rewrite appendRead_open.
  - destruct (elapsed (EndTime r) lastTs =? 30 * Minute).
    + now rewrite appendRead_open.
    + destruct (elapsed (EndTime r) lastTs <=? 0); [reflexivity |].
      rewrite appendRead_new, length_app. cbn [length].
      replace (length done + 1)%nat with (S (length done)) by lia. reflexivity.
Qed.

Lemma splitLoop_splitRun (res : Result) (reads : list Read) :
  forall rr idx lastTs,
    splitLoop res reads rr idx lastTs
    = match splitRun res reads rr idx lastTs with
      | inl (out, e) => (out, Some e)
      | inr (rr', _, _) => (rr', None)
      end.
Proof.
  induction reads as [| r reads IH]; intros rr idx lastTs; [reflexivity |].
  cbn [splitLoop splitRun].
  destruct (splitStep res rr idx lastTs r) as [[out e] | [[rr' idx'] lastTs']];
    [reflexivity | apply IH].
Qed.

Lemma splitRun_app (res : Result) (l1 l2 : list Read) :
  forall rr idx lastTs,
    splitRun res (l1 ++ l2) rr idx lastTs
    = match splitRun res l1 rr idx lastTs with
      | inl stop => inl stop
      | inr (rr', idx', lastTs') => splitRun res l2 rr' idx' lastTs'
      end.
Proof.
  induction l1 as [| r l1 IH]; intros rr idx lastTs; [reflexivity |].
  cbn [app splitRun].
  destruct (splitStep res rr idx lastTs r) as [stop | [[rr' idx'] lastTs']];
    [reflexivity | apply IH].
Qed.

(** A run of the loop that does not stop keeps every reading, in order, in
    the runs it builds, and has checked each of them. *)
Lemma splitRun_inr (res : Result) (reads : list Read) :
  forall done cur lastTs rr' idx' lastTs',
    splitRun res reads (map (withReads res) (done ++ [cur])) (length done) lastTs
    = inr (rr', idx', lastTs') ->
    exists done' cur',
      rr' = map (withReads res) (done' ++ [cur'])
      /\ idx' = length done'
      /\ concat (done' ++ [cur']) = concat (done ++ [cur]) ++ reads
      /\ Forall (fun r => aligned (EndTime r)) reads.
Proof.
  induction reads as [| r reads IH]; intros done cur lastTs rr' idx' lastTs' H.
  - cbn in H. injection H as <- <- <-. exists done, cur.
    rewrite app_nil_r. repeat split. constructor.
  - cbn [splitRun] in H. rewrite splitStep_runs in H.
    destruct (isHalfSharp (EndTime r)) eqn:Hh; [discriminate |].
    apply isHalfSharp_None in Hh.
    destruct (IsZero lastTs || (elapsed (EndTime r) lastTs =? 30 * Minute)).
    + apply IH in H as (done' & cur' & -> & -> & Hc & Ha).
      exists done', cur'. repeat split; [| now constructor].
      rewrite Hc, !concat_app. cbn [concat]. rewrite !app_nil_r, <- !app_assoc. reflexivity.
    + destruct (elapsed (EndTime r) lastTs <=? 0); [discriminate |].
      apply IH in H as (done' & cur' & -> & -> & Hc & Ha).
      exists done', cur'. repeat split; [| now constructor].
      rewrite Hc, !concat_app. cbn [concat]. rewrite !app_nil_r, <- !app_assoc. reflexivity.
Qed.

Lemma map_Reads_withReads (res : Result) (l : list (list Read)) :
  map Reads (map (withReads res) l) = l.
Proof.
  induction l as [| x l IH]; [reflexivity |]. cbn [map]. now rewrite IH.
Qed.

Lemma splitRun_withReads (res : Result) (l reads : list Read) :
  forall rr idx lastTs,
    splitRun (withReads res l) reads rr idx lastTs = splitRun res reads rr idx lastTs.
Proof.
  induction reads as [| r reads IH]; intros rr idx lastTs; [reflexivity |].
  cbn [splitRun].
  change (splitStep (withReads res l) rr idx lastTs r) with (splitStep res rr idx lastTs r).
  destruct (splitStep res rr idx lastTs r) as [stop | [[rr' idx'] lastTs']];
    [reflexivity | apply IH].
Qed.

(** [splitTimes] succeeds on [res] exactly when its loop runs through all
    the readings. *)
Lemma splitTimes_None (res : Result) :
  snd (splitTimes res) = None
  <-> exists st, splitRun res (Reads res) [shallowCopyResult res] 0 zeroTime = inr st.
Proof.
  unfold splitTimes. rewrite splitLoop_splitRun.
  destruct (splitRun res (Reads res) [shallowCopyResult res] 0 zeroTime)
    as [[out e] | [[rr' idx'] lastTs']]; cbn [snd]; split.
  - discriminate.
  - intros [st [=]].
  - intros _. eexists. reflexivity.
  - reflexivity.
Qed.

Lemma splitRun_not_aligned (res : Result) (reads : list Read) (ts : Time) :
  forall rr idx lastTs out,
    splitRun res reads rr idx lastTs = inl (out, ErrNotAligned ts) ->
    out = []
    /\ exists pre r post,
         reads = pre ++ r :: post /\ EndTime r = ts /\ ~ aligned ts
         /\ exists st, splitRun res pre rr idx lastTs = inr st.
Proof.
  induction reads as [| r reads IH]; intros rr idx lastTs out H; [discriminate |].
  cbn [splitRun] in H.
  destruct (splitStep res rr idx lastTs r) as [stop | [[rr' idx'] lastTs']] eqn:Hs.
  - unfold splitStep in Hs.
    destruct (isHalfSharp (EndTime r)) as [e |] eqn:Hh.
    + apply isHalfSharp_Some in Hh as [Hna ->].
      injection Hs as <-. injection H as <- <-.
      split; [reflexivity |].
      exists [], r, reads. repeat split; [exact Hna |].
      eexists. reflexivity.
    + destruct (negb (IsZero lastTs)); [| discriminate].
      destruct (Qeq_bool _ 30); [discriminate |].
      destruct (Qle_bool _ 0); [| discriminate].
      injection Hs as <-. discriminate.
  - apply IH in H as (-> & pre & r' & post & -> & Ht & Hna & st & Hst).
    split; [reflexivity |].
    exists (r :: pre), r', post. repeat split; try assumption.
    exists st. cbn [splitRun]. rewrite Hs. exact Hst.
Qed.

(** C8. [isHalfSharp] accepts a timestamp exactly when its clock minute is
    0 or 30 and its seconds and nanoseconds are zero, and otherwise returns
    the alignment error for that timestamp. [splitTimes] returns that error
    (and no segment) for [ts] exactly when [ts] is the first misaligned
    reading and the readings before it raised no error; a series with any
    misaligned reading is refused; and a series that is accepted had every
    reading aligned and comes back with the same readings in the same
    order. *)
Theorem splitTimes_alignment (res : Result) (ts : Time) :
  (isHalfSharp ts = None <-> aligned ts)
  /\ (isHalfSharp ts = Some (ErrNotAligned ts) <-> ~ aligned ts)
  /\ (splitTimes res = ([], Some (ErrNotAligned ts))
      <-> exists pre r post,
            Reads res = pre ++ r :: post /\ EndTime r = ts /\ ~ aligned ts
            /\ snd (splitTimes (withReads res pre)) = None)
  /\ (Exists (fun r => ~ aligned (EndTime r)) (Reads res) ->
      exists e, snd (splitTimes res) = Some e)
  /\ (snd (splitTimes res) = None ->
      Forall (fun r => aligned (EndTime r)) (Reads res)
      /\ concat (map Reads (fst (splitTimes res))) = Reads res).
Proof.
  assert (Hok : snd (splitTimes res) = None ->
      Forall (fun r => aligned (EndTime r)) (Reads res)
      /\ concat (map Reads (fst (splitTimes res))) = Reads res).
  { intros Hn. unfold splitTimes in *. rewrite splitLoop_splitRun in *.
    destruct (splitRun res (Reads res) [shallowCopyResult res] 0 zeroTime)
      as [[out e] | [[rr' idx'] lastTs']] eqn:Hr; [discriminate |].
    apply (splitRun_inr res (Reads res) [] []) in Hr as (done' & cur' & -> & _ & Hc & Ha).
    cbn [fst]. rewrite map_Reads_withReads. split; [exact Ha | exact Hc]. }
  split; [apply isHalfSharp_None |].
  split.
  { rewrite isHalfSharp_Some. split; [now intros [? _] | now intros ?]. }
  split; [| split; [| exact Hok]].
  - split.
    + intros H. unfold splitTimes in H. rewrite splitLoop_splitRun in H.
      destruct (splitRun res (Reads res) [shallowCopyResult res] 0 zeroTime)
        as [[out e] | [[rr' idx'] lastTs']] eqn:Hr; [| discriminate].
      injection H as -> ->.
      apply splitRun_not_aligned in Hr as (_ & pre & r & post & Hreads & Ht & Hna & st & Hst).
      exists pre, r, post. repeat split; try assumption.
      apply splitTimes_None. exists st. cbn [Reads withReads].
      rewrite splitRun_withReads. exact Hst.
    + intros (pre & r & post & Hreads & Ht & Hna & Hpre).
      apply splitTimes_None in Hpre as [[[rr' idx'] lastTs'] Hst].
      cbn [Reads withReads] in Hst. rewrite splitRun_withReads in Hst.
      change (shallowCopyResult (withReads res pre)) with (shallowCopyResult res) in Hst.
      unfold splitTimes. rewrite splitLoop_splitRun, Hreads, splitRun_app, Hst.
      cbn [splitRun]. unfold splitStep.
      assert (Hh : isHalfSharp (EndTime r) = Some (ErrNotAligned ts)).
      { apply isHalfSharp_Some. subst ts. split; [exact Hna | reflexivity]. }
      rewrite Hh. reflexivity.
  - intros Hex. destruct (snd (splitTimes res)) as [e |] eqn:Hs; [now exists e |].
    exfalso. destruct (Hok eq_refl) as [Hall _].
    apply Exists_exists in Hex as (r & Hin & Hna).
    rewrite Forall_forall in Hall. apply Hna, Hall, Hin.
Qed.

(** ** The runs of a series *)

Lemma chained_snoc (cur : list Read) (prev r : Read) :
  chained cur -> last cur = Some prev ->
  elapsed (EndTime r) (EndTime prev) = 30 * Minute ->
  chained (cur ++ [r]).
Proof.
  destruct cur as [| c0 l]; [discriminate |].
  cbn [chained app]. revert c0.
  induction l as [| c1 l IH]; intros c0 Hc Hl He.
  - cbn in Hl. injection Hl as ->. cbn. split; [exact He | exact I].
  - cbn [chainedAfter app] in *. destruct Hc as [H01 Hc].
    split; [exact H01 |]. apply IH; [exact Hc | | exact He].
    rewrite last_cons_cons in Hl. exact Hl.
Qed.

Lemma gaps_snoc (l : list (list Read)) (s : list Read) :
  gaps (l ++ [s]) <-> gaps l /\ (forall s0, last l = Some s0 -> gap s0 s).
Proof.
  unfold gaps. split.
  - intros H. split.
    + intros k s1 s2 H1 H2. apply (H k).
      * apply lookup_app_l_Some. exact H1.
      * apply lookup_app_l_Some. exact H2.
    + intros s0 Hl. rewrite last_lookup in Hl.
      destruct l as [| x l']; [discriminate |].
      apply (H (length l')).
      * apply lookup_app_l_Some. exact Hl.
      * change (S (length l')) with (length (x :: l')).
        rewrite lookup_app_r by lia. rewrite Nat.sub_diag. reflexivity.
  - intros [Hg Hl] k s1 s2 H1 H2.
    destruct (decide (S k < length l)%nat) as [Hk | Hk].
    + rewrite lookup_app_l in H1 by lia. rewrite lookup_app_l in H2 by lia.
      apply (Hg k); assumption.
    + assert (Hk' : S k = length l).
      { apply lookup_lt_Some in H2. rewrite length_app in H2. cbn in H2. lia. }
      rewrite lookup_app_l in H1 by lia.
      rewrite lookup_app_r in H2 by lia. rewrite Hk', Nat.sub_diag in H2.
      injection H2 as <-. apply Hl. rewrite last_lookup.
      rewrite <- Hk'. exact H1.
Qed.

Lemma gap_extend (s0 cur : list Read) (prev r : Read) :
  last cur = Some prev -> gap s0 cur -> gap s0 (cur ++ [r]).
Proof.
  intros Hl (a & b & Ha & Hb & Hpos & Hne).
  exists a, b. repeat split; try assumption.
  destruct cur; [discriminate | exact Hb].
Qed.

(** The runs keep every reading in order, each run is a chain of
    30-minute steps, and consecutive runs are separated by a gap. *)
Lemma runsFrom_spec (reads : list Read) :
  forall prev done cur,
    last cur = Some prev ->
    concat (runsFrom prev done cur reads) = concat done ++ cur ++ reads
    /\ (Forall chained done -> chained cur ->
        Forall chained (runsFrom prev done cur reads))
    /\ (gaps (done ++ [cur]) -> ascendingFrom prev reads ->
        gaps (runsFrom prev done cur reads)).
Proof.
  induction reads as [| r reads IH]; intros prev done cur Hl.
  - cbn [runsFrom]. split; [| split].
    + rewrite concat_app. cbn. now rewrite !app_nil_r.
    + intros Hd Hc. apply Forall_app. split; [exact Hd | now constructor].
    + intros Hg _. exact Hg.
  - cbn [runsFrom ascendingFrom].
    destruct (Z.eqb_spec (elapsed (EndTime r) (EndTime prev)) (30 * Minute)) as [He | He].
    + destruct (IH r done (cur ++ [r]) (last_snoc _ _)) as (Hc & Hch & Hg).
      split; [| split].
      * rewrite Hc, <- !app_assoc. reflexivity.
      * intros Hd Hcur. apply Hch; [exact Hd |]. now apply (chained_snoc cur prev r).
      * intros Hgs [_ Hasc]. apply Hg; [| exact Hasc].
        apply gaps_snoc in Hgs as [Hgd Hlast]. apply gaps_snoc. split; [exact Hgd |].
        intros s0 Hs0. apply (gap_extend s0 cur prev r Hl). now apply Hlast.
    + destruct (IH r (done ++ [cur]) [r] eq_refl) as (Hc & Hch & Hg).
      split; [| split].
      * rewrite Hc, concat_app. cbn [concat]. rewrite app_nil_r, <- !app_assoc. reflexivity.
      * intros Hd Hcur. apply Hch; [| exact I].
        apply Forall_app. split; [exact Hd | now constructor].
      * intros Hgs [Hpos Hasc]. apply Hg; [| exact Hasc].
        apply gaps_snoc. split; [exact Hgs |].
        intros s0 Hs0. rewrite last_snoc in Hs0. injection Hs0 as <-.
        exists prev, r. repeat split; assumption.
Qed.

Lemma runs_spec (reads : list Read) :
  concat (runs reads) = reads
  /\ Forall chained (runs reads)
  /\ (ascending reads -> gaps (runs reads))
  /\ (forall r rest, reads = r :: rest ->
      exists s segs, runs reads = (r :: s) :: segs).
Proof.
  destruct reads as [| r rest].
  - cbn. repeat split.
    + repeat constructor.
    + intros _ k s1 s2 H1 H2. destruct k; discriminate.
    + intros r rest [=].
  - cbn [runs ascending].
    destruct (runsFrom_spec rest r [] [r] eq_refl) as (Hc & Hch & Hg).
    split; [exact Hc |]. split; [apply Hch; [constructor | exact I] |].
    split.
    + intros Hasc. apply Hg; [| exact Hasc].
      intros k s1 s2 H1 H2. destruct k; discriminate.
    + intros r' rest' [= <- <-].
      assert (Hhd : forall reads prev done cur d0,
                 head (done ++ [cur]) = Some d0 -> exists s,
                 head (runsFrom prev done cur reads) = Some (d0 ++ s)
                 \/ (done = [] /\ head (runsFrom prev done cur reads) = Some (cur ++ s))).
      { induction reads as [| x reads IH]; intros prev done cur d0 Hd.
        - exists []. left. cbn [runsFrom]. now rewrite app_nil_r.
        - cbn [runsFrom]. destruct (elapsed (EndTime x) (EndTime prev) =? 30 * Minute).
          + destruct done as [| d done'].
            * destruct (IH x [] (cur ++ [x]) (cur ++ [x]) eq_refl) as [s [Hs | [_ Hs]]];
                exists ([x] ++ s); right; (split; [reflexivity |]);
                rewrite Hs, <- app_assoc; reflexivity.
            * cbn in Hd. injection Hd as <-.
              destruct (IH x (d :: done') (cur ++ [x]) d eq_refl) as [s [Hs | [[=] _]]].
              exists s. left. exact Hs.
          + destruct done as [| d done'].
            * cbn in Hd. injection Hd as <-.
              destruct (IH x [cur] [x] cur eq_refl) as [s [Hs | [[=] _]]].
              exists s. left. exact Hs.
            * cbn in Hd. injection Hd as <-.
              destruct (IH x ((d :: done') ++ [cur]) [x] d eq_refl) as [s [Hs | [[=] _]]].
              exists s. left. exact Hs. }
      destruct (Hhd rest r [] [r] [r] eq_refl) as [s Hs].
      assert (Hs' : head (runsFrom r [] [r] rest) = Some ([r] ++ s))
        by (destruct Hs as [Hs | [_ Hs]]; exact Hs).
      destruct (runsFrom r [] [r] rest) as [| s0 segs]; [discriminate |].
      cbn in Hs'. injection Hs' as ->. exists s, segs. reflexivity.
Qed.

(** The loop of [splitTimes] on aligned, ascending readings, none of them
    the zero time, builds the runs of the specification. *)
Lemma splitRun_runs (res : Result) (reads : list Read) :
  forall prev done cur,
    Forall (fun r => aligned (EndTime r)) reads ->
    noZero (prev :: reads) ->
    ascendingFrom prev reads ->
    exists done' cur' prev',
      runsFrom prev done cur reads = done' ++ [cur']
      /\ last (prev :: reads) = Some prev'
      /\ splitRun res reads (map (withReads res) (done ++ [cur])) (length done) (EndTime prev)
         = inr (map (withReads res) (done' ++ [cur']), length done', EndTime prev').
Proof.
  induction reads as [| r reads IH]; intros prev done cur Hal Hnz Hasc.
  - exists done, cur, prev. repeat split.
  - apply Forall_cons in Hal as [Har Hal].
    apply Forall_cons in Hnz as [Hzp Hnz].
    destruct Hasc as [Hpos Hasc].
    cbn [splitRun runsFrom]. rewrite splitStep_runs.
    apply isHalfSharp_None in Har. rewrite Har, Hzp. cbn [orb].
    rewrite last_cons_cons.
    destruct (elapsed (EndTime r) (EndTime prev) =? 30 * Minute).
    + apply (IH r done (cur ++ [r])); assumption.
    + assert (Hle : (elapsed (EndTime r) (EndTime prev) <=? 0) = false)
        by (apply Z.leb_gt; exact Hpos).
      rewrite Hle. apply (IH r (done ++ [cur]) [r]); assumption.
Qed.

(** The whole loop from its initial state, on a series that is not
    empty. *)
Lemma splitRun_initial (res : Result) (first : Read) (rest : list Read) :
  Forall (fun r => aligned (EndTime r)) (first :: rest) ->
  noZero (first :: rest) ->
  ascendingFrom first rest ->
  exists done' cur' prev',
    runs (first :: rest) = done' ++ [cur']
    /\ last (first :: rest) = Some prev'
    /\ splitRun res (first :: rest) [shallowCopyResult res] 0 zeroTime
       = inr (map (withReads res) (done' ++ [cur']), length done', EndTime prev').
Proof.
  intros Hal Hnz Hasc.
  pose proof Hal as Hal'. apply Forall_cons in Hal' as [Haf Hal'].
  cbn [splitRun runs].
  change [shallowCopyResult res] with (map (withReads res) ([] ++ [[]])).
  change 0%nat with (length (@nil (list Read))).
  rewrite splitStep_runs. apply isHalfSharp_None in Haf. rewrite Haf.
  change (IsZero zeroTime) with true. cbn [orb app].
  apply (splitRun_runs res rest first [] [first]); assumption.
Qed.

Lemma noZero_app (l1 l2 : list Read) : noZero (l1 ++ l2) -> noZero l1 /\ noZero l2.
Proof. unfold noZero. apply Forall_app. Qed.

(** On aligned, ascending readings [splitTimes] returns the runs. *)
Lemma splitTimes_ascending (res : Result) :
  noZero (Reads res) ->
  Forall (fun r => aligned (EndTime r)) (Reads res) ->
  ascending (Reads res) ->
  splitTimes res = (map (withReads res) (runs (Reads res)), None).
Proof.
  intros Hnz Hal Hasc.
  unfold splitTimes. rewrite splitLoop_splitRun.
  destruct (Reads res) as [| first rest] eqn:Hreads; [reflexivity |].
  destruct (splitRun_initial res first rest Hal Hnz Hasc)
    as (done' & cur' & prev' & Hruns & _ & Hrun).
  rewrite Hrun, Hruns. reflexivity.
Qed.

(** The first reading that is not later than the one before it stops
    [splitTimes], which returns the runs built so far and the error. *)
Lemma splitTimes_not_sorted (res : Result) (pre : list Read) (a b : Read)
    (post : list Read) :
  noZero (Reads res) ->
  Forall (fun r => aligned (EndTime r)) (Reads res) ->
  Reads res = pre ++ a :: b :: post ->
  ascending (pre ++ [a]) ->
  elapsed (EndTime b) (EndTime a) <= 0 ->
  splitTimes res
  = (map (withReads res) (runs (pre ++ [a])),
     Some (ErrNotSorted (EndTime a) (EndTime b))).
Proof.
  intros Hnz Hal Hreads Hasc Hle.
  rewrite Hreads in Hnz, Hal.
  replace (pre ++ a :: b :: post) with ((pre ++ [a]) ++ b :: post) in *
    by (rewrite <- app_assoc; reflexivity).
  apply noZero_app in Hnz as [Hnz _].
  apply Forall_app in Hal as [Hal Halb]. apply Forall_cons in Halb as [Hab _].
  unfold splitTimes. rewrite splitLoop_splitRun, Hreads, splitRun_app.
  destruct (pre ++ [a]) as [| first rest] eqn:Hpa; [now destruct pre |].
  destruct (splitRun_initial res first rest Hal Hnz Hasc)
    as (done' & cur' & prev' & Hruns & Hlast & Hrun).
  assert (Hprev : prev' = a).
  { rewrite <- Hpa, last_snoc in Hlast. now injection Hlast. }
  subst prev'. rewrite Hrun, Hruns.
  cbn [splitRun]. rewrite splitStep_runs.
  apply isHalfSharp_None in Hab. rewrite Hab.
  assert (Hza : IsZero (EndTime a) = false).
  { unfold noZero in Hnz. rewrite Forall_forall in Hnz. apply Hnz.
    rewrite <- Hpa. apply elem_of_app. right. now left. }
  rewrite Hza. cbn [orb].
  assert (H30 : (elapsed (EndTime b) (EndTime a) =? 30 * Minute) = false).
  { apply Z.eqb_neq. rewrite Minute_value. lia. }
  assert (Hle' : (elapsed (EndTime b) (EndTime a) <=? 0) = true) by (apply Z.leb_le; exact Hle).
  rewrite H30, Hle'. reflexivity.
Qed.

(** C5. On a disambiguated series whose readings are aligned (none of
    them the zero time): if the series is ascending, [splitTimes] returns
    the runs of the series, in order, each carrying the identifiers of the
    series: the first reading opens the first run, a reading exactly 30
    minutes after the previous one stays in the current run, any other
    later reading closes it and opens a new run with itself; so the runs
    put end to end are the series, each run is a chain of 30-minute steps,
    and consecutive runs are separated by a positive gap other than 30
    minutes. And the first reading that is not later than the one before
    it stops [splitTimes] with the "data is not sorted" error for these
    two timestamps. *)
Theorem splitTimes_runs (res : Result) :
  noZero (Reads res) ->
  Forall (fun r => aligned (EndTime r)) (Reads res) ->
  (ascending (Reads res) ->
   splitTimes res = (map (withReads res) (runs (Reads res)), None)
   /\ concat (runs (Reads res)) = Reads res
   /\ Forall chained (runs (Reads res))
   /\ gaps (runs (Reads res))
   /\ (forall r rest, Reads res = r :: rest ->
       exists s segs, runs (Reads res) = (r :: s) :: segs))
  /\ (forall pre a b post,
        Reads res = pre ++ a :: b :: post ->
        ascending (pre ++ [a]) ->
        elapsed (EndTime b) (EndTime a) <= 0 ->
        splitTimes res
        = (map (withReads res) (runs (pre ++ [a])),
           Some (ErrNotSorted (EndTime a) (EndTime b)))).
Proof.
  intros Hnz Hal. split.
  - intros Hasc.
    destruct (runs_spec (Reads res)) as (Hc & Hch & Hg & Hfirst).
    split; [now apply splitTimes_ascending |].
    repeat split; auto.
  - intros pre a b post. now apply splitTimes_not_sorted.
Qed.

(** The theorem on [holed]: two segments, before and after the hole. *)
Lemma splitTimes_runs_witness :
  splitTimes (series holed)
  = ([ series [ mkRead 0.5 (at_ 2023 1 15 22 30); mkRead 0.25 (at_ 2023 1 15 23 0);
                mkRead 0.75 (at_ 2023 1 15 23 30) ];
       series [ mkRead 1 (at_ 2023 1 16 2 30); mkRead 2 (at_ 2023 1 16 3 0) ] ],
     None).
Proof.
  assert (Hnz : noZero (Reads (series holed))) by (repeat constructor).
  assert (Hal : Forall (fun r => aligned (EndTime r)) (Reads (series holed))).
  { repeat constructor; vm_compute; repeat split; left; reflexivity || (right; reflexivity). }
  assert (Hasc : ascending (Reads (series holed))) by (vm_compute; repeat split).
  destruct (splitTimes_runs (series holed) Hnz Hal) as [Hruns _].
  destruct (Hruns Hasc) as [Heq _].
  rewrite Heq. vm_compute. reflexivity.
Defined.

(** ** No ingested timestamp is the zero time *)

Lemma dublinInstant_not_zero (t : Time) : dublinInstant t -> IsZero t = false.
Proof.
  intros [_ H]. unfold IsZero. apply Z.eqb_neq. intros E. rewrite E in H.
  vm_compute in H. destruct H as [H | H]; [discriminate | now apply H].
Qed.

Lemma dublin_offsets (sec : Z) :
  zoffset (dublin sec) = - 1521
  \/ (dublinDMTEnd <= sec /\ (zoffset (dublin sec) = 0 \/ zoffset (dublin sec) = 3600)).
Proof.
  unfold dublin.
  destruct (Z.ltb_spec sec dublinLMTEnd); [now left |].
  destruct (Z.ltb_spec sec dublinDMTEnd); [now left |].
  right. split; [assumption |].
  repeat case_match; cbn [zoffset]; auto.
Qed.

Lemma dublin_GMT (sec : Z) : zname (dublin sec) = "GMT"%string -> dublinDMTEnd <= sec.
Proof.
  unfold dublin.
  destruct (Z.ltb_spec sec dublinLMTEnd); [discriminate |].
  destruct (Z.ltb_spec sec dublinDMTEnd); [discriminate |].
  intros _. assumption.
Qed.

Lemma Date_dublinInstant (y m d hh mm : Z) :
  dublinInstant (Date y m d hh mm 0 EuropeDublin).
Proof.
  unfold dublinInstant, Date. cbn [loc unixNano lookup]. split; [reflexivity |].
  set (U := daysFromCivil y m d * 86400 + hh * 3600 + mm * 60 + 0).
  assert (HU : exists k, U = 60 * k).
  { exists (daysFromCivil y m d * 1440 + hh * 60 + mm). unfold U. lia. }
  destruct HU as [k HU].
  assert (HD : dublinDMTEnd = -1691962479) by reflexivity.
  assert (HS : Second = 1000000000) by reflexivity.
  pose proof (dublin_offsets U) as HoU.
  pose proof (dublin_offsets (U - zoffset (dublin U))) as Ho'.
  rewrite HD in *. rewrite HS.
  assert (Hmod : forall u, u = 60 * k + 1521 ->
            (u * 1000000000) `mod` (60 * 1000000000) = 21 * 1000000000).
  { intros u ->.
    replace ((60 * k + 1521) * 1000000000)
      with (21 * 1000000000 + (k + 25) * (60 * 1000000000)) by lia.
    rewrite Z.mod_add by lia. reflexivity. }
  destruct (Z.eqb_spec (zoffset (dublin U)) 0) as [H0 | H0].
  - right. destruct HoU as [HoU | [HU' _]]; lia.
  - destruct ((U - zoffset (dublin U) <? zstart (dublin U))
              || (zend (dublin U) <=? U - zoffset (dublin U))).
    + destruct Ho' as [Ho' | [Hge [Ho' | Ho']]]; rewrite Ho'.
      * left. apply Hmod. lia.
      * right. destruct HoU as [HoU | [HU' [HoU | HoU]]]; lia.
      * right. destruct HoU as [HoU | [HU' [HoU | HoU]]]; lia.
    + destruct HoU as [HoU | [HU' [HoU | HoU]]]; rewrite HoU.
      * left. apply Hmod. lia.
      * congruence.
      * right. lia.
Qed.

Lemma ParseInLocation_dublinInstant (value : string) (t : Time) :
  timeparse.ParseInLocation value irelandTimezone = Some t -> dublinInstant t.
Proof.
  unfold timeparse.ParseInLocation, irelandTimezone. intros H.
  repeat (simplify_option_eq; try case_match); try discriminate.
  all: apply Date_dublinInstant.
Qed.

Lemma fixTimezoneStep_dublinInstant max st i :
  Forall (fun r => dublinInstant (EndTime r)) (fst st) ->
  Forall (fun r => dublinInstant (EndTime r)) (fst (fixTimezoneStep max st i)).
Proof.
  destruct st as [reads logs]. cbn [fst]. intros Hall.
  assert (HD : dublinDMTEnd = -1691962479) by reflexivity.
  assert (HS : Second = 1000000000) by reflexivity.
  assert (HH : Hour = 3600000000000) by reflexivity.
  unfold fixTimezoneStep.
  destruct (reads !! i) as [r |] eqn:Hr; [| exact Hall].
  destruct (String.eqb_spec (fst (Zone (EndTime r))) "GMT") as [Hz | Hz];
    cbn [negb]; [| exact Hall].
  pose proof (Forall_lookup_1 _ _ _ _ Hall Hr) as [Hloc Hr'].
  destruct (i + 2 <? max)%nat.
  - destruct (reads !! (i + 2)%nat) as [r2 |]; [| exact Hall].
    destruct (Equal (EndTime r2) (EndTime r)); [| exact Hall].
    cbn [fst]. apply Forall_insert; [exact Hall |].
    unfold dublinInstant, withEndTime, Add. cbn [EndTime loc unixNano].
    split; [exact Hloc |]. right.
    unfold Zone in Hz. rewrite Hloc in Hz. cbn [lookup fst] in Hz.
    apply dublin_GMT in Hz. unfold Unix in Hz. rewrite HD, HS in *. rewrite HH.
    pose proof (Z.mul_div_le (unixNano (EndTime r)) 1000000000 ltac:(lia)). lia.
  - destruct (2 <=? i)%nat.
    + destruct (reads !! (i - 2)%nat) as [r0 |] eqn:Hr0; [| exact Hall].
      destruct (negb _); [| exact Hall].
      cbn [fst]. apply Forall_insert; [exact Hall |].
      pose proof (Forall_lookup_1 _ _ _ _ Hall Hr0) as [Hloc0 Hr0'].
      unfold dublinInstant, withEndTime, Add. cbn [EndTime loc unixNano].
      split; [exact Hloc0 |]. rewrite HD, HS in *. rewrite HH.
      destruct Hr0' as [Hm | Hge]; [left | right; lia].
      replace (unixNano (EndTime r0) + 3600000000000)
        with (unixNano (EndTime r0) + 60 * (60 * 1000000000)) by lia.
      rewrite Z.mod_add by lia. exact Hm.
    + exact Hall.
Qed.

Section NoZero.

Variable ParseFloat : string -> option float.

Lemma parseLine_dublinInstant (i : nat) (record : list string) (ln : line) :
  parseLine ParseFloat i record = Ret (inr ln) -> dublinInstant (line_EndTime ln).
Proof.
  unfold parseLine, index, mbind, outcome_bind, obind. intros H.
  repeat case_match; try discriminate.
  injection H as <-. cbn [line_EndTime].
  eapply ParseInLocation_dublinInstant. eassumption.
Qed.

Lemma readData_dublinInstant (rows : list csv.line) :
  forall n i res res',
    Forall (fun r => dublinInstant (EndTime r)) (Reads res) ->
    readData ParseFloat n rows i res = Ret (inr res') ->
    Forall (fun r => dublinInstant (EndTime r)) (Reads res').
Proof.
  induction rows as [| l rows IH]; intros n i res res' Hall H.
  - cbn in H. now injection H as <-.
  - cbn [readData] in H.
    destruct (csv.readRecord n l) as [[err | record] n']; [discriminate |].
    destruct (parseLine ParseFloat i record) as [[e | ln] | msg] eqn:Hp;
      unfold mbind, outcome_bind, obind in H; try discriminate.
    apply parseLine_dublinInstant in Hp.
    assert (Hall' : Forall (fun r => dublinInstant (EndTime r))
                      (Reads res ++ [mkRead (line_Value ln) (line_EndTime ln)])).
    { apply Forall_app. split; [exact Hall |]. constructor; [exact Hp | constructor]. }
    destruct (i =? 1)%nat.
    { eapply IH; [| exact H]. exact Hall'. }
    destruct (negb (MPRN res =? line_MPRN ln)%string); [discriminate |].
    destruct (negb (MeterSerialNumber res =? line_SerialNumber ln)%string); [discriminate |].
    eapply IH; [| exact H]. exact Hall'.
Qed.

(** Every series that comes out of ingestion and disambiguation is free
    of the zero time. *)
Lemma ingest_noZero (hdf : list csv.line) (res : Result) :
  ingest ParseFloat hdf = Ret (inr res) -> noZero (Reads res).
Proof.
  unfold ingest.
  destruct (validateHeader (csv.NewReader hdf)) as [[err |] r]; [discriminate |].
  destruct (readData ParseFloat (csv.FieldsPerRecord r) (csv.input r) 1 emptyResult)
    as [[e | res0] | msg] eqn:Hrd; unfold_outcome; try discriminate.
  intros [= <-].
  apply readData_dublinInstant in Hrd; [| constructor].
  rewrite fixTimezone_Reads. cbn [Reads withReads]. unfold fixTimezoneLoop.
  assert (Hrev : Forall (fun r => dublinInstant (EndTime r)) (rev (Reads res0))).
  { apply Forall_forall. intros x Hx. rewrite Forall_forall in Hrd.
    apply Hrd. apply list_elem_of_In. apply in_rev. apply list_elem_of_In. exact Hx. }
  assert (Hfold : forall l st,
            Forall (fun r => dublinInstant (EndTime r)) (fst st) ->
            Forall (fun r => dublinInstant (EndTime r))
              (fst (foldl (fixTimezoneStep (length (rev (Reads res0)))) st l))).
  { induction l as [| i l IH]; intros st Hst; [exact Hst |].
    cbn [foldl]. apply IH. now apply fixTimezoneStep_dublinInstant. }
  unfold noZero. eapply Forall_impl; [apply Hfold; exact Hrev |].
  intros x Hx. now apply dublinInstant_not_zero.
Qed.

(** The segments of a file: when the ingested series is aligned and
    ascending, [HDF] returns its runs. *)
Lemma HDF_segments (hdf : list csv.line) (res : Result) :
  ingest ParseFloat hdf = Ret (inr res) ->
  Forall (fun r => aligned (EndTime r)) (Reads res) ->
  ascending (Reads res) ->
  HDF ParseFloat hdf = Ret (map (withReads res) (runs (Reads res)), None).
Proof.
  intros Hin Hal Hasc. unfold HDF. rewrite Hin. unfold_outcome.
  rewrite splitTimes_ascending; [reflexivity | | exact Hal | exact Hasc].
  now apply (ingest_noZero hdf res).
Qed.

End NoZero.

(** ** The meter identity through ingestion *)

Section IdentityFacts.

Variable ParseFloat : string -> option float.

Lemma readRecord_5 (l : csv.line) (record : list string) (n : nat) :
  csv.readRecord 5 l = (inr record, n) ->
  n = 5%nat /\ l = csv.Fields record
  /\ exists f0 f1 f2 f3 f4, record = [f0; f1; f2; f3; f4].
Proof.
  unfold csv.readRecord. destruct l as [rec |]; [| discriminate].
  change (0 <? 5)%nat with true. cbv iota.
  destruct (length rec =? 5)%nat eqn:Hlen; cbn [negb]; [| discriminate].
  intros [= <- <-]. apply Nat.eqb_eq in Hlen.
  repeat split.
  destruct rec as [| f0 [| f1 [| f2 [| f3 [| f4 [| f5 rec]]]]]]; try discriminate.
  now exists f0, f1, f2, f3, f4.
Qed.

(** On five fields [parseLine] does not panic; what it accepts keeps the
    first two fields as identifiers. *)
Lemma parseLine_total (i : nat) (f0 f1 f2 f3 f4 : string) :
  (exists e, parseLine ParseFloat i [f0; f1; f2; f3; f4] = Ret (inl e))
  \/ (exists v t, parseLine ParseFloat i [f0; f1; f2; f3; f4] = Ret (inr (mkLine f0 f1 v t))).
Proof.
  unfold parseLine, index, mbind, outcome_bind, obind.
  cbn -[String.eqb wantReadType timeparse.ParseInLocation irelandTimezone].
  destruct (negb (f3 =? wantReadType)%string); [left; eexists; reflexivity |].
  destruct (ParseFloat f2); [| left; eexists; reflexivity].
  destruct (timeparse.ParseInLocation f4 irelandTimezone);
    [right; do 2 eexists; reflexivity | left; eexists; reflexivity].
Qed.

(** The reading loop after the first row: it does not panic, and when it
    accepts the rows they all carry the identifiers the result already
    has, which it keeps. *)
Lemma readData_ids (rows : list csv.line) :
  forall i res, (2 <= i)%nat ->
    (exists e, readData ParseFloat 5 rows i res = Ret (inl e))
    \/ (exists res',
          readData ParseFloat 5 rows i res = Ret (inr res')
          /\ MPRN res' = MPRN res
          /\ MeterSerialNumber res' = MeterSerialNumber res
          /\ ReadTypes res' = ReadTypes res
          /\ Forall (sameMeter (MPRN res) (MeterSerialNumber res)) rows).
Proof.
  induction rows as [| l rows IH]; intros i res Hi.
  - right. exists res. repeat split. constructor.
  - cbn [readData].
    destruct (csv.readRecord 5 l) as [[err | record] n] eqn:Hrec;
      [left; eexists; reflexivity |].
    apply readRecord_5 in Hrec as (-> & -> & f0 & f1 & f2 & f3 & f4 & ->).
    destruct (parseLine_total i f0 f1 f2 f3 f4) as [[e He] | (v & t & Hp)];
      rewrite ?He, ?Hp; unfold_outcome;
      [left; eexists; reflexivity |].
    cbn [line_MPRN line_SerialNumber line_Value line_EndTime].
    assert (Hi1 : (i =? 1)%nat = false) by (apply Nat.eqb_neq; lia).
    rewrite Hi1.
    destruct (String.eqb_spec (MPRN res) f0) as [Hm | Hm]; cbn [negb];
      [| left; eexists; reflexivity].
    destruct (String.eqb_spec (MeterSerialNumber res) f1) as [Hs | Hs]; cbn [negb];
      [| left; eexists; reflexivity].
    destruct (IH (S i) (withReads res (Reads res ++ [mkRead v t])) ltac:(lia))
      as [[e He] | (res' & Hr & H1 & H2 & H3 & Hall)]; [left; now exists e |].
    right. exists res'. cbn [withReads MPRN MeterSerialNumber ReadTypes] in *.
    repeat split; try assumption.
    constructor; [| exact Hall]. subst f0 f1. now exists f2, f3, f4.
Qed.

(** The reading loop from its start on a file whose first data row
    carries [m] and [s]. *)
Lemma readData_first (m s : string) (more : list string) (rest : list csv.line) :
  (exists e, readData ParseFloat 5 (csv.Fields (m :: s :: more) :: rest) 1 emptyResult
             = Ret (inl e))
  \/ (exists res',
        readData ParseFloat 5 (csv.Fields (m :: s :: more) :: rest) 1 emptyResult
        = Ret (inr res')
        /\ MPRN res' = m /\ MeterSerialNumber res' = s
        /\ ReadTypes res' = wantReadType
        /\ Forall (sameMeter m s) rest).
Proof.
  cbn [readData].
  destruct (csv.readRecord 5 (csv.Fields (m :: s :: more))) as [[err | record] n] eqn:Hrec;
    [left; eexists; reflexivity |].
  apply readRecord_5 in Hrec as (-> & Hl & f0 & f1 & f2 & f3 & f4 & ->).
  injection Hl as -> -> ->.
  destruct (parseLine_total 1 f0 f1 f2 f3 f4) as [[e He] | (v & t & Hp)];
    rewrite ?He, ?Hp; unfold_outcome;
    [left; eexists; reflexivity |].
  cbn [line_MPRN line_SerialNumber line_Value line_EndTime Nat.eqb].
  destruct (readData_ids rest 2
              (withReads (mkResult f0 f1 wantReadType (Reads emptyResult))
                 (Reads (mkResult f0 f1 wantReadType (Reads emptyResult)) ++ [mkRead v t]))
              (le_n 2))
    as [[e He] | (res' & Hr & H1 & H2 & H3 & Hall)]; [left; now exists e |].
  right. exists res'. repeat split; assumption.
Qed.

(** The loop on two stretches of rows, one after the other. *)
Lemma readData_app (l1 l2 : list csv.line) :
  forall i res,
    readData ParseFloat 5 (l1 ++ l2) i res
    = match readData ParseFloat 5 l1 i res with
      | Ret (inr res') => readData ParseFloat 5 l2 (i + length l1) res'
      | other => other
      end.
Proof.
  induction l1 as [| l l1 IH]; intros i res.
  - cbn [app readData length]. now rewrite Nat.add_0_r.
  - cbn [app readData length].
    destruct (csv.readRecord 5 l) as [[err | record] n] eqn:Hrec; [reflexivity |].
    apply readRecord_5 in Hrec as (-> & _ & _).
    destruct (parseLine ParseFloat i record) as [[e | ln] | msg];
      unfold_outcome; try reflexivity.
    replace (i + S (length l1))%nat with (S i + length l1)%nat by lia.
    destruct (i =? 1)%nat; [apply IH |].
    destruct (negb (MPRN res =? line_MPRN ln)%string); [reflexivity |].
    destruct (negb (MeterSerialNumber res =? line_SerialNumber ln)%string);
      [reflexivity | apply IH].
Qed.

Lemma ingest_header (rows : list csv.line) :
  ingest ParseFloat (header :: rows)
  = match readData ParseFloat 5 rows 1 emptyResult with
    | Ret (inl err) => Ret (inl err)
    | Ret (inr res) => Ret (inr (fst (fixTimezone (withReads res (rev (Reads res))))))
    | Panic msg => Panic msg
    end.
Proof.
  unfold ingest. rewrite validateHeader_ok. cbn [csv.FieldsPerRecord csv.input].
  unfold_outcome.
  destruct (readData ParseFloat 5 rows 1 emptyResult) as [[e | res] | msg]; reflexivity.
Qed.

End IdentityFacts.

Lemma splitRun_inl (res : Result) (reads : list Read) :
  forall done cur lastTs out e,
    splitRun res reads (map (withReads res) (done ++ [cur])) (length done) lastTs
    = inl (out, e) ->
    exists l, out = map (withReads res) l.
Proof.
  induction reads as [| r reads IH]; intros done cur lastTs out e H; [discriminate |].
  cbn [splitRun] in H. rewrite splitStep_runs in H.
  destruct (isHalfSharp (EndTime r)).
  { injection H as <- _. now exists []. }
  destruct (IsZero lastTs || (elapsed (EndTime r) lastTs =? 30 * Minute)).
  { now apply IH in H. }
  destruct (elapsed (EndTime r) lastTs <=? 0).
  { injection H as <- _. now eexists. }
  now apply IH in H.
Qed.

(** Every segment [splitTimes] returns, also beside an error, carries the
    identifiers and the label of the series. *)
Lemma splitTimes_ids (res : Result) (seg : Result) :
  seg ∈ fst (splitTimes res) ->
  MPRN seg = MPRN res /\ MeterSerialNumber seg = MeterSerialNumber res
  /\ ReadTypes seg = ReadTypes res.
Proof.
  unfold splitTimes. rewrite splitLoop_splitRun.
  destruct (splitRun res (Reads res) [shallowCopyResult res] 0 zeroTime)
    as [[out e] | [[rr' idx'] lastTs']] eqn:Hr; cbn [fst].
  - apply (splitRun_inl res (Reads res) [] []) in Hr as [l ->].
    intros Hin. apply list_elem_of_fmap in Hin as (x & -> & _). repeat split.
  - apply (splitRun_inr res (Reads res) [] []) in Hr as (done' & cur' & -> & _).
    intros Hin. apply list_elem_of_fmap in Hin as (x & -> & _). repeat split.
Qed.

(** C7 (as amended). On a file with a valid header whose first data row
    carries the meter identifier [m] and the serial number [s]: a series
    that is ingested has [m] and [s] as its identity, and so has every
    segment [HDF] returns; a later row with another meter identifier or
    serial number makes [HDF] fail, with no segment returned. The error
    reports both conflicting values when the rows before the row were
    accepted and the row itself has the expected read type, a value and a
    timestamp that parse: it is the one for the meter identifier, with [m]
    and the other value, or, the meter identifiers being equal, the one for
    the serial number, with [s] and the other value. A row that is refused
    for its read type, its value or its timestamp gets that error instead,
    whatever its identifiers: [parseLine] runs before the comparison. *)
Theorem HDF_meter_identity (ParseFloat : string -> option float)
    (m s : string) (more : list string) (rest : list csv.line) :
  let first := csv.Fields (m :: s :: more) in
  let hdf := header :: first :: rest in
  (forall res, ingest ParseFloat hdf = Ret (inr res) ->
     MPRN res = m /\ MeterSerialNumber res = s)
  /\ (forall rr e seg, HDF ParseFloat hdf = Ret (rr, e) -> seg ∈ rr ->
        MPRN seg = m /\ MeterSerialNumber seg = s)
  /\ (forall k m' s' more',
        rest !! k = Some (csv.Fields (m' :: s' :: more')) ->
        m' <> m \/ s' <> s ->
        exists e, HDF ParseFloat hdf = Ret ([], Some e))
  /\ (forall pre m' s' sval sts v t post,
        rest = pre ++ csv.Fields [m'; s'; sval; wantReadType; sts] :: post ->
        (exists res0, readData ParseFloat 5 (first :: pre) 1 emptyResult = Ret (inr res0)) ->
        ParseFloat sval = Some v ->
        timeparse.ParseInLocation sts irelandTimezone = Some t ->
        (m' <> m -> HDF ParseFloat hdf = Ret ([], Some (ErrMultipleMPRN m m')))
        /\ (m' = m -> s' <> s ->
            HDF ParseFloat hdf = Ret ([], Some (ErrMultipleSerialNumbers s s'))))
  /\ (forall pre m' s' sval rt sts post,
        rest = pre ++ csv.Fields [m'; s'; sval; rt; sts] :: post ->
        (exists res0, readData ParseFloat 5 (first :: pre) 1 emptyResult = Ret (inr res0)) ->
        let i := S (S (length pre)) in
        (rt <> wantReadType ->
         HDF ParseFloat hdf = Ret ([], Some (ErrReadType i rt wantReadType)))
        /\ (rt = wantReadType -> ParseFloat sval = None ->
            HDF ParseFloat hdf = Ret ([], Some (ErrParseValue i sval)))
        /\ (rt = wantReadType -> ParseFloat sval <> None ->
            timeparse.ParseInLocation sts irelandTimezone = None ->
            HDF ParseFloat hdf = Ret ([], Some (ErrParseTime i sts)))).
Proof.
  intros first hdf.
  assert (Hing : forall res, ingest ParseFloat hdf = Ret (inr res) ->
            MPRN res = m /\ MeterSerialNumber res = s).
  { intros res. unfold hdf. rewrite ingest_header.
    destruct (readData_first ParseFloat m s more rest)
      as [[e He] | (res' & Hr & H1 & H2 & _)]; fold first in He || fold first in Hr.
    - rewrite He. discriminate.
    - rewrite Hr. intros [= <-].
      destruct (fixTimezone_identity (withReads res' (rev (Reads res')))) as (F1 & F2 & _).
      rewrite F1, F2. cbn [withReads MPRN MeterSerialNumber].
      split; assumption. }
  split; [exact Hing |]. split; [| split; [| split]].
  - intros rr e seg. unfold HDF.
    destruct (ingest ParseFloat hdf) as [[err | res] | msg] eqn:Hi;
      unfold_outcome; rewrite ?Hi.
    + intros [= <- _] Hin. inversion Hin.
    + intros [= Hs] Hin. destruct (Hing res eq_refl) as [<- <-].
      assert (Hin' : seg ∈ fst (splitTimes res)) by (rewrite Hs; exact Hin).
      apply splitTimes_ids in Hin' as (? & ? & _). split; assumption.
    + discriminate.
  - intros k m' s' more' Hk Hne. unfold HDF, hdf. rewrite ingest_header.
    destruct (readData_first ParseFloat m s more rest)
      as [[e He] | (res' & Hr & _ & _ & _ & Hall)]; fold first in He || fold first in Hr.
    + rewrite He. exists e. reflexivity.
    + exfalso. rewrite Forall_forall in Hall.
      destruct (Hall _ (list_elem_of_lookup_2 _ _ _ Hk)) as (f2 & f3 & f4 & [= -> -> _]).
      destruct Hne as [Hne | Hne]; now apply Hne.
  - intros pre m' s' sval sts v t post Hrest [res0 Hpre] Hv Ht.
    assert (Hid : MPRN res0 = m /\ MeterSerialNumber res0 = s).
    { destruct (readData_first ParseFloat m s more pre)
        as [[e He] | (res' & Hr & H1 & H2 & _)]; fold first in He || fold first in Hr.
      - rewrite He in Hpre. discriminate.
      - rewrite Hr in Hpre. injection Hpre as <-. split; assumption. }
    destruct Hid as [Hm Hs].
    assert (Hrd : readData ParseFloat 5 (first :: rest) 1 emptyResult
      = if negb (String.eqb m m') then Ret (inl (ErrMultipleMPRN m m'))
        else if negb (String.eqb s s') then Ret (inl (ErrMultipleSerialNumbers s s'))
        else readData ParseFloat 5 post (S (1 + length (first :: pre)))
               (withReads res0 (Reads res0 ++ [mkRead v t]))).
    { rewrite Hrest.
      change (first :: pre ++ csv.Fields [m'; s'; sval; wantReadType; sts] :: post)
        with ((first :: pre) ++ csv.Fields [m'; s'; sval; wantReadType; sts] :: post).
      rewrite readData_app, Hpre.
      rewrite (readData_ok ParseFloat post _ res0 m' s' sval sts v t Hv Ht).
      rewrite Hm, Hs. cbn [length Nat.add Nat.eqb]. reflexivity. }
    unfold HDF, hdf. rewrite ingest_header, Hrd. split.
    + intros Hne. apply String.eqb_neq in Hne. rewrite String.eqb_sym in Hne.
      rewrite Hne. reflexivity.
    + intros -> Hne. rewrite String.eqb_refl. cbn [negb].
      apply String.eqb_neq in Hne. rewrite String.eqb_sym in Hne.
      rewrite Hne. reflexivity.
  - intros pre m' s' sval rt sts post Hrest [res0 Hpre] i.
    assert (Hp : parseLine ParseFloat i [m'; s'; sval; rt; sts]
                 = if negb (String.eqb rt wantReadType) then
                     Ret (inl (ErrReadType i rt wantReadType))
                   else
                     match ParseFloat sval with
                     | None => Ret (inl (ErrParseValue i sval))
                     | Some v =>
                         match timeparse.ParseInLocation sts irelandTimezone with
                         | None => Ret (inl (ErrParseTime i sts))
                         | Some t => Ret (inr (mkLine m' s' v t))
                         end
                     end) by reflexivity.
    assert (HH : forall e, parseLine ParseFloat i [m'; s'; sval; rt; sts] = Ret (inl e) ->
              HDF ParseFloat hdf = Ret ([], Some e)).
    { intros e He. unfold HDF, hdf. rewrite ingest_header, Hrest.
      change (first :: pre ++ csv.Fields [m'; s'; sval; rt; sts] :: post)
        with ((first :: pre) ++ csv.Fields [m'; s'; sval; rt; sts] :: post).
      rewrite readData_app, Hpre.
      change (1 + length (first :: pre))%nat with i.
      cbn [readData csv.readRecord length].
      change (0 <? 5)%nat with true. change (negb (5 =? 5)%nat) with false. cbv iota.
      now rewrite He. }
    split; [| split].
    + intros Hne. apply HH. rewrite Hp.
      apply String.eqb_neq in Hne. now rewrite Hne.
    + intros -> Hv. apply HH. rewrite Hp, String.eqb_refl, Hv. reflexivity.
    + intros -> Hv Ht. apply HH. rewrite Hp, String.eqb_refl, Ht.
      destruct (ParseFloat sval); [reflexivity | contradiction].
Qed.

(** C7 (counterexample). Two files whose second data row carries the meter
    identifier 321 after a first row of meter 123: [HDF] fails on both, but
    the error is the one for the value of the row, respectively for its
    read type, and reports neither meter identifier. *)
Lemma HDF_other_meter_other_error :
  HDF sampleParseFloat otherMeterBadValue = Ret ([], Some (ErrParseValue 2 "1,5"))
  /\ HDF sampleParseFloat otherMeterOtherReadType
     = Ret ([], Some (ErrReadType 2 "Active Export Interval (kW)" wantReadType))
  /\ HDF sampleParseFloat otherMeterBadValue
     <> Ret ([], Some (ErrMultipleMPRN "123" "321"))
  /\ HDF sampleParseFloat otherMeterOtherReadType
     <> Ret ([], Some (ErrMultipleMPRN "123" "321")).
Proof.
  assert (H1 : HDF sampleParseFloat otherMeterBadValue
               = Ret ([], Some (ErrParseValue 2 "1,5")))
    by (vm_compute; reflexivity).
  assert (H2 : HDF sampleParseFloat otherMeterOtherReadType
               = Ret ([], Some (ErrReadType 2 "Active Export Interval (kW)" wantReadType)))
    by (vm_compute; reflexivity).
  split; [exact H1 |]. split; [exact H2 |].
  split; [rewrite H1 | rewrite H2]; discriminate.
Qed.

(** The two files of the repository's tests for this error. *)
Lemma HDF_different_identifiers :
  HDF sampleParseFloat differentMPRN = Ret ([], Some (ErrMultipleMPRN "123" "321"))
  /\ HDF sampleParseFloat differentSerial
     = Ret ([], Some (ErrMultipleSerialNumbers "45" "00")).
Proof. split; vm_compute; reflexivity. Qed.

(** ** [Translate] *)

Lemma pair_ind {A : Type} (P : list A -> Prop) :
  P [] -> (forall a, P [a]) -> (forall a b l, P l -> P (a :: b :: l)) ->
  forall l, P l.
Proof.
  intros H0 H1 H2 l.
  assert (H : P l /\ forall a, P (a :: l)); [| exact (proj1 H)].
  induction l as [| x l [IH1 IH2]]; split; auto.
Qed.

Lemma mod2_succ (i : nat) :
  (i mod 2 = 1)%nat -> (S i mod 2 = 0)%nat /\ (S (S i) mod 2 = 1)%nat.
Proof.
  intros Hi.
  pose proof (Nat.div_mod_eq i 2). pose proof (Nat.div_mod_eq (S i) 2).
  pose proof (Nat.div_mod_eq (S (S i)) 2).
  pose proof (Nat.mod_upper_bound (S i) 2). pose proof (Nat.mod_upper_bound (S (S i)) 2).
  lia.
Qed.

Lemma Minutes_Sub_30 (t u : Time) :
  Qeq_bool (Minutes (Sub t u)) 30 = (elapsed t u =? 30 * Minute).
Proof. now rewrite Minutes_eq_30, Sub_eq_30min. Qed.

Lemma drop_cons_lookup {A : Type} (l : list A) (i : nat) (a : A) (rest : list A) :
  drop i l = a :: rest -> l !! i = Some a /\ drop (S i) l = rest.
Proof.
  intros H.
  assert (Ha : l !! i = Some a).
  { rewrite <- (Nat.add_0_r i), <- lookup_drop, H. reflexivity. }
  split; [exact Ha |].
  rewrite (drop_S _ _ _ Ha) in H. now injection H.
Qed.

(** [Translate] by cases on the segment and on what the trim leaves. *)
Lemma Translate_retained (raw : Result) :
  Translate raw
  = match Reads raw with
    | [] => Ret (ha.mkStatistics translateMetadata [], Some ErrNotEnoughData)
    | _ :: _ =>
        match retained (Reads raw) with
        | [] => Panic "index out of range"
        | r0 :: tl =>
            translateLoop (r0 :: tl) 0 (r0 :: tl)
              (Add (EndTime r0) (- 30 * Minute)) 0%float 0%float []
        end
    end.
Proof.
  unfold Translate, retained. destruct (Reads raw) as [| r rest]; [reflexivity |].
  cbn [length Nat.eqb Nat.ltb Nat.leb andb].
  change (index (r :: rest) 0) with (Ret r).
  unfold_outcome.
  destruct (isRound (EndTime r)).
  - change (drop 1 (r :: rest)) with rest. destruct rest; reflexivity.
  - reflexivity.
Qed.

(** The loop from an odd index on, the accumulator just reset: the
    readings left are taken two by two. *)
Lemma translateLoop_pairs (rest : list Read) :
  forall reads i t sum stats,
    drop i reads = rest -> (i mod 2 = 1)%nat -> chainedAfter t rest ->
    translateLoop reads i rest t sum 0%float stats
    = Ret (ha.mkStatistics translateMetadata (stats ++ pairStats sum rest), None).
Proof.
  induction rest as [| a | a b rest IH] using pair_ind;
    intros reads i t sum stats Hd Hi Hc.
  - cbn. now rewrite app_nil_r.
  - destruct Hc as [Ha _]. cbn [translateLoop pairStats].
    rewrite Minutes_Sub_30, Ha, Z.eqb_refl. cbn [negb].
    assert (Hp : (i mod 2 =? 0)%nat = false) by (apply Nat.eqb_neq; lia).
    rewrite Hp. cbn [andb]. now rewrite app_nil_r.
  - destruct Hc as (Ha & Hb & Hc).
    apply drop_cons_lookup in Hd as [Hia Hd].
    cbn [translateLoop pairStats].
    rewrite Minutes_Sub_30, Ha, Z.eqb_refl. cbn [negb].
    assert (Hp : (i mod 2 =? 0)%nat = false) by (apply Nat.eqb_neq; lia).
    rewrite Hp. cbn [andb].
    rewrite Minutes_Sub_30, Hb, Z.eqb_refl. cbn [negb].
    assert (Hp' : (S i mod 2 =? 0)%nat = true)
      by (apply Nat.eqb_eq; apply (mod2_succ i Hi)).
    rewrite Hp'. cbn [andb Nat.ltb Nat.leb].
    unfold mbind, outcome_bind, obind, index.
    replace (S i - 1)%nat with i by lia. rewrite Hia.
    apply drop_cons_lookup in Hd as [_ Hd].
    rewrite (IH reads (S (S i)) (EndTime b));
      [| exact Hd | apply (mod2_succ i Hi) | exact Hc].
    rewrite <- app_assoc. reflexivity.
Qed.

(** On a trimmed segment whose readings are 30 minutes apart, [Translate]
    returns, without error, the statistics of the specification. *)
Lemma Translate_chained (raw : Result) (r0 : Read) (tl : list Read) :
  retained (Reads raw) = r0 :: tl -> chained (r0 :: tl) ->
  Translate raw
  = Ret (ha.mkStatistics translateMetadata (translateStats (r0 :: tl)), None).
Proof.
  intros Hret Hc. rewrite Translate_retained, Hret.
  assert (Hne : Reads raw <> []) by (intros E; rewrite E in Hret; discriminate).
  destruct (Reads raw) as [| x xs]; [congruence |]. clear Hne.
  assert (H0 : (elapsed (EndTime r0) (Add (EndTime r0) (- 30 * Minute)) =? 30 * Minute) = true).
  { apply Z.eqb_eq. unfold elapsed, Add. cbn [unixNano]. lia. }
  cbn [chained] in Hc.
  destruct tl as [| r1 tl].
  { cbn [translateLoop]. rewrite Minutes_Sub_30, H0. reflexivity. }
  destruct Hc as [H1 Hc].
  destruct tl as [| r2 tl].
  { cbn [translateLoop]. rewrite Minutes_Sub_30, H0. cbn [negb].
    rewrite Minutes_Sub_30, H1, Z.eqb_refl. reflexivity. }
  destruct Hc as [H2 Hc].
  cbn [translateLoop]. rewrite Minutes_Sub_30, H0. cbn [negb].
  change ((0 mod 2 =? 0)%nat && (0 <? 0)%nat) with false. cbn match.
  rewrite Minutes_Sub_30, H1, Z.eqb_refl. cbn [negb].
  change ((1 mod 2 =? 0)%nat && (0 <? 1)%nat) with false. cbn match.
  rewrite Minutes_Sub_30, H2, Z.eqb_refl. cbn [negb].
  change ((2 mod 2 =? 0)%nat && (0 <? 2)%nat) with true. cbn match.
  unfold mbind, outcome_bind, obind, index.
  change ((r0 :: r1 :: r2 :: tl) !! (2 - 1)%nat) with (Some r1). cbv beta iota.
  rewrite (translateLoop_pairs tl (r0 :: r1 :: r2 :: tl) 3 (EndTime r2));
    [reflexivity | reflexivity | reflexivity | exact Hc].
Qed.

Lemma div2_SS (n : nat) : (S (S n) / 2 = S (n / 2))%nat.
Proof.
  replace (S (S n)) with (n + 1 * 2)%nat by lia.
  rewrite Nat.div_add by lia. lia.
Qed.

Lemma halfEnergy_snoc (acc : float) (l : list Read) (r : Read) :
  halfEnergy acc (l ++ [r]) = (halfEnergy acc l + Value r / 2)%float.
Proof. unfold halfEnergy. rewrite foldl_app. reflexivity. Qed.

Lemma pairStats_length (rest : list Read) :
  forall sum, length (pairStats sum rest) = (length rest / 2)%nat.
Proof.
  induction rest as [| a | a b rest IH] using pair_ind; intros sum; try reflexivity.
  cbn [pairStats length]. rewrite IH, div2_SS. reflexivity.
Qed.

Lemma pairStats_lookup (rest : list Read) :
  forall sum j s,
    pairStats sum rest !! j = Some s ->
    exists a,
      rest !! (2 * j)%nat = Some a
      /\ ha.Start s = EndTime a
      /\ ha.State s = halfEnergy 0 (take 2 (drop (2 * j) rest))
      /\ ha.Sum s
         = foldl (fun x y => (x + y)%float) sum
             (map ha.State (take (S j) (pairStats sum rest))).
Proof.
  induction rest as [| a | a b rest IH] using pair_ind; intros sum j s Hs;
    try discriminate.
  cbn [pairStats] in Hs |- *. destruct j as [| j].
  - injection Hs as <-. exists a. repeat split.
  - cbn [lookup list_lookup] in Hs. change (pairStats (sum + halfEnergy 0 [a; b]) rest !! j = Some s) in Hs.
    apply IH in Hs as (a' & Ha' & Hstart & Hstate & Hsum).
    exists a'. replace (2 * S j)%nat with (S (S (2 * j))) by lia.
    repeat split; assumption.
Qed.

Lemma translateStats_length (reads : list Read) :
  length (translateStats reads) = ((length reads - 1) / 2)%nat.
Proof.
  destruct reads as [| r0 [| r1 [| r2 rest]]]; try reflexivity.
  cbn [translateStats length]. rewrite pairStats_length.
  replace (S (S (S (length rest))) - 1)%nat with (S (S (length rest))) by lia.
  now rewrite div2_SS.
Qed.

(** The [k]-th statistic of a segment: it starts at the reading of index
    [2k+1], the one before the reading of index [2k+2] on which it is
    emitted; its state is the energy of its bucket, accumulated from zero;
    its sum is the running total of the states emitted so far. *)
Lemma translateStats_lookup (reads : list Read) (k : nat) (s : ha.StatisticValue) :
  translateStats reads !! k = Some s ->
  exists prev trigger,
    reads !! (2 * k + 1)%nat = Some prev
    /\ reads !! (2 * k + 2)%nat = Some trigger
    /\ ha.Start s = EndTime prev
    /\ ha.State s = halfEnergy 0 (bucket reads k)
    /\ ha.Sum s = runningTotal (map ha.State (take (S k) (translateStats reads))).
Proof.
  intros Hs.
  assert (Hlen : (k < length (translateStats reads))%nat) by (apply lookup_lt_Some in Hs; exact Hs).
  rewrite translateStats_length in Hlen.
  assert (Htrig : exists trigger, reads !! (2 * k + 2)%nat = Some trigger).
  { apply lookup_lt_is_Some.
    pose proof (Nat.div_mod_eq (length reads - 1) 2).
    pose proof (Nat.mod_upper_bound (length reads - 1) 2). lia. }
  destruct Htrig as [trigger Htrig]. 
  destruct reads as [| r0 [| r1 [| r2 rest]]]; try discriminate.
  cbn [translateStats] in Hs |- *. destruct k as [| k].
  - injection Hs as <-. exists r1, trigger. repeat split. exact Htrig.
  - cbn [lookup list_lookup] in Hs.
    change (pairStats (0 + halfEnergy 0 [r0; r1; r2]) rest !! k = Some s) in Hs.
    apply pairStats_lookup in Hs as (a & Ha & Hstart & Hstate & Hsum).
    exists a, trigger.
    replace (2 * S k + 1)%nat with (S (S (S (2 * k)))) by lia.
    split; [exact Ha |]. split; [exact Htrig |]. split; [exact Hstart |].
    split; [| exact Hsum].
    rewrite Hstate. unfold bucket. cbn [Nat.eqb].
    replace (2 * S k + 1)%nat with (S (S (S (2 * k)))) by lia. reflexivity.
Qed.

(** C3 (as amended). On a segment whose retained readings (after the trim
    of a leading on-the-hour reading) are not empty and 30 minutes apart,
    [Translate] returns without error and emits a statistic exactly on
    consuming the readings of even, non-zero index of the retained list
    (the third, the fifth, ... reading): there are as many statistics as
    such indices, the [k]-th is emitted on the reading of index [2k+2],
    starts at the instant of the reading just before it, and its state is
    the accumulator at that moment: half the value of every reading
    consumed since the previous emission (since the start for the first
    statistic), added up from zero. *)
Theorem Translate_emits (raw : Result) (r0 : Read) (tl : list Read) :
  retained (Reads raw) = r0 :: tl ->
  chained (r0 :: tl) ->
  exists stats,
    Translate raw = Ret (ha.mkStatistics translateMetadata stats, None)
    /\ length stats = (length tl / 2)%nat
    /\ forall k s, stats !! k = Some s ->
         exists prev trigger,
           (r0 :: tl) !! (2 * k + 1)%nat = Some prev
           /\ (r0 :: tl) !! (2 * k + 2)%nat = Some trigger
           /\ ha.Start s = EndTime prev
           /\ ha.State s = halfEnergy 0 (bucket (r0 :: tl) k).
Proof.
  intros Hret Hc. exists (translateStats (r0 :: tl)).
  split; [now apply Translate_chained |]. split.
  - rewrite translateStats_length. cbn [length].
    replace (S (length tl) - 1)%nat with (length tl) by lia. reflexivity.
  - intros k s Hs.
    apply translateStats_lookup in Hs as (prev & trigger & H1 & H2 & H3 & H4 & _).
    exists prev, trigger. repeat split; assumption.
Qed.

(** The theorem on [evening]: the reading of 22:00 is trimmed, the three
    that remain give one statistic, started at 23:00. *)
Lemma Translate_emits_witness :
  retained (Reads (series evening))
  = [ mkRead 0.25 (at_ 2023 1 15 22 30); mkRead 0.75 (at_ 2023 1 15 23 0);
      mkRead 1 (at_ 2023 1 15 23 30) ]
  /\ exists stats,
       Translate (series evening) = Ret (ha.mkStatistics translateMetadata stats, None)
       /\ length stats = 1%nat.
Proof.
  assert (Hret : retained (Reads (series evening))
    = mkRead 0.25 (at_ 2023 1 15 22 30)
        :: [mkRead 0.75 (at_ 2023 1 15 23 0); mkRead 1 (at_ 2023 1 15 23 30)])
    by (vm_compute; reflexivity).
  assert (Hc : chained (mkRead 0.25 (at_ 2023 1 15 22 30)
        :: [mkRead 0.75 (at_ 2023 1 15 23 0); mkRead 1 (at_ 2023 1 15 23 30)]))
    by (vm_compute; repeat split).
  split; [exact Hret |].
  destruct (Translate_emits (series evening) _ _ Hret Hc) as (stats & Heq & Hlen & _).
  exists stats. split; [exact Heq | exact Hlen].
Defined.

(** C3 (counterexample). [twoReadings] starts on a half hour, so nothing
    is trimmed and both readings are consumed, an even and non-zero count:
    no statistic is emitted. On [threeReadings] the only statistic comes
    with the third reading, an odd count, and holds the energy of all
    three. *)
Lemma Translate_two_readings_no_statistic :
  retained twoReadings = twoReadings
  /\ length twoReadings = 2%nat
  /\ Translate (series twoReadings) = Ret (ha.mkStatistics translateMetadata [], None)
  /\ retained threeReadings = threeReadings
  /\ Translate (series threeReadings)
     = Ret (ha.mkStatistics translateMetadata
              [statisticValue (at_ 2023 1 15 1 0) 0.75 0.75], None).
Proof.
  split; [vm_compute; reflexivity |].
  split; [reflexivity |].
  split; [vm_compute; reflexivity |].
  split; vm_compute; reflexivity.
Qed.

(** C6. Within one segment each consumed reading adds half its value to
    the accumulator ([Value r / 2], which in binary64 is the value times
    0.5). [Translate] emits one statistic for every two readings after the
    first retained one; the state of each is the accumulator built from
    zero over its bucket; the sum of the first is zero plus its state, the
    sum of every later one is the sum of the statistic before it plus its
    own state, that is the running total, started at zero for the segment,
    of the states emitted so far. [Translate] takes nothing but the
    segment, so no total passes from one segment to another. *)
Theorem Translate_running_total (raw : Result) (r0 : Read) (tl : list Read) :
  retained (Reads raw) = r0 :: tl ->
  chained (r0 :: tl) ->
  exists stats,
    Translate raw = Ret (ha.mkStatistics translateMetadata stats, None)
    /\ length stats = (length tl / 2)%nat
    /\ (forall k s, stats !! k = Some s ->
          ha.State s = halfEnergy 0 (bucket (r0 :: tl) k)
          /\ ha.Sum s = runningTotal (map ha.State (take (S k) stats)))
    /\ (forall s, stats !! 0%nat = Some s -> ha.Sum s = (0 + ha.State s)%float)
    /\ (forall k s s', stats !! k = Some s -> stats !! S k = Some s' ->
          ha.Sum s' = (ha.Sum s + ha.State s')%float)
    /\ (forall acc l r, halfEnergy acc (l ++ [r]) = (halfEnergy acc l + Value r / 2)%float)
    /\ halfEnergy 0 [] = 0%float
    /\ runningTotal [] = 0%float
    /\ (forall states x, runningTotal (states ++ [x]) = (runningTotal states + x)%float).
Proof.
  intros Hret Hc. exists (translateStats (r0 :: tl)).
  assert (Hsnoc : forall states x,
            runningTotal (states ++ [x]) = (runningTotal states + x)%float).
  { intros states x. unfold runningTotal. rewrite foldl_app. reflexivity. }
  assert (Hsum : forall k s, translateStats (r0 :: tl) !! k = Some s ->
            ha.Sum s = runningTotal (map ha.State (take (S k) (translateStats (r0 :: tl))))).
  { intros k s Hs.
    apply translateStats_lookup in Hs as (prev & trigger & _ & _ & _ & _ & H5).
    exact H5. }
  split; [now apply Translate_chained |].
  split.
  { rewrite translateStats_length. cbn [length].
    replace (S (length tl) - 1)%nat with (length tl) by lia. reflexivity. }
  split.
  { intros k s Hs. split; [| now apply Hsum].
    apply translateStats_lookup in Hs as (prev & trigger & _ & _ & _ & H4 & _).
    exact H4. }
  split.
  { intros s Hs. rewrite (Hsum 0%nat s Hs).
    rewrite (take_S_r _ 0%nat s Hs). reflexivity. }
  split.
  { intros k s s' Hs Hs'. rewrite (Hsum (S k) s' Hs'), (Hsum k s Hs).
    rewrite (take_S_r _ (S k) s' Hs'), map_app. apply Hsnoc. }
  split; [apply halfEnergy_snoc |].
  split; [reflexivity |]. split; [reflexivity |]. exact Hsnoc.
Qed.

(** The theorem on a day of 22:00 to 23:30: one statistic, whose sum is
    the running total of the states. *)
Lemma Translate_running_total_witness :
  exists stats,
    Translate (series evening) = Ret (ha.mkStatistics translateMetadata stats, None)
    /\ length stats = 1%nat
    /\ forall k s, stats !! k = Some s ->
         ha.Sum s = runningTotal (map ha.State (take (S k) stats)).
Proof.
  assert (Hret : retained (Reads (series evening))
    = mkRead 0.25 (at_ 2023 1 15 22 30)
        :: [mkRead 0.75 (at_ 2023 1 15 23 0); mkRead 1 (at_ 2023 1 15 23 30)])
    by (vm_compute; reflexivity).
  assert (Hc : chained (mkRead 0.25 (at_ 2023 1 15 22 30)
        :: [mkRead 0.75 (at_ 2023 1 15 23 0); mkRead 1 (at_ 2023 1 15 23 30)]))
    by (vm_compute; repeat split).
  destruct (Translate_running_total (series evening) _ _ Hret Hc)
    as (stats & Heq & Hlen & Hk & _).
  exists stats. split; [exact Heq |]. split; [exact Hlen |].
  intros k s Hs. exact (proj2 (Hk k s Hs)).
Defined.

Lemma isRound_spec (t : Time) : isRound t = (unixNano t `mod` Hour =? 0).
Proof.
  unfold isRound, Round, Equal, Add. rewrite Hour_value.
  replace (unixNano t + unixToInternal * Second)
    with (unixNano t + 17259888 * 3600000000000) by reflexivity.
  rewrite Z.mod_add by lia.
  pose proof (Z.mod_pos_bound (unixNano t) 3600000000000 ltac:(lia)) as Hb.
  set (r := unixNano t `mod` 3600000000000) in *.
  destruct (Z.ltb_spec (r + r) 3600000000000); cbn [unixNano];
    (destruct (Z.eqb_spec r 0); [apply Z.eqb_eq | apply Z.eqb_neq]; lia).
Qed.

(** The loop of [Translate] never panics: it returns without error when
    the readings left are 30 minutes apart, and with the spacing error
    otherwise. *)
Lemma translateLoop_outcome (rest : list Read) :
  forall reads i t sum value stats,
    drop i reads = rest ->
    (chainedAfter t rest
     /\ exists st, translateLoop reads i rest t sum value stats = Ret (st, None))
    \/ (~ chainedAfter t rest
        /\ exists st j m a b,
             translateLoop reads i rest t sum value stats
             = Ret (st, Some (ErrIncrement j m a b))).
Proof.
  induction rest as [| r rest IH]; intros reads i t sum value stats Hd.
  - left. split; [exact I |]. eexists. reflexivity.
  - cbn [translateLoop chainedAfter]. rewrite Minutes_Sub_30.
    destruct (Z.eqb_spec (elapsed (EndTime r) t) (30 * Minute)) as [He | He]; cbn [negb].
    2: { right. split; [now intros [? _] |]. do 5 eexists. reflexivity. }
    apply drop_cons_lookup in Hd as [Hi Hd].
    destruct ((i mod 2 =? 0)%nat && (0 <? i)%nat) eqn:Hemit.
    + assert (Hprev : is_Some (reads !! (i - 1)%nat)).
      { apply lookup_lt_is_Some. apply lookup_lt_Some in Hi. lia. }
      destruct Hprev as [prev Hprev].
      unfold mbind, outcome_bind, obind, index. rewrite Hprev.
      destruct (IH reads (S i) (EndTime r) (sum + (value + Value r / 2))%float 0%float
                  (stats ++ [statisticValue (EndTime prev) (value + Value r / 2)
                               (sum + (value + Value r / 2))]) Hd)
        as [[Hc Hr] | [Hc Hr]]; [left | right]; (split; [| exact Hr]); tauto.
    + destruct (IH reads (S i) (EndTime r) sum (value + Value r / 2)%float stats Hd)
        as [[Hc Hr] | [Hc Hr]]; [left | right]; (split; [| exact Hr]); tauto.
Qed.

(** Every outcome of [Translate]: "not enough data" on an empty segment,
    a panic on a segment made of one reading on the hour, the spacing
    error when the retained readings are not 30 minutes apart, a result
    otherwise. *)
Lemma Translate_outcomes (raw : Result) :
  (Reads raw = []
   /\ Translate raw = Ret (ha.mkStatistics translateMetadata [], Some ErrNotEnoughData))
  \/ (exists r, Reads raw = [r] /\ isRound (EndTime r) = true
      /\ Translate raw = Panic "index out of range")
  \/ (retained (Reads raw) <> [] /\ chained (retained (Reads raw))
      /\ exists st, Translate raw = Ret (st, None))
  \/ (retained (Reads raw) <> [] /\ ~ chained (retained (Reads raw))
      /\ exists st j m a b, Translate raw = Ret (st, Some (ErrIncrement j m a b))).
Proof.
  rewrite Translate_retained.
  destruct (Reads raw) as [| r rest] eqn:Hreads; [left; now split |].
  right.
  destruct (retained (r :: rest)) as [| r0 tl] eqn:Hret.
  - left. exists r. unfold retained in Hret.
    destruct (isRound (EndTime r)); [| discriminate]. subst rest. repeat split.
  - right.
    assert (H0 : elapsed (EndTime r0) (Add (EndTime r0) (- 30 * Minute)) = 30 * Minute).
    { unfold elapsed, Add. cbn [unixNano]. lia. }
    destruct (translateLoop_outcome (r0 :: tl) (r0 :: tl) 0
                (Add (EndTime r0) (- 30 * Minute)) 0%float 0%float [] eq_refl)
      as [[Hc Hr] | [Hc Hr]]; [left | right].
    + split; [discriminate |]. split; [exact (proj2 Hc) | exact Hr].
    + split; [discriminate |]. split; [| exact Hr].
      intros Hch. apply Hc. split; [exact H0 | exact Hch].
Qed.

(** C4 (the failing input). A file with one row, at 23:00, is accepted by
    [HDF] as one segment of one reading; that reading is on the hour, the
    trim leaves nothing, and [Translate] panics on [reads[0]] instead of
    returning an error. *)
Theorem Translate_single_round_reading_panics :
  HDF sampleParseFloat onTheHourFile = Ret ([series onTheHour], None)
  /\ isRound (at_ 2023 1 15 23 0) = true
  /\ Translate (series onTheHour) = Panic "index out of range".
Proof.
  split; [vm_compute; reflexivity |].
  split; vm_compute; reflexivity.
Qed.

(** ** The empty file *)

(** C9. A file made of the valid header and no data row is accepted:
    [HDF] returns exactly one segment, whose reading list is empty (and
    whose identifiers are empty); the emptiness is met only by [Translate],
    which refuses that segment with "not enough data". *)
Theorem HDF_header_only (ParseFloat : string -> option float) :
  HDF ParseFloat [csv.Fields headerFormat] = Ret ([emptyResult], None)
  /\ Reads emptyResult = []
  /\ Translate emptyResult
     = Ret (ha.mkStatistics translateMetadata [], Some ErrNotEnoughData).
Proof. repeat split. Qed.

(** * Further properties of the pipeline *)

(** ** The header check *)

Lemma headerMismatch_spec (want : list string) : forall i h,
  length h = length want ->
  (headerMismatch i h want = None /\ h = want)
  \/ exists k got w,
       h !! k = Some got /\ want !! k = Some w /\ got <> w
       /\ take k h = take k want
       /\ headerMismatch i h want = Some (ErrHeaderRecord (i + k) got w).
Proof.
  induction want as [| w want IH]; intros i h Hlen.
  - destruct h; [| discriminate]. left. split; reflexivity.
  - destruct h as [| got h]; [discriminate |]. cbn [headerMismatch].
    destruct (String.eqb_spec got w) as [-> | Hne]; cbn [negb].
    + destruct (IH (S i) h ltac:(cbn in Hlen; lia))
        as [[Hn ->] | (k & g & w' & Hk & Hw & Hgw & Htk & He)].
      * left. split; [exact Hn | reflexivity].
      * right. exists (S k), g, w'. repeat split; try assumption.
        -- cbn [take]. now rewrite Htk.
        -- rewrite He. replace (S i + k)%nat with (i + S k)%nat by lia. reflexivity.
    + right. exists 0%nat, got, w. repeat split; [exact Hne |].
      now rewrite Nat.add_0_r.
Qed.

Lemma validateHeader_Fields (h : list string) (rows : list csv.line) :
  validateHeader (csv.NewReader (csv.Fields h :: rows))
  = if negb (length h =? 5)%nat
    then (Some (ErrHeaderLength (length h) 5), csv.mkReader (length h) rows)
    else (headerMismatch 0 h headerFormat, csv.mkReader (length h) rows).
Proof. reflexivity. Qed.

Lemma validateHeader_None (hdf : list csv.line) (r : csv.Reader) :
  validateHeader (csv.NewReader hdf) = (None, r) ->
  exists rows, hdf = header :: rows /\ r = csv.mkReader 5 rows.
Proof.
  destruct hdf as [| [h |] rows]; try discriminate.
  rewrite validateHeader_Fields.
  destruct (Nat.eqb_spec (length h) 5) as [Hlen | Hlen]; cbn [negb]; [| discriminate].
  destruct (headerMismatch_spec headerFormat 0 h Hlen)
    as [[Hn ->] | (k & g & w & _ & _ & _ & _ & He)].
  - intros [= <-]. exists rows. split; reflexivity.
  - rewrite He. discriminate.
Qed.

(** X1. [validateHeader] accepts a file exactly when its first record is
    the five expected column names, and then leaves a reader that expects
    five fields per record. Otherwise it reports, in this order of
    precedence: that the header cannot be read (empty or malformed input),
    that the header has another length, or the first position, from the
    left, at which a name differs, with the name found and the name
    wanted. *)
Theorem validateHeader_cases (hdf : list csv.line) :
  let out := validateHeader (csv.NewReader hdf) in
  (fst out = None <-> exists rows, hdf = csv.Fields headerFormat :: rows)
  /\ (forall rows, hdf = csv.Fields headerFormat :: rows -> snd out = csv.mkReader 5 rows)
  /\ (hdf = [] -> fst out = Some (ErrCannotReadHeader csv.EOF))
  /\ (forall rows, hdf = csv.Malformed :: rows ->
        fst out = Some (ErrCannotReadHeader csv.ErrSyntax))
  /\ (forall h rows, hdf = csv.Fields h :: rows -> length h <> 5%nat ->
        fst out = Some (ErrHeaderLength (length h) 5))
  /\ (forall h rows, hdf = csv.Fields h :: rows -> length h = 5%nat -> h <> headerFormat ->
        exists k got w,
          h !! k = Some got /\ headerFormat !! k = Some w /\ got <> w
          /\ take k h = take k headerFormat
          /\ fst out = Some (ErrHeaderRecord k got w)).
Proof.
  cbv zeta. split; [| split; [| split; [| split; [| split]]]].
  - split.
    + destruct (validateHeader (csv.NewReader hdf)) as [e r] eqn:Hv. cbn [fst].
      intros ->. apply validateHeader_None in Hv as (rows & -> & _). now exists rows.
    + intros [rows ->]. reflexivity.
  - intros rows ->. reflexivity.
  - intros ->. reflexivity.
  - intros rows ->. reflexivity.
  - intros h rows -> Hlen. rewrite validateHeader_Fields.
    apply Nat.eqb_neq in Hlen. rewrite Hlen. reflexivity.
  - intros h rows -> Hlen Hne. rewrite validateHeader_Fields.
    destruct (headerMismatch_spec headerFormat 0 h Hlen)
      as [[_ ->] | (k & g & w & Hk & Hw & Hgw & Htk & He)]; [congruence |].
    apply Nat.eqb_eq in Hlen. rewrite Hlen. cbn [negb fst].
    exists k, g, w. repeat split; assumption.
Qed.

(** ** The pipeline as a whole *)

Section Pipeline.

Variable ParseFloat : string -> option float.

(** What [parseLine] accepts on five fields. *)
Lemma parseLine_inr (i : nat) (f0 f1 f2 f3 f4 : string) (ln : line) :
  parseLine ParseFloat i [f0; f1; f2; f3; f4] = Ret (inr ln) ->
  f3 = wantReadType
  /\ ParseFloat f2 = Some (line_Value ln)
  /\ timeparse.ParseInLocation f4 irelandTimezone = Some (line_EndTime ln)
  /\ line_MPRN ln = f0 /\ line_SerialNumber ln = f1.
Proof.
  unfold parseLine, index, mbind, outcome_bind, obind.
  cbn -[String.eqb wantReadType timeparse.ParseInLocation irelandTimezone].
  destruct (String.eqb_spec f3 wantReadType) as [-> | Hne]; cbn [negb]; [| discriminate].
  destruct (ParseFloat f2) as [v |]; [| discriminate].
  destruct (timeparse.ParseInLocation f4 irelandTimezone) as [t |]; [| discriminate].
  intros [= <-]. repeat split.
Qed.

(** The reading loop behind a valid header never panics. *)
Lemma readData_returns (rows : list csv.line) :
  forall i res, exists x, readData ParseFloat 5 rows i res = Ret x.
Proof.
  induction rows as [| l rows IH]; intros i res; [eexists; reflexivity |].
  cbn [readData].
  destruct (csv.readRecord 5 l) as [[err | record] n] eqn:Hrec; [eexists; reflexivity |].
  apply readRecord_5 in Hrec as (-> & -> & f0 & f1 & f2 & f3 & f4 & ->).
  destruct (parseLine_total ParseFloat i f0 f1 f2 f3 f4) as [[e He] | (v & t & Hp)];
    rewrite ?He, ?Hp; unfold_outcome; [eexists; reflexivity |].
  destruct (i =? 1)%nat; [apply IH |].
  destruct (negb _); [eexists; reflexivity |].
  destruct (negb _); [eexists; reflexivity |].
  apply IH.
Qed.

(** The rows the loop accepts give their values, in order, to the
    readings it appends. *)
Lemma readData_values (rows : list csv.line) :
  forall i res res',
    readData ParseFloat 5 rows i res = Ret (inr res') ->
    exists vs,
      Forall2 (fun l v => rowValue ParseFloat l = Some v) rows vs
      /\ map Value (Reads res') = map Value (Reads res) ++ vs.
Proof.
  induction rows as [| l rows IH]; intros i res res' H.
  - cbn in H. injection H as <-. exists []. split; [constructor |].
    now rewrite app_nil_r.
  - cbn [readData] in H.
    destruct (csv.readRecord 5 l) as [[err | record] n] eqn:Hrec; [discriminate |].
    apply readRecord_5 in Hrec as (-> & -> & f0 & f1 & f2 & f3 & f4 & ->).
    destruct (parseLine ParseFloat i [f0; f1; f2; f3; f4]) as [[e | ln] | msg] eqn:Hp;
      unfold mbind, outcome_bind, obind in H; try discriminate.
    apply parseLine_inr in Hp as (_ & Hv & _).
    assert (Hnext : forall res0,
              readData ParseFloat 5 rows (S i)
                (withReads res0 (Reads res ++ [mkRead (line_Value ln) (line_EndTime ln)]))
              = Ret (inr res') ->
              exists vs,
                Forall2 (fun l v => rowValue ParseFloat l = Some v)
                  (csv.Fields [f0; f1; f2; f3; f4] :: rows) vs
                /\ map Value (Reads res') = map Value (Reads res) ++ vs).
    { intros res0 H0. apply IH in H0 as (vs & Hvs & Hmap).
      exists (line_Value ln :: vs). split.
      - constructor; [| exact Hvs]. cbn. exact Hv.
      - rewrite Hmap. cbn [Reads withReads]. rewrite map_app, <- app_assoc. reflexivity. }
    destruct (i =? 1)%nat.
    { apply (Hnext (mkResult (line_MPRN ln) (line_SerialNumber ln) wantReadType (Reads res))).
      exact H. }
    destruct (negb (MPRN res =? line_MPRN ln)%string); [discriminate |].
    destruct (negb (MeterSerialNumber res =? line_SerialNumber ln)%string); [discriminate |].
    apply (Hnext res). exact H.
Qed.

(** What a successful ingestion went through. *)
Lemma ingest_inr (hdf : list csv.line) (res : Result) :
  ingest ParseFloat hdf = Ret (inr res) ->
  exists rows res0,
    hdf = header :: rows
    /\ readData ParseFloat 5 rows 1 emptyResult = Ret (inr res0)
    /\ res = fst (fixTimezone (withReads res0 (rev (Reads res0)))).
Proof.
  unfold ingest.
  destruct (validateHeader (csv.NewReader hdf)) as [[err |] r] eqn:Hv; [discriminate |].
  apply validateHeader_None in Hv as (rows & -> & ->).
  cbn [csv.FieldsPerRecord csv.input].
  destruct (readData ParseFloat 5 rows 1 emptyResult) as [[e | res0] | msg] eqn:Hrd;
    unfold_outcome; try discriminate.
  intros [= <-]. exists rows, res0. split; [reflexivity |]. split; [exact Hrd | reflexivity].
Qed.

Lemma ingest_returns (hdf : list csv.line) : exists x, ingest ParseFloat hdf = Ret x.
Proof.
  unfold ingest.
  destruct (validateHeader (csv.NewReader hdf)) as [[err |] r] eqn:Hv; [eexists; reflexivity |].
  apply validateHeader_None in Hv as (rows & -> & ->).
  cbn [csv.FieldsPerRecord csv.input].
  destruct (readData_returns rows 1 emptyResult) as [[e | res0] ->];
    unfold_outcome; eexists; reflexivity.
Qed.

(** The values of an ingested series are those of the rows, last row
    first. *)
Lemma ingest_values (rows : list csv.line) (res : Result) :
  ingest ParseFloat (header :: rows) = Ret (inr res) ->
  Forall2 (fun l v => rowValue ParseFloat l = Some v) rows (rev (map Value (Reads res))).
Proof.
  intros H. apply ingest_inr in H as (rows' & res0 & [= <-] & Hrd & ->).
  apply readData_values in Hrd as (vs & Hvs & Hmap). cbn [Reads emptyResult map app] in Hmap.
  rewrite fixTimezone_Reads. unfold fixTimezoneLoop.
  rewrite (foldl_values _ fixTimezoneStep_values). cbn [fst Reads withReads].
  rewrite map_rev, rev_involutive, Hmap. exact Hvs.
Qed.

End Pipeline.

(** A successful run of [splitTimes] met readings each later than the one
    before it. *)
Lemma splitRun_inr_ascending (res : Result) (reads : list Read) :
  forall prev done cur st,
    noZero (prev :: reads) ->
    splitRun res reads (map (withReads res) (done ++ [cur])) (length done) (EndTime prev)
    = inr st ->
    ascendingFrom prev reads.
Proof.
  induction reads as [| r reads IH]; intros prev done cur st Hnz H; [exact I |].
  apply Forall_cons in Hnz as [Hzp Hnz].
  cbn [splitRun] in H. rewrite splitStep_runs in H.
  destruct (isHalfSharp (EndTime r)); [discriminate |].
  rewrite Hzp in H. cbn [orb] in H. cbn [ascendingFrom].
  destruct (Z.eqb_spec (elapsed (EndTime r) (EndTime prev)) (30 * Minute)) as [He | He].
  - split; [rewrite He; reflexivity |]. now apply (IH r done (cur ++ [r]) st).
  - destruct (Z.leb_spec (elapsed (EndTime r) (EndTime prev)) 0) as [Hle | Hgt];
      [discriminate |].
    split; [exact Hgt |]. now apply (IH r (done ++ [cur]) [r] st).
Qed.

(** [splitTimes] succeeds only on aligned, ascending readings, and then
    returns their runs. *)
Lemma splitTimes_success (res : Result) :
  noZero (Reads res) ->
  snd (splitTimes res) = None ->
  Forall (fun r => aligned (EndTime r)) (Reads res)
  /\ ascending (Reads res)
  /\ splitTimes res = (map (withReads res) (runs (Reads res)), None).
Proof.
  intros Hnz Hs.
  assert (Hal : Forall (fun r => aligned (EndTime r)) (Reads res)
                /\ ascending (Reads res)).
  { apply splitTimes_None in Hs as [[[rr' idx'] lastTs'] Hrun].
    split.
    - now apply (splitRun_inr res (Reads res) [] []) in Hrun as (_ & _ & _ & _ & _ & Ha).
    - destruct (Reads res) as [| first rest]; [exact I |].
      cbn [splitRun] in Hrun.
      change [shallowCopyResult res] with (map (withReads res) ([] ++ [[]])) in Hrun.
      change 0%nat with (length (@nil (list Read))) in Hrun.
      rewrite splitStep_runs in Hrun.
      destruct (isHalfSharp (EndTime first)); [discriminate |].
      change (IsZero zeroTime) with true in Hrun. cbn [orb app] in Hrun.
      now apply (splitRun_inr_ascending res rest first [] [first]) in Hrun. }
  destruct Hal as [Hal Hasc]. repeat split; try assumption.
  now apply splitTimes_ascending.
Qed.

Lemma runsFrom_nonempty (reads : list Read) :
  forall prev done cur,
    Forall (fun s => s <> []) done -> cur <> [] ->
    Forall (fun s => s <> []) (runsFrom prev done cur reads).
Proof.
  induction reads as [| r reads IH]; intros prev done cur Hd Hc.
  - cbn. apply Forall_app. split; [exact Hd | now constructor].
  - cbn [runsFrom]. destruct (_ =? _).
    + apply IH; [exact Hd | now destruct cur].
    + apply IH; [| discriminate]. apply Forall_app. split; [exact Hd | now constructor].
Qed.

Lemma chained_tail (r : Read) (rest : list Read) : chained (r :: rest) -> chained rest.
Proof. destruct rest as [| r1 rest]; [easy |]. cbn. tauto. Qed.

Lemma chained_retained (reads : list Read) : chained reads -> chained (retained reads).
Proof.
  destruct reads as [| r rest]; [easy |]. unfold retained.
  destruct (isRound (EndTime r)); [apply chained_tail | easy].
Qed.

(** What a successful [HDF] went through: the ingested series is free of
    the zero time, aligned and ascending, and the segments are its runs. *)
Lemma HDF_success (ParseFloat : string -> option float) (hdf : list csv.line)
    (segs : list Result) :
  HDF ParseFloat hdf = Ret (segs, None) ->
  exists res,
    ingest ParseFloat hdf = Ret (inr res)
    /\ Forall (fun r => aligned (EndTime r)) (Reads res)
    /\ ascending (Reads res)
    /\ segs = map (withReads res) (runs (Reads res)).
Proof.
  unfold HDF.
  destruct (ingest ParseFloat hdf) as [[err | res] | msg] eqn:Hin;
    unfold_outcome; try discriminate.
  intros [= Hs]. exists res. split; [reflexivity |].
  pose proof (ingest_noZero ParseFloat hdf res Hin) as Hnz.
  destruct (splitTimes_success res Hnz) as (Hal & Hasc & Heq); [now rewrite Hs |].
  repeat split; try assumption. rewrite Heq in Hs. now injection Hs.
Qed.

(** The segments of a successful [HDF]: chains of 30-minute steps, none of
    them empty unless the file has no data row. *)
Lemma HDF_success_segments (ParseFloat : string -> option float) (hdf : list csv.line)
    (segs : list Result) :
  HDF ParseFloat hdf = Ret (segs, None) ->
  Forall (fun seg => chained (Reads seg)) segs
  /\ ((hdf = [header] /\ segs = [emptyResult])
      \/ (hdf <> [header] /\ segs <> [] /\ Forall (fun seg => Reads seg <> []) segs)).
Proof.
  intros H. pose proof H as H0.
  apply HDF_success in H as (res & Hin & _ & _ & ->).
  split.
  { destruct (runs_spec (Reads res)) as (_ & Hch & _).
    apply Forall_forall. intros seg Hin'.
    apply list_elem_of_fmap in Hin' as (l & -> & Hl). cbn [Reads withReads].
    rewrite Forall_forall in Hch. now apply Hch. }
  pose proof Hin as Hin'.
  apply ingest_inr in Hin' as (rows & res0 & -> & _ & _).
  pose proof (ingest_values ParseFloat rows res Hin) as Hv.
  apply Forall2_length in Hv. rewrite length_rev, length_map in Hv.
  destruct (Reads res) as [| r rest] eqn:Hreads.
  - left. destruct rows; [| discriminate]. split; [reflexivity |].
    change (HDF ParseFloat [header])
      with (@Ret (list Result * option error) ([emptyResult], None)) in H0.
    congruence.
  - right. split; [destruct rows; [discriminate | congruence] |].
    assert (Hne : Forall (fun s : list Read => s <> []) (runs (r :: rest))).
    { cbn [runs]. apply runsFrom_nonempty; [constructor | discriminate]. }
    split.
    + destruct (runs_spec (r :: rest)) as (_ & _ & _ & Hf).
      destruct (Hf r rest eq_refl) as (s & sg & Hs). rewrite Hs. discriminate.
    + apply Forall_forall. intros seg Hseg.
      apply list_elem_of_fmap in Hseg as (l & -> & Hl). cbn [Reads withReads].
      rewrite Forall_forall in Hne. now apply Hne.
Qed.

Lemma HDF_returns (ParseFloat : string -> option float) (hdf : list csv.line) :
  exists segs e, HDF ParseFloat hdf = Ret (segs, e).
Proof.
  unfold HDF. destruct (ingest_returns ParseFloat hdf) as [[err | res] ->]; unfold_outcome.
  - now exists [], (Some err).
  - destruct (splitTimes res) as [segs e]. now exists segs, e.
Qed.

(** X2. [HDF] never panics: although [parseLine] indexes the five fields
    of a record without checking its length, the header check and the
    field-count rule of the reader leave it only records of five fields;
    whatever the file and whatever [strconv.ParseFloat] answers, [HDF]
    returns. *)
Theorem HDF_never_panics (ParseFloat : string -> option float) (hdf : list csv.line) :
  exists segs e, HDF ParseFloat hdf = Ret (segs, e).
Proof.
  unfold HDF. destruct (ingest_returns ParseFloat hdf) as [[err | res] Hin]; rewrite Hin.
  - exists [], (Some err). reflexivity.
  - unfold_outcome. destruct (splitTimes res) as [segs e] eqn:Hs.
    exists segs, e. reflexivity.
Qed.

(** X3. No reading is lost, repeated or altered in value: when [HDF]
    succeeds, the values of the readings of its segments, put end to end
    and read backwards, are the values of the data rows of the file, row
    by row (the file lists the newest reading first, the segments the
    oldest first). *)
Theorem HDF_values (ParseFloat : string -> option float) (first : csv.line)
    (rows : list csv.line) (segs : list Result) :
  HDF ParseFloat (first :: rows) = Ret (segs, None) ->
  Forall2 (fun l v => rowValue ParseFloat l = Some v) rows
    (rev (map Value (concat (map Reads segs)))).
Proof.
  intros H. apply HDF_success in H as (res & Hin & _ & _ & ->).
  pose proof Hin as Hin'.
  apply ingest_inr in Hin' as (rows' & res0 & [= -> <-] & _ & _).
  rewrite map_Reads_withReads.
  destruct (runs_spec (Reads res)) as (Hc & _). rewrite Hc.
  now apply ingest_values.
Qed.

Lemma HDF_values_witness :
  Forall2 (fun l v => rowValue sampleParseFloat l = Some v)
    [ row "0.1" "16-01-2023 03:00"; row "0.1" "16-01-2023 02:30";
      row "0.1" "15-01-2023 23:30"; row "0.1" "15-01-2023 23:00";
      row "0.1" "15-01-2023 22:30" ]
    (rev (map Value (concat (map Reads
       [ series [ mkRead 0x1.999999999999ap-4 (at_ 2023 1 15 22 30);
                  mkRead 0x1.999999999999ap-4 (at_ 2023 1 15 23 0);
                  mkRead 0x1.999999999999ap-4 (at_ 2023 1 15 23 30) ];
         series [ mkRead 0x1.999999999999ap-4 (at_ 2023 1 16 2 30);
                  mkRead 0x1.999999999999ap-4 (at_ 2023 1 16 3 0) ] ])))).
Proof.
  apply (HDF_values sampleParseFloat header). vm_compute. reflexivity.
Defined.

(** X4. When [HDF] succeeds, every reading it returns is aligned on the
    hour or the half hour, the readings of all the segments put end to end
    are strictly ascending in time, every segment is a chain of steps of
    exactly 30 minutes, and two consecutive segments are separated by a
    gap, a positive time other than 30 minutes. *)
Theorem HDF_segments_shape (ParseFloat : string -> option float) (hdf : list csv.line)
    (segs : list Result) :
  HDF ParseFloat hdf = Ret (segs, None) ->
  Forall (fun r => aligned (EndTime r)) (concat (map Reads segs))
  /\ ascending (concat (map Reads segs))
  /\ Forall (fun seg => chained (Reads seg)) segs
  /\ gaps (map Reads segs).
Proof.
  intros H. apply HDF_success in H as (res & _ & Hal & Hasc & ->).
  rewrite map_Reads_withReads.
  destruct (runs_spec (Reads res)) as (Hc & Hch & Hg & _). rewrite Hc.
  repeat split; try assumption; [| now apply Hg].
  apply Forall_forall. intros seg Hin.
  apply list_elem_of_fmap in Hin as (l & -> & Hl). cbn [Reads withReads].
  rewrite Forall_forall in Hch. now apply Hch.
Qed.

Lemma HDF_segments_shape_witness :
  Forall (fun seg => chained (Reads seg))
    [ series [ mkRead 0x1.999999999999ap-4 (at_ 2023 1 15 22 30);
               mkRead 0x1.999999999999ap-4 (at_ 2023 1 15 23 0);
               mkRead 0x1.999999999999ap-4 (at_ 2023 1 15 23 30) ];
      series [ mkRead 0x1.999999999999ap-4 (at_ 2023 1 16 2 30);
               mkRead 0x1.999999999999ap-4 (at_ 2023 1 16 3 0) ] ].
Proof.
  refine (proj1 (proj2 (proj2 (HDF_segments_shape sampleParseFloat holedFile _ _)))).
  vm_compute. reflexivity.
Defined.

(** X5. The "nothing to upload" branch of [parseAndUpload] cannot be
    taken: a successful [HDF] returns at least one segment. A file with no
    data row gives the single empty segment; any other file gives segments
    that all hold at least one reading. *)
Theorem HDF_segments_nonempty (ParseFloat : string -> option float) (hdf : list csv.line)
    (segs : list Result) :
  HDF ParseFloat hdf = Ret (segs, None) ->
  segs <> []
  /\ ((hdf = [header] /\ segs = [emptyResult])
      \/ (hdf <> [header] /\ Forall (fun seg => Reads seg <> []) segs)).
Proof.
  intros H. destruct (HDF_success_segments ParseFloat hdf segs H) as [_ Hne].
  destruct Hne as [[-> ->] | (Hh & Hs & Hall)].
  - split; [discriminate |]. left. split; reflexivity.
  - split; [exact Hs |]. right. split; assumption.
Qed.

Lemma HDF_segments_nonempty_witness :
  [ series [ mkRead 0x1.999999999999ap-4 (at_ 2023 1 15 22 30);
             mkRead 0x1.999999999999ap-4 (at_ 2023 1 15 23 0);
             mkRead 0x1.999999999999ap-4 (at_ 2023 1 15 23 30) ];
    series [ mkRead 0x1.999999999999ap-4 (at_ 2023 1 16 2 30);
             mkRead 0x1.999999999999ap-4 (at_ 2023 1 16 3 0) ] ] <> [].
Proof.
  refine (proj1 (HDF_segments_nonempty sampleParseFloat holedFile _ _)).
  vm_compute. reflexivity.
Defined.

(** X6. On the segments of a successful [HDF] the spacing check of
    [Translate] never fails. [Translate] returns "not enough data" exactly
    for the file without data rows, which is its only error; it panics
    exactly on a segment made of a single reading on the hour, with "index
    out of range"; and on every other segment it returns statistics without
    error, one for every two readings retained after the first. *)
Theorem Translate_after_HDF (ParseFloat : string -> option float) (hdf : list csv.line)
    (segs : list Result) (seg : Result) :
  HDF ParseFloat hdf = Ret (segs, None) ->
  seg ∈ segs ->
  (Translate seg = Ret (ha.mkStatistics translateMetadata [], Some ErrNotEnoughData)
   <-> hdf = [header])
  /\ (forall st e, Translate seg = Ret (st, Some e) -> e = ErrNotEnoughData)
  /\ (Translate seg = Panic "index out of range" <-> singleRound seg)
  /\ (forall msg, Translate seg = Panic msg -> singleRound seg)
  /\ (hdf <> [header] -> ~ singleRound seg ->
      exists stats,
        Translate seg = Ret (ha.mkStatistics translateMetadata stats, None)
        /\ length stats = ((length (retained (Reads seg)) - 1) / 2)%nat).
Proof.
  intros H Hseg.
  destruct (HDF_success_segments ParseFloat hdf segs H) as [Hch Hne].
  rewrite Forall_forall in Hch. specialize (Hch seg Hseg).
  destruct Hne as [[-> ->] | (Hhdf & _ & Hne)].
  - apply list_elem_of_singleton in Hseg. subst seg.
    assert (HT : Translate emptyResult
                 = Ret (ha.mkStatistics translateMetadata [], Some ErrNotEnoughData))
      by reflexivity.
    assert (Hns : ~ singleRound emptyResult) by (intros (r & Hr & _); discriminate).
    split; [split; [reflexivity | intros _; exact HT] |].
    split; [rewrite HT; intros st e [= _ <-]; reflexivity |].
    split; [split; [rewrite HT; discriminate | intros Hs; now destruct Hns] |].
    split; [intros msg; rewrite HT; discriminate |].
    intros Hh. now destruct Hh.
  - rewrite Forall_forall in Hne. specialize (Hne seg Hseg).
    destruct (retained (Reads seg)) as [| r0 tl] eqn:Hret.
    + assert (Hs : singleRound seg).
      { destruct (Reads seg) as [| r rest] eqn:Hreads; [congruence |].
        unfold retained in Hret. destruct (isRound (EndTime r)) eqn:Hr; [| discriminate].
        subst rest. exists r. split; [exact Hreads | exact Hr]. }
      assert (HT : Translate seg = Panic "index out of range").
      { rewrite Translate_retained, Hret. destruct (Reads seg); [congruence | reflexivity]. }
      split; [split; [rewrite HT; discriminate | intros E; now destruct Hhdf] |].
      split; [rewrite HT; discriminate |].
      split; [split; [intros _; exact Hs | intros _; exact HT] |].
      split; [intros _ _; exact Hs |].
      intros _ Hns. now destruct Hns.
    + assert (HT : Translate seg
                   = Ret (ha.mkStatistics translateMetadata (translateStats (r0 :: tl)), None)).
      { apply Translate_chained; [exact Hret |]. rewrite <- Hret. now apply chained_retained. }
      assert (Hns : ~ singleRound seg).
      { intros (r & Hr & Hround). rewrite Hr in Hret. unfold retained in Hret.
        rewrite Hround in Hret. discriminate. }
      split; [split; [rewrite HT; discriminate | intros E; now destruct Hhdf] |].
      split; [rewrite HT; discriminate |].
      split; [split; [rewrite HT; discriminate | intros Hs; now destruct Hns] |].
      split; [intros msg; rewrite HT; discriminate |].
      intros _ _. exists (translateStats (r0 :: tl)).
      split; [exact HT | apply translateStats_length].
Qed.

(** The theorem on the file with the single row of 23:00: its only segment
    is a single reading on the hour, and [Translate] panics on it. *)
Lemma Translate_after_HDF_witness :
  HDF sampleParseFloat onTheHourFile = Ret ([series onTheHour], None)
  /\ singleRound (series onTheHour)
  /\ Translate (series onTheHour) = Panic "index out of range".
Proof.
  assert (H : HDF sampleParseFloat onTheHourFile = Ret ([series onTheHour], None))
    by (vm_compute; reflexivity).
  assert (Hs : singleRound (series onTheHour)).
  { exists (mkRead 0x1.999999999999ap-4 (at_ 2023 1 15 23 0)).
    split; vm_compute; reflexivity. }
  split; [exact H |]. split; [exact Hs |].
  refine (proj2 (proj1 (proj2 (proj2
            (Translate_after_HDF sampleParseFloat onTheHourFile
               [series onTheHour] (series onTheHour) H _)))) Hs).
  left.
Defined.

(** ** Chains of 30-minute steps *)

Lemma chainedAfter_lookup (l : list Read) : forall t i a b,
  chainedAfter t l -> l !! i = Some a -> l !! S i = Some b ->
  elapsed (EndTime b) (EndTime a) = 30 * Minute.
Proof.
  induction l as [| r rest IH]; intros t i a b Hc Ha Hb; [discriminate |].
  destruct Hc as [_ Hc]. destruct i as [| i].
  - injection Ha as <-. destruct rest as [| r1 rest]; [discriminate |].
    injection Hb as <-. exact (proj1 Hc).
  - exact (IH (EndTime r) i a b Hc Ha Hb).
Qed.

Lemma chained_lookup (l : list Read) (i : nat) (a b : Read) :
  chained l -> l !! i = Some a -> l !! S i = Some b ->
  elapsed (EndTime b) (EndTime a) = 30 * Minute.
Proof.
  destruct l as [| r rest]; [discriminate |]. cbn [chained]. intros Hc Ha Hb.
  destruct i as [| i].
  - injection Ha as <-. destruct rest as [| r1 rest]; [discriminate |].
    injection Hb as <-. exact (proj1 Hc).
  - exact (chainedAfter_lookup rest (EndTime r) i a b Hc Ha Hb).
Qed.

(** In a chain the reading [k] places after another is [k] half hours
    later. *)
Lemma chained_offset (l : list Read) (i k : nat) (a b : Read) :
  chained l -> l !! i = Some a -> l !! (i + k)%nat = Some b ->
  unixNano (EndTime b) = unixNano (EndTime a) + Z.of_nat k * (30 * Minute).
Proof.
  intros Hc Ha. revert b. induction k as [| k IH]; intros b Hb.
  - rewrite Nat.add_0_r in Hb. assert (a = b) by congruence. subst b. lia.
  - replace (i + S k)%nat with (S (i + k)) in Hb by lia.
    destruct (lookup_lt_is_Some_2 l (i + k)) as [c Hck].
    { apply lookup_lt_Some in Hb. lia. }
    pose proof (chained_lookup l (i + k) c b Hc Hck Hb) as He.
    specialize (IH c Hck). unfold elapsed in He. lia.
Qed.

(** X7. [fixTimezone] never alters a series that is already consistent:
    when the readings, all presented in one location, are exactly 30
    minutes apart, the pass returns the series as it was. *)
Theorem fixTimezone_chained_unchanged (res : Result) (l : Location) :
  chained (Reads res) ->
  Forall (fun r => loc (EndTime r) = l) (Reads res) ->
  fst (fixTimezone res) = res.
Proof.
  intros Hc Hloc.
  assert (Hall : forall i r, Reads res !! i = Some r ->
            Reads (fst (fixTimezone res)) !! i = Some r).
  { induction i as [i IH] using lt_wf_ind. intros r Hr.
    destruct (fixTimezone_loop_at res i r Hr) as (reads & logs & Hout & Hi & Hi2 & Him2).
    rewrite Hout. unfold fixTimezoneStep. rewrite Hi.
    destruct (negb (String.eqb (fst (Zone (EndTime r))) "GMT")); [exact Hi |].
    destruct (i + 2 <? length (Reads res))%nat.
    - rewrite Hi2. destruct (Reads res !! (i + 2)%nat) as [r2 |] eqn:H2; [| exact Hi].
      pose proof (chained_offset (Reads res) i 2 r r2 Hc Hr H2) as Ho.
      assert (Hne : Equal (EndTime r2) (EndTime r) = false).
      { unfold Equal. apply Z.eqb_neq. rewrite Ho, Minute_value. lia. }
      rewrite Hne. exact Hi.
    - destruct (Nat.leb_spec 2 i) as [H2i | H2i]; [| exact Hi].
      rewrite (Him2 H2i).
      destruct (lookup_lt_is_Some_2 (Reads res) (i - 2)) as [r0 Hr0].
      { apply lookup_lt_Some in Hr. lia. }
      rewrite (IH (i - 2)%nat ltac:(lia) r0 Hr0).
      assert (Hr' : Reads res !! (i - 2 + 2)%nat = Some r)
        by (replace (i - 2 + 2)%nat with i by lia; exact Hr).
      pose proof (chained_offset (Reads res) (i - 2) 2 r0 r Hc Hr0 Hr') as Ho.
      rewrite Forall_forall in Hloc.
      pose proof (Hloc r0 (list_elem_of_lookup_2 _ _ _ Hr0)) as Hl0.
      pose proof (Hloc r (list_elem_of_lookup_2 _ _ _ Hr)) as Hl.
      assert (Hz : Zone (Add (EndTime r0) Hour) = Zone (EndTime r)).
      { unfold Zone, Add, Unix. cbn [loc unixNano]. rewrite Hl0, Hl.
        replace (unixNano (EndTime r0) + Hour) with (unixNano (EndTime r))
          by (rewrite Ho, Hour_value, Minute_value; lia).
        reflexivity. }
      rewrite Hz, Z.eqb_refl. exact Hi. }
  assert (Hreads : Reads (fst (fixTimezone res)) = Reads res).
  { apply list_eq. intros i. destruct (Reads res !! i) as [r |] eqn:Hr.
    - now apply Hall.
    - apply lookup_ge_None. apply lookup_ge_None in Hr.
      rewrite fixTimezone_Reads. unfold fixTimezoneLoop.
      rewrite <- (length_map Value), (foldl_values _ fixTimezoneStep_values), length_map.
      exact Hr. }
  destruct (fixTimezone_identity res) as (H1 & H2 & H3).
  destruct (fst (fixTimezone res)) as [m s t rs], res as [m' s' t' rs'].
  cbn in *. congruence.
Qed.

Lemma fixTimezone_chained_unchanged_witness :
  fst (fixTimezone (series evening)) = series evening.
Proof.
  apply (fixTimezone_chained_unchanged (series evening) EuropeDublin).
  - vm_compute. repeat split.
  - repeat constructor.
Defined.

(** ** The start of each statistic *)

(** Where the statistics of a chained segment start: the [k]-th at the
    reading of index [2k+1] of the segment, or [2k+2] when the first
    reading, on the hour, was trimmed. *)
Lemma Translate_starts (raw : Result) (first : Read) (rest : list Read) :
  Reads raw = first :: rest ->
  chained (first :: rest) ->
  (rest = [] -> isRound (EndTime first) = false) ->
  Translate raw
  = Ret (ha.mkStatistics translateMetadata (translateStats (retained (first :: rest))), None)
  /\ forall k s, translateStats (retained (first :: rest)) !! k = Some s ->
       exists prev,
         (first :: rest) !! (2 * k + (if isRound (EndTime first) then 2 else 1))%nat = Some prev
         /\ ha.Start s = EndTime prev.
Proof.
  intros Hreads Hc Hsingle.
  destruct (retained (first :: rest)) as [| r0 tl] eqn:Hret.
  { exfalso. unfold retained in Hret.
    destruct (isRound (EndTime first)) eqn:Hr; [| discriminate].
    subst rest. specialize (Hsingle eq_refl). congruence. }
  split.
  { apply Translate_chained; [now rewrite Hreads |].
    rewrite <- Hret. now apply chained_retained. }
  intros k s Hs.
  apply translateStats_lookup in Hs as (prev & trigger & Hp & _ & Hstart & _).
  exists prev. split; [| exact Hstart].
  unfold retained in Hret.
  destruct (isRound (EndTime first)).
  - subst rest. replace (2 * k + 2)%nat with (S (2 * k + 1)) by lia. exact Hp.
  - rewrite <- Hret in Hp. exact Hp.
Qed.

(** X8. The statistics of a segment start on the hour, one hour apart:
    when the readings of the segment are exactly 30 minutes apart, the
    first one falls on a multiple of 30 minutes and the segment is not a
    single reading on the hour, [Translate] returns, without error, one
    statistic for every two readings retained after the first; every
    statistic starts on an exact hour (in the sense of [isRound]), each one
    exactly one hour after the one before it, and the first one starts 30
    minutes after the first reading of the segment, or one hour after it
    when that reading is itself on the hour. *)
Theorem Translate_starts_on_the_hour (raw : Result) (first : Read) (rest : list Read) :
  Reads raw = first :: rest ->
  chained (first :: rest) ->
  unixNano (EndTime first) `mod` (30 * Minute) = 0 ->
  (rest = [] -> isRound (EndTime first) = false) ->
  exists stats,
    Translate raw = Ret (ha.mkStatistics translateMetadata stats, None)
    /\ length stats = ((length (retained (first :: rest)) - 1) / 2)%nat
    /\ Forall (fun s => isRound (ha.Start s) = true) stats
    /\ (forall k s s', stats !! k = Some s -> stats !! S k = Some s' ->
          elapsed (ha.Start s') (ha.Start s) = Hour)
    /\ (forall s, stats !! 0%nat = Some s ->
          elapsed (ha.Start s) (EndTime first)
          = if isRound (EndTime first) then Hour else 30 * Minute).
Proof.
  intros Hreads Hc Hmod Hsingle.
  destruct (Translate_starts raw first rest Hreads Hc Hsingle) as [HT Hst].
  set (stats := translateStats (retained (first :: rest))) in *.
  exists stats.
  assert (Hoff : forall k s, stats !! k = Some s ->
            unixNano (ha.Start s)
            = unixNano (EndTime first)
              + Z.of_nat (2 * k + (if isRound (EndTime first) then 2 else 1)) * (30 * Minute)).
  { intros k s Hs. destruct (Hst k s Hs) as (prev & Hp & ->).
    apply (chained_offset (first :: rest) 0 _ first prev Hc eq_refl Hp). }
  split; [exact HT |].
  split; [apply translateStats_length |].
  split; [| split].
  - apply Forall_forall. intros s Hin. apply list_elem_of_lookup in Hin as [k Hs].
    rewrite isRound_spec. apply Z.eqb_eq. rewrite (Hoff k s Hs).
    pose proof (isRound_spec (EndTime first)) as Hr.
    rewrite Hour_value, Minute_value in *.
    set (x := unixNano (EndTime first)) in *.
    destruct (isRound (EndTime first)).
    + symmetry in Hr. apply Z.eqb_eq in Hr.
      pose proof (Z.div_mod x 3600000000000 ltac:(lia)) as Hx.
      replace (x + Z.of_nat (2 * k + 2) * (30 * 60000000000))
        with ((x `div` 3600000000000 + Z.of_nat k + 1) * 3600000000000) by lia.
      apply Z.mod_mul. lia.
    + symmetry in Hr. apply Z.eqb_neq in Hr.
      pose proof (Z.div_mod x (30 * 60000000000) ltac:(lia)) as Hx.
      set (q := x `div` (30 * 60000000000)) in *.
      pose proof (Z.div_mod q 2 ltac:(lia)) as Hq.
      pose proof (Z.mod_pos_bound q 2 ltac:(lia)) as Hb.
      assert (Hodd : q `mod` 2 = 1).
      { destruct (Z.eq_dec (q `mod` 2) 0) as [H0 | H0]; [| lia].
        exfalso. apply Hr.
        replace x with ((q `div` 2) * 3600000000000) by lia.
        apply Z.mod_mul. lia. }
      replace (x + Z.of_nat (2 * k + 1) * (30 * 60000000000))
        with ((q `div` 2 + Z.of_nat k + 1) * 3600000000000) by lia.
      apply Z.mod_mul. lia.
  - intros k s s' Hs Hs'. unfold elapsed.
    rewrite (Hoff k s Hs), (Hoff (S k) s' Hs'), Hour_value, Minute_value. lia.
  - intros s Hs. unfold elapsed. rewrite (Hoff 0%nat s Hs), Hour_value, Minute_value.
    destruct (isRound (EndTime first)); lia.
Qed.

Lemma Translate_starts_on_the_hour_witness :
  exists stats,
    Translate (series evening) = Ret (ha.mkStatistics translateMetadata stats, None)
    /\ length stats = 1%nat
    /\ Forall (fun s => isRound (ha.Start s) = true) stats.
Proof.
  destruct (Translate_starts_on_the_hour (series evening)
              (mkRead 0.5 (at_ 2023 1 15 22 0))
              [ mkRead 0.25 (at_ 2023 1 15 22 30); mkRead 0.75 (at_ 2023 1 15 23 0);
                mkRead 1 (at_ 2023 1 15 23 30) ])
    as (stats & HT & Hlen & Hround & _).
  - reflexivity.
  - vm_compute. repeat split.
  - vm_compute. reflexivity.
  - discriminate.
  - exists stats. split; [exact HT |]. split; [exact Hlen | exact Hround].
Defined.

(** ** The validation of the earlier revision *)

Lemma validateLoop_spec (reads : list Read) : forall lastTs,
  noZero reads ->
  Legacy.validateLoop reads lastTs = None
  <-> Forall (fun r => aligned (EndTime r)) reads
      /\ (if IsZero lastTs then chained reads else chainedAfter lastTs reads).
Proof.
  induction reads as [| r reads IH]; intros lastTs Hnz.
  - cbn. destruct (IsZero lastTs); repeat split; constructor.
  - apply Forall_cons in Hnz as [Hz Hnz]. cbn [Legacy.validateLoop].
    destruct (isHalfSharp (EndTime r)) as [err |] eqn:Hh.
    { split; [discriminate |]. intros [Hal _]. apply Forall_cons in Hal as [Ha _].
      apply isHalfSharp_None in Ha. congruence. }
    apply isHalfSharp_None in Hh. rewrite Minutes_Sub_30.
    specialize (IH (EndTime r) Hnz). rewrite Hz in IH.
    destruct (IsZero lastTs); cbn [negb andb chained chainedAfter].
    + rewrite IH. rewrite Forall_cons. tauto.
    + destruct (Z.eqb_spec (elapsed (EndTime r) lastTs) (30 * Minute)) as [He | He];
        cbn [negb].
      * rewrite IH. rewrite Forall_cons. tauto.
      * split; [discriminate |]. intros [_ [He' _]]. contradiction.
Qed.

Lemma chainedAfter_ascending (reads : list Read) : forall prev,
  chainedAfter (EndTime prev) reads -> ascendingFrom prev reads.
Proof.
  induction reads as [| r reads IH]; intros prev Hc; [exact I |].
  destruct Hc as [He Hc]. split; [rewrite He; reflexivity | now apply IH].
Qed.

Lemma runsFrom_chained (reads : list Read) : forall prev done cur,
  chainedAfter (EndTime prev) reads ->
  runsFrom prev done cur reads = done ++ [cur ++ reads].
Proof.
  induction reads as [| r reads IH]; intros prev done cur Hc.
  - cbn. now rewrite app_nil_r.
  - destruct Hc as [He Hc]. cbn [runsFrom]. rewrite He, Z.eqb_refl.
    rewrite (IH r done (cur ++ [r]) Hc), <- app_assoc. reflexivity.
Qed.

Lemma withReads_Reads (res : Result) : withReads res (Reads res) = res.
Proof. now destruct res. Qed.

(** X9. The validation of the earlier revision, on a series free of the
    zero time: [validateTimes] accepts it exactly when every reading is
    aligned on the hour or the half hour and consecutive readings are
    exactly 30 minutes apart; and these are exactly the series that the
    current [splitTimes] returns whole, as one segment, so the current
    revision accepts whatever the earlier one accepted and differs only on
    series with gaps. *)
Theorem validateTimes_accepts (res : Result) :
  noZero (Reads res) ->
  (Legacy.validateTimes res = None
   <-> Forall (fun r => aligned (EndTime r)) (Reads res) /\ chained (Reads res))
  /\ (Legacy.validateTimes res = None <-> splitTimes res = ([res], None)).
Proof.
  intros Hnz.
  assert (H1 : Legacy.validateTimes res = None
               <-> Forall (fun r => aligned (EndTime r)) (Reads res) /\ chained (Reads res)).
  { unfold Legacy.validateTimes. rewrite (validateLoop_spec (Reads res) zeroTime Hnz).
    reflexivity. }
  split; [exact H1 |]. rewrite H1. split.
  - intros [Hal Hc].
    rewrite splitTimes_ascending; try assumption.
    + f_equal. destruct (Reads res) as [| r rest] eqn:Hreads.
      * cbn. rewrite <- Hreads. now rewrite withReads_Reads.
      * cbn [runs]. rewrite (runsFrom_chained rest r [] [r] Hc). cbn [app map].
        rewrite <- Hreads. now rewrite withReads_Reads.
    + destruct (Reads res) as [| r rest]; [exact I |]. now apply chainedAfter_ascending.
  - intros Hs.
    destruct (splitTimes_success res Hnz) as (Hal & _ & Heq); [now rewrite Hs |].
    split; [exact Hal |].
    rewrite Heq in Hs. injection Hs as Hs.
    apply (f_equal (map Reads)) in Hs. rewrite map_Reads_withReads in Hs. cbn [map] in Hs.
    destruct (runs_spec (Reads res)) as (_ & Hch & _).
    rewrite Hs in Hch. now apply Forall_cons in Hch as [Hch _].
Qed.

Lemma validateTimes_accepts_witness :
  Legacy.validateTimes (series evening) = None
  <-> splitTimes (series evening) = ([series evening], None).
Proof.
  refine (proj2 (validateTimes_accepts (series evening) _)).
  repeat constructor.
Defined.

(** ** The connection to Home Assistant *)

Module haclient_facts.
Import websocket haclient.

Lemma Read_sent (c : Conn) : sent (snd (Read c)) = sent c.
Proof. destruct c as [u inb refs snt [cl |]], inb; reflexivity. Qed.

Lemma Read_closed (c : Conn) : closed (snd (Read c)) = closed c.
Proof. destruct c as [u inb refs snt [cl |]], inb; reflexivity. Qed.

Lemma Write_sent (c : Conn) (m : outgoing) :
  sent (snd (Write c m)) = if fst (Write c m) then sent c ++ [m] else sent c.
Proof. destruct c as [u inb [| [] refs] snt [cl |]]; reflexivity. Qed.

Lemma Write_closed (c : Conn) (m : outgoing) : closed (snd (Write c m)) = closed c.
Proof. destruct c as [u inb [| [] refs] snt [cl |]]; reflexivity. Qed.

Lemma Write_ok (c : Conn) (m : outgoing) :
  fst (Write c m) = true <-> closed c = None /\ head (refusals c) <> Some true.
Proof.
  destruct c as [u inb [| [] refs] snt [cl |]]; cbn; split;
    try discriminate; try (intros [? ?]; congruence); try (intros _; split; congruence).
Qed.

Lemma Close_closed (c : Conn) : closed (websocket.Close c StatusGoingAway "bye") <> None.
Proof. destruct c as [u inb refs snt [cl |]]; discriminate. Qed.

(** The cases of [login]: the connection closed, nothing to read or a
    read error, no version, another first message, a refused write, and
    then the same for the second message. *)
Ltac login_cases c :=
  destruct c as [[u inb refs snt [cl |]] mid ver];
  unfold login, Read, Write, withConn;
  cbn [conn closed inbox refusals sent url msgID ServerVersion];
  [ | destruct inb as [| [m1 |] inb];
      [ | destruct (String.eqb_spec (HAVersion m1) "") as [Hv | Hv];
          [ | destruct (String.eqb_spec (MessageType m1) "auth_required") as [Ht | Ht];
              cbn [negb];
              [ destruct refs as [| [] refs];
                cbn [negb conn closed inbox refusals sent url msgID ServerVersion];
                [ destruct inb as [| [m2 |] inb];
                  [ | destruct (String.eqb_spec (MessageType m2) "auth_ok") as [Ho | Ho] | ]
                | 
                | destruct inb as [| [m2 |] inb];
                  [ | destruct (String.eqb_spec (MessageType m2) "auth_ok") as [Ho | Ho] | ] ]
              | ] ]
      | ] ];
  cbn [negb fst snd conn closed inbox refusals sent url msgID ServerVersion tail head].

Lemma login_ok (c : Connection) (accessToken version : string)
    (rest : list (option incoming)) :
  authenticates (conn c) version rest ->
  login c accessToken
  = (None,
     mkConnection
       (mkConn (url (conn c)) rest (tail (refusals (conn c)))
          (sent (conn c) ++ [Auth accessToken]) None)
       (msgID c) version).
Proof.
  unfold authenticates. intros (Hc & m1' & m2' & Hin & Hver & Hne & Hty & Href & Hok).
  login_cases c; cbn [conn closed inbox refusals head] in Hc, Hin, Href;
    try discriminate; simplify_eq; try contradiction; reflexivity.
Qed.

Lemma login_None (c : Connection) (accessToken : string) :
  fst (login c accessToken) = None ->
  exists version rest, authenticates (conn c) version rest.
Proof.
  unfold authenticates.
  login_cases c; try discriminate; intros _;
    exists (HAVersion m1), inb; (split; [reflexivity |]); exists m1, m2;
    repeat split; try assumption; cbn; congruence.
Qed.

(** What [login] writes: nothing, or the token once, and the token only
    to a server whose first message asked for authentication and named a
    version; it does not close the connection nor touch the message
    counter. *)
Lemma login_frame (c : Connection) (accessToken : string) :
  let out := login c accessToken in
  (sent (conn (snd out)) = sent (conn c)
   \/ (sent (conn (snd out)) = sent (conn c) ++ [Auth accessToken]
       /\ exists m rest, inbox (conn c) = Some m :: rest
            /\ HAVersion m <> ""%string /\ MessageType m = "auth_required"%string))
  /\ closed (conn (snd out)) = closed (conn c)
  /\ msgID (snd out) = msgID c
  /\ url (conn (snd out)) = url (conn c).
Proof.
  cbv zeta.
  login_cases c; (split; [| repeat split]);
    try (left; reflexivity);
    right; (split; [reflexivity |]); eexists m1, _; (split; [reflexivity |]); now split.
Qed.

Lemma authenticates_unique (s : Conn) (v v' : string) (r r' : list (option incoming)) :
  authenticates s v r -> authenticates s v' r' -> v = v' /\ r = r'.
Proof.
  intros (_ & m1 & m2 & Hin & Hv & _) (_ & m1' & m2' & Hin' & Hv' & _).
  rewrite Hin in Hin'. injection Hin' as <- <- <-. split; congruence.
Qed.

(** [NewConnection] on a network whose next server is [s]. *)
Lemma NewConnection_server (net : Network) (host accessToken : string) (s : Conn)
    (more : list (option Conn)) :
  servers net = Some s :: more ->
  let u := ("ws://" ++ host ++ "/api/websocket")%string in
  let net' := mkNetwork more (dialled net ++ [u]) in
  (exists version rest,
     authenticates s version rest
     /\ NewConnection net host accessToken
        = (inr (mkConnection
                  (mkConn u rest (tail (refusals s)) (sent s ++ [Auth accessToken]) None)
                  42 version), net'))
  \/ ((forall version rest, ~ authenticates s version rest)
      /\ exists e w,
           NewConnection net host accessToken = (inl (e, Some w), net')
           /\ url w = u /\ closed w <> None
           /\ (sent w = sent s
               \/ (sent w = sent s ++ [Auth accessToken]
                   /\ exists m rest, inbox s = Some m :: rest
                        /\ HAVersion m <> ""%string
                        /\ MessageType m = "auth_required"%string))).
Proof.
  intros Hs u net'. unfold NewConnection, Dial. rewrite Hs. fold u. fold net'.
  set (c0 := mkConnection (mkConn u (inbox s) (refusals s) (sent s) (closed s)) 42 "").
  assert (Hauth : forall version rest,
            authenticates (conn c0) version rest <-> authenticates s version rest)
    by (intros; reflexivity).
  destruct (login c0 accessToken) as [[e |] c1] eqn:Hl.
  - right. split.
    + intros version rest Ha. apply Hauth in Ha.
      rewrite (login_ok c0 accessToken version rest Ha) in Hl. discriminate.
    + exists e, (conn (Close c1)). split; [reflexivity |].
      destruct (login_frame c0 accessToken) as (Hsent & Hcl & _ & Hurl).
      rewrite Hl in Hsent, Hcl, Hurl. cbn [snd fst] in Hsent, Hcl, Hurl.
      unfold Close, withConn. cbn [conn].
      split; [| split; [apply Close_closed |]].
      * unfold websocket.Close. destruct (closed (conn c1)); exact Hurl.
      * unfold websocket.Close. destruct (closed (conn c1)); exact Hsent.
  - left. destruct (login_None c0 accessToken) as (version & rest & Ha);
      [now rewrite Hl |].
    exists version, rest. split; [now apply Hauth |].
    rewrite (login_ok c0 accessToken version rest Ha) in Hl. now injection Hl as <-.
Qed.

Lemma NewConnection_no_server (net : Network) (host accessToken : string) :
  head (servers net) = None \/ head (servers net) = Some None ->
  NewConnection net host accessToken
  = (inl (ErrDial, None),
     mkNetwork (tail (servers net))
       (dialled net ++ [("ws://" ++ host ++ "/api/websocket")%string])).
Proof.
  unfold NewConnection, Dial.
  destruct (servers net) as [| [s |] more]; cbn; intros [H | H]; try discriminate; reflexivity.
Qed.

(** X10. [NewConnection] dials ["ws://<host>/api/websocket"] and writes
    the access token at most once, and never to a server that has not
    first asked for it: whatever the server does, the connection is left
    with nothing written, or with the token alone, and the token is
    written only when the first message received names a version and has
    the type [auth_required]. *)
Theorem NewConnection_token (net : Network) (host accessToken : string) (s : Conn)
    (more : list (option Conn)) :
  servers net = Some s :: more ->
  let out := NewConnection net host accessToken in
  let u := ("ws://" ++ host ++ "/api/websocket")%string in
  dialled (snd out) = dialled net ++ [u]
  /\ servers (snd out) = more
  /\ exists w,
       match fst out with inl (_, ws) => ws | inr c => Some (conn c) end = Some w
       /\ url w = u
       /\ (sent w = sent s
           \/ (sent w = sent s ++ [Auth accessToken]
               /\ exists m rest, inbox s = Some m :: rest
                    /\ HAVersion m <> ""%string
                    /\ MessageType m = "auth_required"%string)).
Proof.
  intros Hs. cbv zeta.
  destruct (NewConnection_server net host accessToken s more Hs)
    as [(version & rest & Ha & ->) | (_ & e & w & -> & Hu & _ & Hsent)];
    cbn [fst snd dialled servers]; (split; [reflexivity |]); (split; [reflexivity |]).
  - eexists. split; [reflexivity |]. cbn [conn url sent]. split; [reflexivity |].
    right. split; [reflexivity |].
    destruct Ha as (_ & m1 & m2 & Hin & Hv & Hne & Hty & _).
    exists m1, (Some m2 :: rest). rewrite Hv. now repeat split.
  - exists w. now repeat split.
Qed.

Lemma NewConnection_token_witness :
  exists w,
    match fst (NewConnection (mkNetwork [Some refusingServer] []) "ha.local:8123" "secret")
    with inl (_, ws) => ws | inr c => Some (conn c) end = Some w
    /\ sent w = [Auth "secret"] /\ closed w = Some (1001, "bye"%string).
Proof.
  destruct (NewConnection_token (mkNetwork [Some refusingServer] []) "ha.local:8123"
              "secret" refusingServer [] eq_refl) as (_ & _ & w & Hw & _).
  exists w. split; [exact Hw |].
  vm_compute in Hw. injection Hw as <-. split; reflexivity.
Defined.

(** X11. [NewConnection] returns a connection exactly when the dial
    succeeds and the server authenticates the client ([auth_required] with
    a version, the token accepted by [auth_ok]); the connection then
    carries that version, the message counter 42 and the rest of the
    server's messages, is open, and holds the token as the only message
    written. After a dial that succeeded, every failure leaves the
    connection closed. *)
Theorem NewConnection_success (net : Network) (host accessToken : string) :
  let out := NewConnection net host accessToken in
  let u := ("ws://" ++ host ++ "/api/websocket")%string in
  (forall s more version rest,
     servers net = Some s :: more -> authenticates s version rest ->
     fst out = inr (mkConnection
                      (mkConn u rest (tail (refusals s)) (sent s ++ [Auth accessToken]) None)
                      42 version))
  /\ (forall c, fst out = inr c ->
        exists s more version rest,
          servers net = Some s :: more /\ authenticates s version rest)
  /\ (forall e w, fst out = inl (e, Some w) -> closed w <> None).
Proof.
  cbv zeta. split; [| split].
  - intros s more version rest Hs Ha.
    destruct (NewConnection_server net host accessToken s more Hs)
      as [(version' & rest' & Ha' & ->) | (Hno & _)]; [| now destruct (Hno version rest)].
    destruct (authenticates_unique s version version' rest rest' Ha Ha') as [<- <-].
    reflexivity.
  - intros c Hc. destruct (servers net) as [| [s |] more] eqn:Hs.
    + rewrite NewConnection_no_server in Hc by (rewrite Hs; now left). discriminate.
    + destruct (NewConnection_server net host accessToken s more Hs)
        as [(version & rest & Ha & _) | (_ & e & w & Heq & _)].
      * now exists s, more, version, rest.
      * rewrite Heq in Hc. discriminate.
    + rewrite NewConnection_no_server in Hc by (rewrite Hs; now right). discriminate.
  - intros e w Hw. destruct (servers net) as [| [s |] more] eqn:Hs.
    + rewrite NewConnection_no_server in Hw by (rewrite Hs; now left). discriminate.
    + destruct (NewConnection_server net host accessToken s more Hs)
        as [(version & rest & Ha & Heq) | (_ & e' & w' & Heq & _ & Hcl & _)];
        rewrite Heq in Hw; [discriminate |].
      cbn in Hw. now injection Hw as _ <-.
    + rewrite NewConnection_no_server in Hw by (rewrite Hs; now right). discriminate.
Qed.

(** [SendStatistics] by cases on the connection. *)
Lemma SendStatistics_spec (c : Connection) (stat : ha.Statistics) :
  let out := SendStatistics c stat in
  msgID (snd out) = msgID c + 1
  /\ ServerVersion (snd out) = ServerVersion c
  /\ closed (conn (snd out)) = closed (conn c)
  /\ ((fst out = Some ErrWrite /\ sent (conn (snd out)) = sent (conn c))
      \/ (fst out <> Some ErrWrite
          /\ closed (conn c) = None /\ head (refusals (conn c)) <> Some true
          /\ sent (conn (snd out)) = sent (conn c) ++ [ImportStatistics (msgID c) stat]))
  /\ (fst out = None
      <-> closed (conn c) = None /\ head (refusals (conn c)) <> Some true
          /\ exists m rest, inbox (conn c) = Some m :: rest /\ acknowledges m (msgID c))
  /\ (forall m rest,
        closed (conn c) = None -> head (refusals (conn c)) <> Some true ->
        inbox (conn c) = Some m :: rest -> ID m <> msgID c ->
        fst out = Some (ErrOutOfSync (ID m) (msgID c))).
Proof.
  cbv zeta. destruct c as [[u inb refs snt [cl |]] mid ver].
  { cbn. repeat split; try discriminate; try (left; now split).
    all: try (now intros [[=] _]).
    all: try (now intros m rest [=]). }
  unfold acknowledges, SendStatistics, incMessageID, waitResponse, Write, Read, withConn.
  cbn [conn closed inbox refusals sent url msgID ServerVersion].
  destruct refs as [| [] refs];
    cbn [negb fst snd conn closed inbox refusals sent url msgID ServerVersion head].
  2: { repeat split; try discriminate; try (left; now split).
       all: try (intros (_ & Hr & _); now destruct Hr).
       all: try (intros m rest _ Hr; now destruct Hr). }
  all: destruct inb as [| [m |] inb];
    cbn [negb fst snd conn closed inbox refusals sent url msgID ServerVersion head].
  all: try (repeat split; try discriminate;
            try (right; repeat split; discriminate);
            try (intros (_ & _ & ? & ? & [=] & _));
            try (intros ? ? _ _ [=]); fail).
  all: destruct (Z.eqb_spec (ID m) mid) as [Hid | Hid]; cbn [negb orb fst snd conn sent closed msgID ServerVersion];
    [ destruct (String.eqb_spec (MessageType m) "result") as [Hty | Hty];
      [ destruct (Success m) eqn:Hsu | ] | ];
    cbn [negb orb fst snd conn sent closed msgID ServerVersion].
  all: repeat split; try discriminate; try reflexivity;
    try (right; repeat split; discriminate);
    try (intros _; eexists m, _; repeat split; try reflexivity; assumption);
    try (intros (_ & _ & m' & rest' & [= <- <-] & Hi & Ht' & Hs'); congruence);
    try (intros m' rest' _ _ [= <- <-] Hne; congruence).
  all: exists m, inb; repeat split; assumption.
Qed.

Lemma SendStatistics_url (c : Connection) (stat : ha.Statistics) :
  url (conn (snd (SendStatistics c stat))) = url (conn c).
Proof.
  destruct c as [[u inb [| [] refs] snt [cl |]] mid ver]; try reflexivity;
    unfold SendStatistics, incMessageID, waitResponse, Write, Read, withConn;
    cbn [negb fst snd conn closed inbox refusals sent url msgID ServerVersion];
    destruct inb as [| [m |] inb]; try reflexivity; cbn [conn url];
    repeat case_match; reflexivity.
Qed.

(** X12. [SendStatistics] numbers its requests: the message it writes
    carries the connection's counter, and the counter is one more after
    the call whether the call succeeds or not. It writes at most that one
    message, never closes the connection, and returns no error exactly
    when the write goes out and the next message is the result of that
    very request, marked successful; an answer to another request is
    reported as out of sync, with both numbers. *)
Theorem SendStatistics_cases (c : Connection) (stat : ha.Statistics) :
  let out := SendStatistics c stat in
  msgID (snd out) = msgID c + 1
  /\ closed (conn (snd out)) = closed (conn c)
  /\ (sent (conn (snd out)) = sent (conn c)
      \/ sent (conn (snd out)) = sent (conn c) ++ [ImportStatistics (msgID c) stat])
  /\ (fst out = None
      <-> closed (conn c) = None /\ head (refusals (conn c)) <> Some true
          /\ exists m rest, inbox (conn c) = Some m :: rest /\ acknowledges m (msgID c))
  /\ (fst out = None ->
      sent (conn (snd out)) = sent (conn c) ++ [ImportStatistics (msgID c) stat])
  /\ (forall m rest,
        closed (conn c) = None -> head (refusals (conn c)) <> Some true ->
        inbox (conn c) = Some m :: rest -> ID m <> msgID c ->
        fst out = Some (ErrOutOfSync (ID m) (msgID c))).
Proof.
  cbv zeta. destruct (SendStatistics_spec c stat) as (H1 & _ & H3 & H4 & H5 & H6).
  split; [exact H1 |]. split; [exact H3 |]. split; [| split; [exact H5 | split; [| exact H6]]].
  - destruct H4 as [[_ Hs] | (_ & _ & _ & Hs)]; [now left | now right].
  - intros Hn. destruct H4 as [[He _] | (_ & _ & _ & Hs)]; [congruence | exact Hs].
Qed.

End haclient_facts.


(** ** The [upload] command *)

Module main_facts.
Import websocket haclient main haclient_facts.

Lemma head_tail_lookup {A : Type} (l : list A) : head (tail l) = l !! 1%nat.
Proof. now destruct l as [| a [| b l]]. Qed.

(** [upload] on a segment that [Translate] accepts. *)
Lemma upload_translated (c : uploadCmd) (net : Network) (data : Result)
    (st : ha.Statistics) :
  Translate data = Ret (st, None) ->
  let stat' := withStatisticID st (sensor c) in
  let u := ("ws://" ++ server c ++ "/api/websocket")%string in
  exists up,
    upload c net data = Ret up
    /\ stat up = stat'
    /\ network up = mkNetwork (tail (servers net)) (dialled net ++ [u])
    /\ (forall s more, servers net = Some s :: more ->
          exists w written,
            left_conn up = Some w /\ url w = u
            /\ sent w = sent s ++ written
            /\ (written = []
                \/ written = [Auth (token c)]
                \/ (written = [Auth (token c); ImportStatistics 42 stat']
                    /\ closed w = None
                    /\ exists version rest, authenticates s version rest))
            /\ ((exists version rest, authenticates s version rest)
                <-> closed w = None)
            /\ ((exists version rest, authenticates s version rest) -> written <> [])
            /\ (err up = None
                <-> exists version m rest,
                      authenticates s version (Some m :: rest)
                      /\ refusals s !! 1%nat <> Some true
                      /\ acknowledges m 42)
            /\ (err up = None -> written = [Auth (token c); ImportStatistics 42 stat']))
    /\ (head (servers net) = None \/ head (servers net) = Some None ->
        err up = Some (ErrCannotConnect ErrDial) /\ left_conn up = None).
Proof.
  intros HT stat' u. unfold upload. rewrite HT. unfold_outcome. cbv beta iota.
  fold stat'.
  destruct (servers net) as [| [s |] more] eqn:Hs.
  - rewrite NewConnection_no_server by (rewrite Hs; now left). rewrite Hs. fold u.
    eexists. split; [reflexivity |]. cbn [stat network err left_conn tail].
    repeat split; try discriminate.
  - destruct (NewConnection_server net (server c) (token c) s more Hs)
      as [(version & rest & Ha & ->) | (Hno & e & w & -> & Hu & Hcl & Hsent)]; fold u.
    + set (c0 := mkConnection
                   (mkConn u rest (tail (refusals s)) (sent s ++ [Auth (token c)]) None)
                   42 version).
      destruct (SendStatistics_spec c0 stat') as (_ & _ & H3 & H4 & H5 & _).
      pose proof (SendStatistics_url c0 stat') as Hurl.
      cbn [conn c0 msgID closed refusals sent inbox url] in H3, H4, H5, Hurl.
      rewrite head_tail_lookup in H4, H5.
      assert (Hiff : fst (SendStatistics c0 stat') = None
                <-> exists version' m rest',
                      authenticates s version' (Some m :: rest')
                      /\ refusals s !! 1%nat <> Some true /\ acknowledges m 42).
      { rewrite H5. split.
        - intros (_ & Hr & m & rest' & -> & Hack). now exists version, m, rest'.
        - intros (version' & m & rest' & Ha' & Hr & Hack).
          destruct (authenticates_unique s version version' rest _ Ha Ha') as [_ ->].
          split; [reflexivity |]. split; [exact Hr |]. now exists m, rest'. }
      assert (Hup : exists up,
                (let '(err, conn) := SendStatistics c0 stat' in
                 match err with
                 | Some err =>
                     Ret (mkUploaded stat' (Some (ErrCannotSend err))
                            (Some (haclient.conn conn))
                            (mkNetwork more (dialled net ++ [u])))
                 | None =>
                     Ret (mkUploaded stat' None (Some (haclient.conn conn))
                            (mkNetwork more (dialled net ++ [u])))
                 end) = Ret up
                /\ stat up = stat'
                /\ network up = mkNetwork more (dialled net ++ [u])
                /\ left_conn up = Some (conn (snd (SendStatistics c0 stat')))
                /\ (err up = None <-> fst (SendStatistics c0 stat') = None)).
      { destruct (SendStatistics c0 stat') as [[e |] c2]; eexists;
          (split; [reflexivity |]); cbn [stat network err left_conn fst snd];
          repeat split; discriminate. }
      destruct Hup as (up & -> & Hst & Hnet & Hleft & Herr).
      exists up. split; [reflexivity |]. split; [exact Hst |]. split; [exact Hnet |].
      split; [| intros [[=] | [=]]].
      intros s' more' [= <- <-].
      exists (conn (snd (SendStatistics c0 stat'))).
      destruct H4 as [[He Hw] | (Hne & _ & _ & Hw)].
      * exists [Auth (token c)]. split; [exact Hleft |]. split; [exact Hurl |].
        split; [exact Hw |]. split; [right; now left |].
        split; [split; [intros _; exact H3 | intros _; now exists version, rest] |].
        split; [discriminate |].
        split; [now rewrite Herr, <- Hiff |].
        intros Hn. rewrite Herr, He in Hn. discriminate.
      * exists [Auth (token c); ImportStatistics 42 stat']. split; [exact Hleft |].
        split; [exact Hurl |].
        split; [rewrite Hw, <- app_assoc; reflexivity |].
        split; [right; right; split; [reflexivity |]; split; [exact H3 |];
                now exists version, rest |].
        split; [split; [intros _; exact H3 | intros _; now exists version, rest] |].
        split; [discriminate |].
        split; [now rewrite Herr, <- Hiff | reflexivity].
    + eexists. split; [reflexivity |]. cbn [stat network err left_conn tail].
      split; [reflexivity |]. split; [reflexivity |]. split; [| intros [[=] | [=]]].
      intros s' more' [= <- <-].
      assert (Hfalse : ~ exists version m rest,
                authenticates s version (Some m :: rest)
                /\ refusals s !! 1%nat <> Some true /\ acknowledges m 42).
      { intros (version & m & rest & Ha & _). now apply (Hno version (Some m :: rest)). }
      assert (Hnone : ~ exists version rest, authenticates s version rest).
      { intros (version & rest & Ha). now apply (Hno version rest). }
      assert (Hopen : (exists version rest, authenticates s version rest)
                      <-> closed w = None).
      { split; [intros Ha; now destruct Hnone | intros Hc; now destruct Hcl]. }
      destruct Hsent as [Hsent | [Hsent _]].
      * exists w, []. split; [reflexivity |]. split; [exact Hu |].
        split; [now rewrite app_nil_r |]. split; [now left |].
        split; [exact Hopen |]. split; [intros Ha; now destruct Hnone |].
        split; [split; [discriminate | intros H; now destruct Hfalse] | discriminate].
      * exists w, [Auth (token c)]. split; [reflexivity |]. split; [exact Hu |].
        split; [exact Hsent |]. split; [right; now left |].
        split; [exact Hopen |]. split; [intros Ha; now destruct Hnone |].
        split; [split; [discriminate | intros H; now destruct Hfalse] | discriminate].
  - rewrite NewConnection_no_server by (rewrite Hs; now right). rewrite Hs. fold u.
    eexists. split; [reflexivity |]. cbn [stat network err left_conn tail].
    repeat split; try discriminate.
Qed.

Lemma upload_returns (c : uploadCmd) (net : Network) (data : Result)
    (x : ha.Statistics * option parse_error) :
  Translate data = Ret x -> exists up, upload c net data = Ret up.
Proof.
  destruct x as [st [e |]]; intros HT.
  - unfold upload. rewrite HT. unfold_outcome. eexists. reflexivity.
  - destruct (upload_translated c net data st HT) as (up & Hup & _). now exists up.
Qed.

Lemma netBefore_S (net : Network) (up : uploaded) (ups : list uploaded) (k : nat) :
  netBefore net (up :: ups) (S k) = netBefore (network up) ups k.
Proof. reflexivity. Qed.

(** The loop of [parseAndUpload] on segments that [Translate] does not
    panic on: every segment is uploaded, each on the network the one
    before it left, and the exit status turns to failure at the first
    error and stays there. *)
Lemma uploadAll_returns (c : uploadCmd) (parsed : list Result) :
  forall net ret done0,
    Forall (fun seg => exists x, Translate seg = Ret x) parsed ->
    exists ret' ups net',
      uploadAll c net parsed ret done0 = Ret (ret', done0 ++ ups, net')
      /\ length ups = length parsed
      /\ ((ret' = ret /\ Forall (fun up => err up = None) ups)
          \/ (ret' = ExitFailure /\ Exists (fun up => err up <> None) ups))
      /\ (forall k up, ups !! k = Some up ->
            exists seg, parsed !! k = Some seg
              /\ upload c (netBefore net ups k) seg = Ret up).
Proof.
  induction parsed as [| chunk parsed IH]; intros net ret done0 Hall.
  - exists ret, [], net. cbn. rewrite app_nil_r. repeat split.
    + left. split; [reflexivity | constructor].
    + intros k up [=].
  - apply Forall_cons in Hall as [[x Hx] Hall].
    destruct (upload_returns c net chunk x Hx) as [up Hup].
    cbn [uploadAll]. rewrite Hup. unfold_outcome.
    destruct (IH (network up) (match err up with Some _ => ExitFailure | None => ret end)
                (done0 ++ [up]) Hall) as (ret' & ups & net' & Heq & Hlen & Hret & Hk).
    exists ret', (up :: ups), net'. split; [| split; [| split]].
    + rewrite Heq, <- app_assoc. reflexivity.
    + cbn [length]. now rewrite Hlen.
    + destruct Hret as [[-> Hf] | [-> He]].
      * destruct (err up) as [e |] eqn:Heu.
        -- right. split; [reflexivity |]. left. congruence.
        -- left. split; [reflexivity |]. now constructor.
      * right. split; [reflexivity |]. now right.
    + intros [| k] up' Hup'.
      * injection Hup' as <-. exists chunk. split; [reflexivity | exact Hup].
      * rewrite netBefore_S. apply (Hk k up' Hup').
Qed.

Lemma uploadAll_panics (c : uploadCmd) (parsed : list Result) :
  forall net ret done0,
    Exists (fun seg => exists msg, Translate seg = Panic msg) parsed ->
    exists msg, uploadAll c net parsed ret done0 = Panic msg.
Proof.
  induction parsed as [| chunk parsed IH]; intros net ret done0 Hex;
    [now apply Exists_nil in Hex |].
  cbn [uploadAll]. destruct (Translate chunk) as [x | msg] eqn:HT.
  - destruct (upload_returns c net chunk x HT) as [up ->]. unfold_outcome.
    apply IH. apply Exists_cons in Hex as [[msg Hm] | Hex]; [congruence | exact Hex].
  - exists msg. unfold upload. rewrite HT. reflexivity.
Qed.

(** X13. [upload] contacts Home Assistant only for a segment that
    [Translate] accepts: a panic of [Translate] is a panic of [upload], and
    on an error of [Translate] nothing is dialled. Otherwise it dials
    ["ws://<server>/api/websocket"] once and writes, at most, the token and
    then one import request, numbered 42, that carries the statistics of
    [Translate] under the sensor name of the command; the import request
    is written only to a server that authenticated the client, and
    [upload] returns no error exactly when that server then acknowledges
    request 42. The connection it leaves behind is open exactly when the
    server authenticated the client, whether or not the import request
    could be written or was acknowledged: [upload] never closes a
    connection on which it logged in, and a connection whose login failed
    was closed by [NewConnection]. *)
Theorem upload_cases (c : uploadCmd) (net : Network) (data : Result) :
  (forall msg, Translate data = Panic msg -> upload c net data = Panic msg)
  /\ (forall st e, Translate data = Ret (st, Some e) ->
        upload c net data = Ret (mkUploaded st (Some (ErrCannotParse e)) None net))
  /\ (forall st, Translate data = Ret (st, None) ->
        let stat' := withStatisticID st (sensor c) in
        let u := ("ws://" ++ server c ++ "/api/websocket")%string in
        exists up,
          upload c net data = Ret up
          /\ stat up = stat'
          /\ network up = mkNetwork (tail (servers net)) (dialled net ++ [u])
          /\ (forall s more, servers net = Some s :: more ->
                exists w written,
                  left_conn up = Some w /\ url w = u
                  /\ sent w = sent s ++ written
                  /\ (written = []
                      \/ written = [Auth (token c)]
                      \/ (written = [Auth (token c); ImportStatistics 42 stat']
                          /\ closed w = None
                          /\ exists version rest, authenticates s version rest))
                  /\ ((exists version rest, authenticates s version rest)
                      <-> closed w = None)
                  /\ ((exists version rest, authenticates s version rest)
                      -> written <> [])
                  /\ (err up = None
                      <-> exists version m rest,
                            authenticates s version (Some m :: rest)
                            /\ refusals s !! 1%nat <> Some true
                            /\ acknowledges m 42)
                  /\ (err up = None ->
                      written = [Auth (token c); ImportStatistics 42 stat']))
          /\ (head (servers net) = None \/ head (servers net) = Some None ->
              err up = Some (ErrCannotConnect ErrDial) /\ left_conn up = None)).
Proof.
  split; [| split].
  - intros msg HT. unfold upload. now rewrite HT.
  - intros st e HT. unfold upload. now rewrite HT.
  - intros st HT. apply (upload_translated c net data st HT).
Qed.

(** A server that authenticates and acknowledges: the upload of the
    sample evening writes the token and one import request, and returns no
    error; with a server that refuses the token only the token is written,
    and the connection is closed. *)
Lemma upload_samples :
  (exists up w,
     upload sampleCmd (mkNetwork [Some sampleServer] []) (series evening) = Ret up
     /\ err up = None /\ left_conn up = Some w
     /\ url w = "ws://ha.local:8123/api/websocket"%string
     /\ closed w = None
     /\ sent w
        = [ Auth "secret";
            ImportStatistics 42
              (ha.mkStatistics (ha.mkStatisticMetadata false true "" "sensor.esb" "kWh")
                 [statisticValue (at_ 2023 1 15 23 0) 1 1]) ])
  /\ (exists up w,
        upload sampleCmd (mkNetwork [Some refusingServer] []) (series evening) = Ret up
        /\ err up = Some (ErrCannotConnect (ErrInvalidAuth "auth_invalid"))
        /\ left_conn up = Some w
        /\ closed w = Some (1001, "bye"%string)
        /\ sent w = [Auth "secret"]).
Proof.
  split.
  - do 2 eexists. split; [vm_compute; reflexivity |].
    split; [reflexivity |]. split; [reflexivity |]. repeat split.
  - do 2 eexists. split; [vm_compute; reflexivity |].
    split; [reflexivity |]. split; [reflexivity |]. repeat split.
Qed.

(** X14. [parseAndUpload]: when [HDF] fails the command fails at once and
    nothing is dialled; the "nothing to upload" error is never returned.
    When [HDF] succeeds, the command panics if some segment is a single
    reading on the hour; otherwise every segment is uploaded, in order,
    each on the network the upload before it left, also after an upload
    has failed, and the exit status is success exactly when no upload
    returned an error, failure otherwise. *)
Theorem parseAndUpload_cases (ParseFloat : string -> option float) (c : uploadCmd)
    (net : Network) (data : list csv.line) :
  let out := parseAndUpload ParseFloat c net data in
  (forall segs e, HDF ParseFloat data = Ret (segs, Some e) ->
     out = Ret (ExitFailure, Some (ErrHDF e), [], net))
  /\ (forall segs, HDF ParseFloat data = Ret (segs, None) ->
        (Exists singleRound segs -> exists msg, out = Panic msg)
        /\ (~ Exists singleRound segs ->
            exists ret ups net',
              out = Ret (ret, None, ups, net')
              /\ length ups = length segs
              /\ (ret = ExitSuccess <-> Forall (fun up => err up = None) ups)
              /\ (ret = ExitFailure <-> Exists (fun up => err up <> None) ups)
              /\ forall k up, ups !! k = Some up ->
                   exists seg, segs !! k = Some seg
                     /\ upload c (netBefore net ups k) seg = Ret up))
  /\ (forall ret ups net', out <> Ret (ret, Some ErrNothingToUpload, ups, net')).
Proof.
  cbv zeta.
  assert (Hsome : forall segs e, HDF ParseFloat data = Ret (segs, Some e) ->
            parseAndUpload ParseFloat c net data
            = Ret (ExitFailure, Some (ErrHDF e), [], net)).
  { intros segs e H. unfold parseAndUpload. rewrite H. reflexivity. }
  assert (Hnone : forall segs, HDF ParseFloat data = Ret (segs, None) ->
            parseAndUpload ParseFloat c net data
            = match uploadAll c net segs ExitSuccess [] with
              | Ret (ret, done, net') => Ret (ret, None, done, net')
              | Panic msg => Panic msg
              end).
  { intros segs H. unfold parseAndUpload. rewrite H. unfold_outcome. cbv beta iota.
    destruct (HDF_success_segments ParseFloat data segs H) as [_ Hne].
    assert (Hlen : (length segs =? 0)%nat = false).
    { apply Nat.eqb_neq. destruct Hne as [[_ ->] | (_ & Hs & _)]; [discriminate |].
      destruct segs; [congruence | discriminate]. }
    rewrite Hlen. destruct (uploadAll c net segs ExitSuccess []) as [[[ret done] net'] | msg];
      reflexivity. }
  split; [exact Hsome |]. split.
  - intros segs H. rewrite (Hnone segs H). split.
    + intros Hex.
      destruct (uploadAll_panics c segs net ExitSuccess []) as [msg ->]; [| now exists msg].
      eapply Exists_impl; [exact Hex |].
      intros seg (r & Hr & Hround). exists "index out of range"%string.
      rewrite Translate_retained, Hr. unfold retained. now rewrite Hround.
    + intros Hno.
      destruct (uploadAll_returns c segs net ExitSuccess []) as (ret & ups & net' & -> & Hlen & Hret & Hk).
      { apply Forall_forall. intros seg Hin.
        destruct (Translate_outcomes seg)
          as [[_ ->] | [(r & Hr & Hround & _) | [(_ & _ & st & ->) | (_ & _ & st & j & m & a & b & ->)]]];
          try (eexists; reflexivity).
        exfalso. apply Hno. apply Exists_exists. exists seg. split; [exact Hin |].
        now exists r. }
      exists ret, ups, net'. cbn [app]. split; [reflexivity |]. split; [exact Hlen |].
      split; [| split; [| exact Hk]].
      * split.
        -- intros ->. destruct Hret as [[_ Hf] | [[=] _]]. exact Hf.
        -- intros Hf. destruct Hret as [[-> _] | [_ He]]; [reflexivity |].
           exfalso. apply Exists_exists in He as (up & Hin & Hne).
           rewrite Forall_forall in Hf. now apply Hne, Hf.
      * split.
        -- intros ->. destruct Hret as [[[=] _] | [_ He]]. exact He.
        -- intros He. destruct Hret as [[-> Hf] | [-> _]]; [| reflexivity].
           exfalso. apply Exists_exists in He as (up & Hin & Hne).
           rewrite Forall_forall in Hf. now apply Hne, Hf.
  - intros ret ups net'.
    destruct (HDF_returns ParseFloat data) as (segs & [e |] & H).
    + rewrite (Hsome segs e H). discriminate.
    + rewrite (Hnone segs H).
      destruct (uploadAll c net segs ExitSuccess []) as [[[r d] n] | msg]; discriminate.
Qed.

End main_facts.

(** ** The flags of a command and the environment *)

Module flag_facts.
Import flag main.

Lemma leb_trans (a : string) : forall b c,
  String.leb a b = true -> String.leb b c = true -> String.leb a c = true.
Proof.
  unfold String.leb.
  induction a as [| x a IH]; intros [| y b] [| z c]; cbn; try easy.
  unfold Ascii.compare.
  destruct (N.compare_spec (N_of_ascii x) (N_of_ascii y)),
           (N.compare_spec (N_of_ascii y) (N_of_ascii z)),
           (N.compare_spec (N_of_ascii x) (N_of_ascii z));
    try easy; try lia.
  apply IH.
Qed.

#[local] Instance nameLe_trans : Transitive nameLe.
Proof. intros a b c. apply leb_trans. Qed.

#[local] Instance nameLe_total : Total nameLe.
Proof. intros a b. apply String.leb_total. Qed.

Lemma sortFlags_elem (f : FlagSet) (name : string) :
  name ∈ sortFlags f <-> is_Some (f !! name).
Proof.
  unfold sortFlags. rewrite merge_sort_Permutation, list_elem_of_fmap. split.
  - intros ([n v] & -> & Hin). apply elem_of_map_to_list in Hin. now exists v.
  - intros [v Hv]. exists (name, v). split; [reflexivity |]. now apply elem_of_map_to_list.
Qed.

Lemma sortFlags_NoDup (f : FlagSet) : NoDup (sortFlags f).
Proof. unfold sortFlags. rewrite merge_sort_Permutation. apply NoDup_fst_map_to_list. Qed.

Lemma sortFlags_sorted (f : FlagSet) : StronglySorted nameLe (sortFlags f).
Proof. apply StronglySorted_merge_sort; apply _. Qed.

Lemma StronglySorted_filter {A : Type} (R : relation A) (P : A -> Prop)
    `{forall x, Decision (P x)} (l : list A) :
  StronglySorted R l -> StronglySorted R (filter P l).
Proof.
  induction 1 as [| x l Hs IH Hall]; [constructor |].
  rewrite filter_cons. destruct (decide (P x)); [| exact IH].
  constructor; [exact IH |].
  apply Forall_forall. intros y Hy. apply list_elem_of_filter in Hy as [_ Hy].
  rewrite Forall_forall in Hall. now apply Hall.
Qed.

Lemma fill_idem (env : gmap string string) (name v : string) :
  fill env name (fill env name v) = fill env name v.
Proof.
  unfold fill. destruct (String.eqb_spec v "") as [-> | Hv].
  - now destruct (String.eqb_spec (Getenv env name) "").
  - apply String.eqb_neq in Hv. now rewrite Hv.
Qed.

Lemma fillStep_lookup (env : gmap string string) (fs : FlagSet) (n name : string) :
  is_Some (fs !! n) ->
  fillStep env fs n !! name
  = if decide (name = n) then fill env n <$> fs !! n else fs !! name.
Proof.
  intros [v Hv]. unfold fillStep, String_, Set_, fill, from_option, id. rewrite Hv.
  cbv beta iota. cbn [fmap option_fmap option_map].
  destruct (decide (name = n)) as [-> | Hne].
  - destruct (String.eqb v ""); [apply lookup_insert_eq | exact Hv].
  - destruct (String.eqb v ""); [now apply lookup_insert_ne | reflexivity].
Qed.

Lemma foldl_fill (env : gmap string string) (l : list string) :
  forall fs name,
    (forall n, n ∈ l -> is_Some (fs !! n)) ->
    foldl (fillStep env) fs l !! name
    = if decide (name ∈ l) then fill env name <$> fs !! name else fs !! name.
Proof.
  induction l as [| n l IH]; intros fs name Hdom.
  - cbn. destruct (decide (name ∈ [])) as [Hin | _]; [inversion Hin | reflexivity].
  - cbn [foldl].
    assert (Hn : is_Some (fs !! n)) by (apply Hdom; now left).
    rewrite IH.
    2: { intros m Hm. rewrite fillStep_lookup by exact Hn.
         destruct (decide (m = n)) as [-> | _].
         - destruct Hn as [v ->]. now eexists.
         - apply Hdom. now right. }
    rewrite fillStep_lookup by exact Hn.
    destruct (decide (name = n)) as [-> | Hne].
    + destruct (decide (n ∈ n :: l)) as [_ | Hnot]; [| exfalso; apply Hnot; now left].
      destruct (decide (n ∈ l)); [| reflexivity].
      destruct (fs !! n) as [v |]; [| reflexivity]. cbn. now rewrite fill_idem.
    + destruct (decide (name ∈ l)) as [Hin | Hnin].
      * destruct (decide (name ∈ n :: l)) as [_ | Hnot]; [reflexivity |].
        exfalso. apply Hnot. now right.
      * destruct (decide (name ∈ n :: l)) as [Hin | _]; [| reflexivity].
        apply elem_of_cons in Hin as [? | ?]; contradiction.
Qed.

Lemma flagsFromEnv_fill (env : gmap string string) (f : FlagSet) (name : string) :
  flagsFromEnv env f !! name = fill env name <$> f !! name.
Proof.
  unfold flagsFromEnv, VisitAll.
  change (foldl (fillStep env) f (sortFlags f) !! name = fill env name <$> f !! name).
  rewrite foldl_fill by (intros n; apply sortFlags_elem).
  destruct (decide (name ∈ sortFlags f)) as [_ | Hnot]; [reflexivity |].
  destruct (f !! name) as [v |] eqn:Hv; [| reflexivity].
  exfalso. apply Hnot, sortFlags_elem. now exists v.
Qed.

Lemma foldl_missing (P : string -> bool) (l : list string) : forall acc,
  foldl (fun missing name => if P name then missing ++ [name] else missing) acc l
  = acc ++ filter (fun name => P name = true) l.
Proof.
  induction l as [| n l IH]; intros acc; [now rewrite app_nil_r |].
  cbn [foldl]. rewrite IH, filter_cons.
  destruct (P n) eqn:Hp.
  - rewrite decide_True by reflexivity. now rewrite <- app_assoc.
  - rewrite decide_False by discriminate. reflexivity.
Qed.

(** What [ensureFlagsAreSet] collects: the flags still empty after
    [flagsFromEnv], in the order of [VisitAll]. *)
Lemma ensureFlagsAreSet_missing (env : gmap string string) (f : FlagSet) :
  let f' := flagsFromEnv env f in
  let missing := filter (fun name => String.eqb (String_ f' name) "" = true) (sortFlags f') in
  ensureFlagsAreSet env f
  = if (0 <? length missing)%nat then (Some (ErrMissingFlags missing), f') else (None, f').
Proof.
  cbv zeta. unfold ensureFlagsAreSet, VisitAll.
  rewrite (foldl_missing (fun name => String.eqb (String_ (flagsFromEnv env f) name) "")).
  reflexivity.
Qed.

Lemma missing_elem (env : gmap string string) (f : FlagSet) (name : string) :
  let f' := flagsFromEnv env f in
  name ∈ filter (fun name => String.eqb (String_ f' name) "" = true) (sortFlags f')
  <-> exists v, f !! name = Some v /\ v = ""%string /\ Getenv env name = ""%string.
Proof.
  cbv zeta. rewrite list_elem_of_filter, sortFlags_elem. unfold String_.
  rewrite flagsFromEnv_fill. unfold fill. split.
  - intros [He [v' Hv']]. destruct (f !! name) as [v |]; [| discriminate].
    exists v. split; [reflexivity |]. cbn in He.
    destruct (String.eqb_spec v "") as [Hvv | Hne].
    + split; [exact Hvv |]. now apply String.eqb_eq.
    + apply String.eqb_eq in He. contradiction.
  - intros (v & Hv & Hve & Hg). subst v. rewrite Hv. cbn. rewrite Hg.
    split; [reflexivity | now eexists].
Qed.

(** X15. [flagsFromEnv] keeps the set of flags; a flag given on the
    command line keeps its value, whatever the environment holds, and a
    flag left empty takes the value of the environment variable of its
    name (empty when the variable is not set). *)
Theorem flagsFromEnv_lookup (env : gmap string string) (f : FlagSet) (name : string) :
  flagsFromEnv env f !! name = fill env name <$> f !! name
  /\ (forall v, f !! name = Some v -> v <> ""%string ->
        flagsFromEnv env f !! name = Some v)
  /\ (f !! name = Some ""%string ->
        flagsFromEnv env f !! name = Some (Getenv env name))
  /\ (f !! name = None -> flagsFromEnv env f !! name = None).
Proof.
  rewrite flagsFromEnv_fill. split; [reflexivity |]. split; [| split].
  - intros v -> Hv. cbn. unfold fill. apply String.eqb_neq in Hv. now rewrite Hv.
  - intros ->. reflexivity.
  - intros ->. reflexivity.
Qed.

(** X16. [ensureFlagsAreSet] returns no error exactly when every flag is
    given on the command line or by the environment variable of its name.
    Otherwise its error lists the flags that are empty in both, each once,
    in ascending lexicographical order of their names. In both cases the
    flags are left as [flagsFromEnv] filled them. *)
Theorem ensureFlagsAreSet_cases (env : gmap string string) (f : FlagSet) :
  let out := ensureFlagsAreSet env f in
  snd out = flagsFromEnv env f
  /\ (fst out = None
      <-> forall name v, f !! name = Some v -> v <> ""%string \/ Getenv env name <> ""%string)
  /\ (fst out = None \/ exists missing, fst out = Some (ErrMissingFlags missing))
  /\ (forall missing, fst out = Some (ErrMissingFlags missing) ->
        missing <> [] /\ NoDup missing /\ StronglySorted nameLe missing
        /\ forall name, name ∈ missing
             <-> f !! name = Some ""%string /\ Getenv env name = ""%string).
Proof.
  cbv zeta. rewrite ensureFlagsAreSet_missing.
  set (f' := flagsFromEnv env f).
  set (missing := filter (fun name => String.eqb (String_ f' name) "" = true) (sortFlags f')).
  assert (Helem : forall name, name ∈ missing
            <-> f !! name = Some ""%string /\ Getenv env name = ""%string).
  { intros name. unfold missing, f'. rewrite (missing_elem env f name).
    split; [intros (v & Hv & -> & Hg); now split | intros [Hv Hg]; now exists ""%string]. }
  destruct missing as [| n0 rest] eqn:Hm; cbn [length Nat.ltb Nat.leb fst snd].
  - split; [reflexivity |]. split; [| split; [now left | discriminate]].
    split; [| reflexivity]. intros _ name v Hv.
    destruct (String.eqb_spec v "") as [-> | Hne]; [| now left]. right.
    intros Hg. assert (Hin : name ∈ []) by (apply Helem; now split). inversion Hin.
  - split; [reflexivity |]. split; [| split; [right; now eexists |]].
    + split; [discriminate |]. intros Hall. exfalso.
      assert (Hin : n0 ∈ n0 :: rest) by now left.
      apply Helem in Hin as [Hv Hg]. destruct (Hall n0 _ Hv); contradiction.
    + intros missing' [= <-]. split; [discriminate |].
      rewrite <- Hm. split; [| split; [| now rewrite Hm]].
      * apply NoDup_filter, sortFlags_NoDup.
      * apply StronglySorted_filter, sortFlags_sorted.
Qed.

(** X17. [Execute] of the [upload] command: when one of its flags is
    given neither on the command line nor by the environment, it returns
    the usage error before anything is read or dialled; otherwise it runs
    [parseAndUpload] with, for the server, the token and the sensor, the
    value given on the command line, or, when that one is empty, the value
    of the environment variable of the same name. *)
Theorem Execute_cases (ParseFloat : string -> option float) (env : gmap string string)
    (f : FlagSet) (net : websocket.Network) (stdin : list csv.line) :
  is_Some (f !! "ha_server"%string) ->
  is_Some (f !! "ha_token"%string) ->
  is_Some (f !! "ha_sensor"%string) ->
  let out := Execute ParseFloat env f net stdin in
  let given name := fill env name (String_ f name) in
  ((forall name v, f !! name = Some v -> v <> ""%string \/ Getenv env name <> ""%string) ->
   out = parseAndUpload ParseFloat
           (mkUploadCmd (given "ha_server"%string) (given "ha_token"%string)
              (given "ha_sensor"%string))
           net stdin)
  /\ (forall name, f !! name = Some ""%string -> Getenv env name = ""%string ->
        exists missing,
          out = Ret (ExitUsageError, Some (ErrMissingFlags missing), [], net)
          /\ name ∈ missing).
Proof.
  intros Hserver Htoken Hsensor. cbv zeta.
  unfold Execute. rewrite ensureFlagsAreSet_missing.
  pose proof (missing_elem env f) as Helem. cbv zeta in Helem.
  destruct (filter _ (sortFlags (flagsFromEnv env f))) as [| n0 rest] eqn:Hm;
    cbn [length Nat.ltb Nat.leb].
  - split.
    + intros _. f_equal. unfold uploadCmdOf, String_.
      rewrite !flagsFromEnv_fill.
      destruct Hserver as [v1 ->], Htoken as [v2 ->], Hsensor as [v3 ->]. reflexivity.
    + intros name Hv Hg. exfalso.
      assert (Hin : name ∈ []) by (apply Helem; now exists ""%string).
      inversion Hin.
  - split.
    + intros Hall. exfalso.
      assert (Hin : n0 ∈ n0 :: rest) by now left.
      apply Helem in Hin as (v & Hv & -> & Hg). destruct (Hall n0 _ Hv); contradiction.
    + intros name Hv Hg. exists (n0 :: rest). split; [reflexivity |].
      apply Helem. now exists ""%string.
Qed.

Lemma Execute_cases_witness :
  exists missing,
    Execute sampleParseFloat sampleEnv sampleFlags (websocket.mkNetwork [] []) eveningFile
    = Ret (ExitUsageError, Some (ErrMissingFlags missing), [], websocket.mkNetwork [] [])
    /\ "ha_sensor"%string ∈ missing.
Proof.
  refine (proj2 (Execute_cases sampleParseFloat sampleEnv sampleFlags
                   (websocket.mkNetwork [] []) eveningFile _ _ _) "ha_sensor"%string _ _).
  - exists ""%string. vm_compute. reflexivity.
  - exists "secret"%string. vm_compute. reflexivity.
  - exists ""%string. vm_compute. reflexivity.
  - vm_compute. reflexivity.
  - vm_compute. reflexivity.
Defined.

End flag_facts.

(** ** The pages of the ESB site *)

Module esblib_facts.
Import gostrings esblib.

Lemma attributesToMap_snoc (aa : list html.Attribute) (a : html.Attribute) :
  attributesToMap (aa ++ [a])
  = if negb (String.eqb (html.Namespace a) "") then attributesToMap aa
    else <[html.Key a := html.Val a]> (attributesToMap aa).
Proof. unfold attributesToMap. now rewrite foldl_app. Qed.

Lemma omap_singleton {A B : Type} (f : A -> option B) (a : A) :
  omap f [a] = match f a with Some y => [y] | None => [] end.
Proof. reflexivity. Qed.

Lemma attributesToMap_last (aa : list html.Attribute) (key : string) :
  attributesToMap aa !! key = lastAttribute aa key.
Proof.
  unfold lastAttribute. induction aa as [| a aa IH] using rev_ind; [reflexivity |].
  rewrite attributesToMap_snoc, omap_app, omap_singleton. cbv beta.
  destruct (String.eqb (html.Namespace a) ""); cbn [negb andb].
  - destruct (String.eqb_spec (html.Key a) key) as [<- | Hne].
    + rewrite lookup_insert_eq. now rewrite last_snoc.
    + rewrite lookup_insert_ne by exact Hne. now rewrite app_nil_r.
  - now rewrite app_nil_r.
Qed.

Lemma get_attribute (n : html.Node) (key : string) :
  get (attributesToMap (html.Attr n)) key = attribute n key.
Proof. unfold get, attribute. now rewrite attributesToMap_last. Qed.

(** X18. [attributesToMap] holds, for every key, the value of the last
    attribute of the default namespace that has this key, and no entry
    for a key that only attributes of other namespaces have, or none. *)
Theorem attributesToMap_lookup (aa : list html.Attribute) (key : string) :
  attributesToMap aa !! key = lastAttribute aa key
  /\ (forall v, attributesToMap aa !! key = Some v ->
        exists a, a ∈ aa /\ html.Namespace a = ""%string /\ html.Key a = key
                  /\ html.Val a = v)
  /\ (forall pre a,
        aa = pre ++ [a] -> html.Namespace a = ""%string -> html.Key a = key ->
        attributesToMap aa !! key = Some (html.Val a)).
Proof.
  split; [apply attributesToMap_last |]. split.
  - rewrite attributesToMap_last. unfold lastAttribute. intros v Hv.
    apply last_Some_elem_of in Hv. apply list_elem_of_omap in Hv as (a & Hin & Ha).
    exists a. split; [exact Hin |].
    destruct (String.eqb_spec (html.Namespace a) "") as [Hn | Hn]; [| discriminate].
    destruct (String.eqb_spec (html.Key a) key) as [Hk | Hk]; [| discriminate].
    cbn in Ha. injection Ha as <-. repeat split; assumption.
  - intros pre a -> Hn Hk. rewrite attributesToMap_snoc, Hn. cbn. rewrite Hk.
    apply lookup_insert_eq.
Qed.

(** Induction on a document: a property that holds of a node whenever it
    holds of its children holds of every node. *)
Lemma Node_induction (P : html.Node -> Prop) :
  (forall type d attr children,
     Forall P children -> P (html.mkNode type d attr children)) ->
  forall n, P n.
Proof.
  intros H. fix IH 1. intros [type d attr children]. apply H.
  induction children as [| c children IHc]; constructor; [apply IH | exact IHc].
Qed.

(** [traverse] visits the nodes in document order. *)
Lemma traverse_preorder (n : html.Node) :
  forall st, traverse n st = foldl (fun st m => visit m st) st (preorder n).
Proof.
  induction n as [type d attr children Hall] using Node_induction. intros st.
  cbn [traverse preorder foldl].
  generalize (visit (html.mkNode type d attr children) st). clear st.
  induction Hall as [| c children Hc Hall IH]; intros st; [reflexivity |].
  cbn [foldl flat_map]. rewrite foldl_app, <- Hc. apply IH.
Qed.

(** The variables after the nodes [l] have been visited. *)
Lemma visit_all (l : list html.Node) (st : form) :
  let inputs :=
    omap (fun n =>
            if isElement n "input" && String.eqb (attribute n "type") "hidden"
            then Some (attribute n "name", attribute n "value") else None) l in
  let fs :=
    omap (fun n =>
            if isElement n "form"
            then Some (attribute n "method", attribute n "action") else None) l in
  let out := foldl (fun st m => visit m st) st l in
  method out = default (method st) (fst <$> last fs)
  /\ reqURL out = default (reqURL st) (snd <$> last fs)
  /\ forall k,
       data out !! k
       = match last (omap (fun nv : string * string =>
                             if String.eqb (fst nv) k then Some (snd nv) else None) inputs)
         with
         | Some v => Some [v]
         | None => data st !! k
         end.
Proof.
  cbv zeta. induction l as [| n l IH] using rev_ind.
  - cbn. repeat split.
  - destruct IH as (Hm & Hu & Hd).
    rewrite foldl_app, !omap_app, !omap_singleton. cbn [foldl]. cbv beta.
    set (prev := foldl (fun st m => visit m st) st l) in *.
    unfold visit. rewrite !get_attribute.
    destruct (isElement n "input") eqn:Hin; cbn [andb].
    + assert (Hf : isElement n "form" = false).
      { unfold isElement in *. destruct (html.Type_ n); try discriminate.
        apply String.eqb_eq in Hin. rewrite Hin. reflexivity. }
      rewrite Hf. rewrite !app_nil_r.
      destruct (String.eqb (attribute n "type") "hidden").
      * cbn [method reqURL data]. split; [exact Hm |]. split; [exact Hu |].
        intros k. unfold neturl.Set_. rewrite omap_app, omap_singleton. cbn [fst snd].
        unfold neturl.Values in *.
        destruct (String.eqb_spec (attribute n "name") k) as [Hk | Hne].
        -- subst k. rewrite (lookup_insert_eq (M := gmap string)). now rewrite last_snoc.
        -- rewrite (lookup_insert_ne (M := gmap string)) by exact Hne.
           rewrite app_nil_r. apply Hd.
      * rewrite !app_nil_r. split; [exact Hm |]. split; [exact Hu |]. exact Hd.
    + rewrite !app_nil_r. destruct (isElement n "form").
      * cbn [method reqURL data]. rewrite !last_snoc. cbn. repeat split. exact Hd.
      * rewrite !app_nil_r. split; [exact Hm |]. split; [exact Hu |]. exact Hd.
Qed.

(** X19. [htmlFormToRequest] reads the document in document order: the
    method and the URL of the request are the [method] and [action]
    attributes of the last [form] element (empty when the document has
    none), and the form data hold, for each name, the value of the last
    [input] element of type [hidden] with that name, alone; inputs of any
    other type give nothing to the request. *)
Theorem htmlFormToRequest_document_order (doc : html.Node) :
  let r := htmlFormToRequest doc in
  method r = default ""%string (fst <$> last (forms doc))
  /\ reqURL r = default ""%string (snd <$> last (forms doc))
  /\ forall k,
       data r !! k
       = (fun v => [v])
           <$> last (omap (fun nv : string * string =>
                             if String.eqb (fst nv) k then Some (snd nv) else None)
                       (hiddenInputs doc)).
Proof.
  cbv zeta. unfold htmlFormToRequest. rewrite traverse_preorder.
  destruct (visit_all (preorder doc) (mkForm "" "" ∅)) as (Hm & Hu & Hd).
  split; [exact Hm |]. split; [exact Hu |]. clear Hm Hu.
  intros k. rewrite Hd. unfold hiddenInputs. cbn [data].
  destruct (last _); [reflexivity |]. apply (lookup_empty (M := gmap string)).
Qed.

(** *** Lines and prefixes *)

Lemma append_cons (a : ascii) (p s : string) :
  (String a p ++ s = String a (p ++ s))%string.
Proof. reflexivity. Qed.

Lemma append_nil (s : string) : (EmptyString ++ s = s)%string.
Proof. reflexivity. Qed.

Lemma CutPrefix_app (p s : string) : CutPrefix (p ++ s) p = Some s.
Proof.
  induction p as [| a p IH]; [now destruct s |].
  rewrite append_cons. cbn [CutPrefix]. now rewrite Ascii.eqb_refl.
Qed.

Lemma Split_line (l rest : string) :
  newline ∉ chars l ->
  Split (l ++ String newline rest) newline = l :: Split rest newline.
Proof.
  induction l as [| a l IH]; intros Hn.
  - rewrite append_nil. cbn [Split]. now rewrite Ascii.eqb_refl.
  - rewrite append_cons. cbn [Split].
    assert (Ha : Ascii.eqb a newline = false).
    { apply Ascii.eqb_neq. intros ->. apply Hn. now left. }
    rewrite Ha, IH; [reflexivity |].
    intros Hin. apply Hn. now right.
Qed.

Lemma Split_unlines (lines : list string) (rest : string) :
  Forall (fun l => newline ∉ chars l) lines ->
  Split (unlines lines ++ rest) newline = lines ++ Split rest newline.
Proof.
  induction 1 as [| l lines Hl Hall IH]; [reflexivity |].
  cbn [unlines]. 
  assert (Hassoc : ((l ++ String newline (unlines lines)) ++ rest
                    = l ++ String newline (unlines lines ++ rest))%string).
  { clear. induction l as [| a l IHl]; [reflexivity |].
    rewrite !append_cons. now rewrite IHl. }
  rewrite Hassoc, Split_line by exact Hl. now rewrite IH.
Qed.

Lemma findSettings_None (lines : list string) :
  findSettings lines = EmptyString
  <-> Forall (fun l => HasPrefix l settingsPrefix = false) lines.
Proof.
  induction lines as [| l lines IH].
  - split; [constructor | reflexivity].
  - cbn [findSettings]. destruct (HasPrefix l settingsPrefix) eqn:Hp.
    + split.
      * intros ->. discriminate.
      * intros Hall. apply Forall_cons in Hall as [Hl _]. congruence.
    + rewrite IH. split; [now constructor | now intros [_ ?]%Forall_cons].
Qed.

Lemma findSettings_first (pre : list string) (l : string) (post : list string) :
  Forall (fun l => HasPrefix l settingsPrefix = false) pre ->
  HasPrefix l settingsPrefix = true ->
  findSettings (pre ++ l :: post) = l.
Proof.
  induction 1 as [| x pre Hx Hall IH]; intros Hl; cbn [app findSettings].
  - now rewrite Hl.
  - rewrite Hx. now apply IH.
Qed.

Lemma TrimRightFunc_all (t : string) (f : ascii -> bool) :
  Forall (fun x => f x = true) (chars t) -> TrimRightFunc t f = EmptyString.
Proof.
  induction t as [| a t IH]; [reflexivity |]. cbn. intros Hall.
  apply Forall_cons in Hall as [Ha Hall]. now rewrite (IH Hall), Ha.
Qed.

Lemma TrimRightFunc_kept (js0 : string) (c : ascii) (trail : string) (f : ascii -> bool) :
  f c = false ->
  Forall (fun x => f x = true) (chars trail) ->
  TrimRightFunc ((js0 ++ String c EmptyString) ++ trail) f
  = (js0 ++ String c EmptyString)%string.
Proof.
  intros Hc Hall. induction js0 as [| a js0 IH].
  - rewrite append_nil, append_cons, append_nil. cbn [TrimRightFunc].
    now rewrite (TrimRightFunc_all trail f Hall), Hc.
  - rewrite !append_cons. cbn [TrimRightFunc]. rewrite IH. now destruct js0.
Qed.

(** X20. [loadLoginPage] reports that it cannot find the page settings
    exactly when no line of the page, as cut at the newlines, starts with
    ["var SETTINGS = "]. *)
Theorem loadLoginPage_no_settings (Unmarshal : string -> option pageSettings)
    (b : string) (u : neturl.URL) :
  loadLoginPage Unmarshal (Some (mkResponse (Some b) u)) = inl ErrCannotFindPageSettings
  <-> Forall (fun l => HasPrefix l settingsPrefix = false) (Split b newline).
Proof.
  unfold loadLoginPage. cbn [Body RequestURL]. rewrite <- findSettings_None.
  destruct (String.eqb_spec (findSettings (Split b newline)) "") as [He | Hne].
  - split; [intros _; exact He | reflexivity].
  - split; [| contradiction].
    destruct (Unmarshal _); discriminate.
Qed.

(** X21. [loadLoginPage] hands the JSON decoder exactly the text of the
    settings: on a page whose first line starting with
    ["var SETTINGS = "] goes on with a text that ends in a character other
    than a newline, carriage return, tab, semicolon or space, followed
    only by such characters up to the end of the line, the decoder is
    given that text, neither the prefix nor the trailing characters, and
    the result is what it decodes, with the URL the request ended at. *)
Theorem loadLoginPage_settings (Unmarshal : string -> option pageSettings)
    (pre : list string) (js0 : string) (c : ascii) (trail tail : string) (u : neturl.URL) :
  Forall (fun l => HasPrefix l settingsPrefix = false /\ newline ∉ chars l) pre ->
  newline ∉ chars js0 ->
  isCutset c = false ->
  Forall (fun x => isCutset x = true /\ x <> newline) (chars trail) ->
  let js := (js0 ++ String c EmptyString)%string in
  let page := (unlines (pre ++ [settingsPrefix ++ js ++ trail]) ++ tail)%string in
  loadLoginPage Unmarshal (Some (mkResponse (Some page) u))
  = match Unmarshal js with
    | None => inl ErrUnmarshal
    | Some sj => inr (mkLoginSettings u sj)
    end.
Proof.
  intros Hpre Hjs Hc Htrail js page.
  assert (Hchars : forall a b : string, chars (a ++ b) = chars a ++ chars b).
  { intros a b'. induction a as [| x a IH]; [reflexivity |].
    rewrite append_cons. cbn [chars String.list_ascii_of_string app].
    unfold chars in IH. now rewrite IH. }
  assert (Hcn : c <> newline) by (intros ->; discriminate).
  assert (Hline : newline ∉ chars (settingsPrefix ++ js ++ trail)).
  { rewrite !Hchars. unfold js. rewrite Hchars. rewrite !elem_of_app.
    intros [H | [[H | H] | H]].
    - vm_compute in H. repeat (apply elem_of_cons in H as [H | H]; [discriminate |]).
      inversion H.
    - contradiction.
    - apply list_elem_of_singleton in H. congruence.
    - rewrite Forall_forall in Htrail. destruct (Htrail _ H) as [_ Hne]. congruence. }
  assert (Hsplit : Split page newline
                   = (pre ++ [(settingsPrefix ++ js ++ trail)%string]) ++ Split tail newline).
  { unfold page. apply Split_unlines. apply Forall_app. split.
    - eapply Forall_impl; [exact Hpre |]. now intros l [_ ?].
    - constructor; [exact Hline | constructor]. }
  unfold loadLoginPage. cbn [Body RequestURL]. rewrite Hsplit, <- app_assoc.
  cbn [app]. rewrite findSettings_first.
  2: { eapply Forall_impl; [exact Hpre |]. now intros l [? _]. }
  2: { unfold HasPrefix. now rewrite CutPrefix_app. }
  change (String.eqb (settingsPrefix ++ js ++ trail) "") with false. cbv iota.
  unfold TrimPrefix. rewrite CutPrefix_app. unfold js.
  rewrite TrimRightFunc_kept; [reflexivity | exact Hc |].
  eapply Forall_impl; [exact Htrail |]. now intros x [? _].
Qed.

Lemma loadLoginPage_settings_witness :
  loadLoginPage sampleUnmarshal
    (Some (mkResponse
             (Some (unlines [ "<html>"%string; "<script>"%string;
                              ("var SETTINGS = {csrf:token}"
                               ++ String ";"%char (String "013"%char EmptyString))%string ]
                    ++ "</script></html>")%string)
             sampleLoginURL))
  = inr (mkLoginSettings sampleLoginURL sampleSettings).
Proof.
  apply (loadLoginPage_settings sampleUnmarshal [ "<html>"%string; "<script>"%string ]
           "{csrf:token" "}"%char (String ";"%char (String "013"%char EmptyString))
           "</script></html>" sampleLoginURL).
  - repeat constructor; try (intros H; vm_compute in H;
      repeat (apply elem_of_cons in H as [H | H]; [discriminate |]); inversion H).
  - intros H; vm_compute in H;
      repeat (apply elem_of_cons in H as [H | H]; [discriminate |]); inversion H.
  - reflexivity.
  - repeat constructor; discriminate.
Defined.

(** The redirect page of the repository's test: the request is a [post]
    to the action of the form, with the three hidden inputs and not the
    submit button. *)
Lemma htmlFormToRequest_redirectPage :
  let r := htmlFormToRequest redirectPage in
  method r = "post"%string
  /\ reqURL r = "https://myaccount.esbnetworks.ie/signin-oidc"%string
  /\ data r !! "state"%string = Some ["state-val-1-2"%string]
  /\ data r !! "client_info"%string = Some ["client_val"%string]
  /\ data r !! "code"%string = Some ["code.val-1-2-3"%string]
  /\ data r !! ""%string = None.
Proof.
  cbv zeta. split; [vm_compute; reflexivity |].
  split; [vm_compute; reflexivity |].
  split; [vm_compute; reflexivity |].
  split; [vm_compute; reflexivity |].
  split; vm_compute; reflexivity.
Qed.

End esblib_facts.

(** ** The repair of the repeated hour *)

Lemma dublin_name_offset (sec : Z) :
  (zname (dublin sec) = "IST"%string -> zoffset (dublin sec) = 3600)
  /\ (zname (dublin sec) = "GMT"%string -> zoffset (dublin sec) = 0).
Proof.
  unfold dublin. repeat case_match; cbn [zname zoffset]; split; intros Hname;
    try discriminate; reflexivity.
Qed.

Lemma Time_eq (t u : Time) : unixNano t = unixNano u -> loc t = loc u -> t = u.
Proof. destruct t, u. cbn. now intros -> ->. Qed.

Lemma Zone_eq (t u : Time) : unixNano t = unixNano u -> loc t = loc u -> Zone t = Zone u.
Proof. intros Hn Hl. now rewrite (Time_eq t u Hn Hl). Qed.

(** X22. [fixTimezone] repairs the hour that comes twice. Take any true
    series of at least four readings, presented in Europe/Dublin, exactly
    30 minutes apart; in the file the readings of the last hour of summer
    time show a wall clock that comes again one hour later, and are parsed
    one hour late, in GMT ([asParsed]). On the series so parsed the pass
    returns the true series: each reading parsed late is moved back to its
    true instant, also at the beginning and at the end of the file, and no
    other reading is touched. *)
Theorem fixTimezone_repairs (res : Result) :
  Forall (fun r => loc (EndTime r) = EuropeDublin) (Reads res) ->
  chained (Reads res) ->
  (4 <= length (Reads res))%nat ->
  fst (fixTimezone (withReads res (map asParsed (Reads res)))) = res.
Proof.
  intros Hloc Hc Hlen.
  set (res' := withReads res (map asParsed (Reads res))).
  assert (Hn : length (Reads res') = length (Reads res)) by apply length_map.
  assert (Hparsed : forall j, Reads res' !! j = asParsed <$> Reads res !! j).
  { intros j. unfold res'. cbn [Reads withReads].
    change (map asParsed) with (fmap (M := list) asParsed). apply list_lookup_fmap. }
  rewrite Forall_forall in Hloc.
  assert (Hl : forall j r, Reads res !! j = Some r -> loc (EndTime r) = EuropeDublin).
  { intros j r Hr. apply Hloc. eapply list_elem_of_lookup_2, Hr. }
  assert (Hall : forall i r, Reads res !! i = Some r ->
            Reads (fst (fixTimezone res')) !! i = Some r).
  { induction i as [i IH] using lt_wf_ind. intros r Hr.
    assert (Hi : (i < length (Reads res))%nat) by (eapply lookup_lt_Some, Hr).
    assert (Hr' : Reads res' !! i = Some (asParsed r)) by (rewrite Hparsed, Hr; reflexivity).
    destruct (fixTimezone_loop_at res' i (asParsed r) Hr')
      as (reads & logs & Hout & Hri & Hri2 & Hrim2).
    rewrite Hout, Hn. unfold fixTimezoneStep. rewrite Hri.
    pose proof (Hl i r Hr) as Hlr.
    (* the reading two places later, as parsed *)
    assert (H2 : (i + 2 < length (Reads res))%nat ->
              exists r2, Reads res !! (i + 2)%nat = Some r2
                /\ unixNano (EndTime r2) = unixNano (EndTime r) + Hour
                /\ loc (EndTime r2) = EuropeDublin).
    { intros Hlt. destruct (lookup_lt_is_Some_2 (Reads res) (i + 2) Hlt) as [r2 Hr2].
      exists r2. split; [exact Hr2 |]. split; [| exact (Hl _ _ Hr2)].
      rewrite (chained_offset (Reads res) i 2 r r2 Hc Hr Hr2), Hour_value, Minute_value. lia. }
    (* the reading two places earlier, already final *)
    assert (H0 : (2 <= i)%nat ->
              exists r0, reads !! (i - 2)%nat = Some r0
                /\ unixNano (EndTime r0) + Hour = unixNano (EndTime r)
                /\ loc (EndTime r0) = EuropeDublin).
    { intros Hge. destruct (lookup_lt_is_Some_2 (Reads res) (i - 2) ltac:(lia)) as [r0 Hr0].
      exists r0. split; [rewrite (Hrim2 Hge); apply IH; [lia | exact Hr0] |].
      split; [| exact (Hl _ _ Hr0)].
      assert (Hr'' : Reads res !! (i - 2 + 2)%nat = Some r)
        by (replace (i - 2 + 2)%nat with i by lia; exact Hr).
      rewrite (chained_offset (Reads res) (i - 2) 2 r0 r Hc Hr0 Hr''), Hour_value, Minute_value.
      lia. }
    destruct (ambiguous (EndTime r)) eqn:Hamb.
    - (* parsed one hour late *)
      assert (Hp : asParsed r = withEndTime r (Add (EndTime r) Hour))
        by (unfold asParsed; now rewrite Hamb).
      rewrite Hp in Hri |- *.
      unfold ambiguous in Hamb. apply andb_prop in Hamb as [Hist Hgmt].
      apply String.eqb_eq in Hist. apply String.eqb_eq in Hgmt.
      cbn [EndTime withEndTime Value]. rewrite Hgmt.
      change (negb (String.eqb "GMT" "GMT")) with false. cbv iota.
      assert (Hback : withEndTime (withEndTime r (Add (EndTime r) Hour))
                        (Add (Add (EndTime r) Hour) (- Hour)) = r).
      { destruct r as [v [n l]]. unfold withEndTime, Add. cbn. do 2 f_equal. lia. }
      destruct (Nat.ltb_spec (i + 2) (length (Reads res))) as [Hlt | Hge].
      + destruct (H2 Hlt) as (r2 & Hr2 & Hu2 & Hl2).
        rewrite Hri2, Hparsed, Hr2. cbn [fmap option_fmap option_map].
        assert (Hna : asParsed r2 = r2).
        { unfold asParsed, ambiguous.
          rewrite (Zone_eq (EndTime r2) (Add (EndTime r) Hour)), Hgmt;
            [reflexivity | exact Hu2 | cbn; congruence]. }
        rewrite Hna.
        assert (He : Equal (EndTime r2) (Add (EndTime r) Hour) = true)
          by (unfold Equal, Add; cbn; apply Z.eqb_eq; exact Hu2).
        rewrite He. cbn [fst]. rewrite list_lookup_insert_eq, Hback; [reflexivity |].
        apply lookup_lt_Some in Hri. exact Hri.
      + destruct (Nat.leb_spec 2 i) as [H2i | H2i]; [| lia].
        destruct (H0 H2i) as (r0 & Hr0 & Hu0 & Hl0). rewrite Hr0.
        assert (Hfix : Add (EndTime r0) Hour = EndTime r).
        { apply Time_eq; cbn; [exact Hu0 | congruence]. }
        rewrite Hfix.
        unfold Zone in Hist, Hgmt |- *. cbn [loc unixNano Add] in Hist, Hgmt |- *.
        rewrite Hlr in Hist, Hgmt |- *. cbn [lookup fst snd] in Hist, Hgmt |- *.
        rewrite (proj1 (dublin_name_offset _) Hist), (proj2 (dublin_name_offset _) Hgmt).
        cbn [Z.eqb negb fst]. rewrite list_lookup_insert_eq.
        * f_equal. destruct r as [v t]. reflexivity.
        * apply lookup_lt_Some in Hri. exact Hri.
    - (* parsed right *)
      assert (Hp : asParsed r = r) by (unfold asParsed; now rewrite Hamb).
      rewrite Hp in Hri |- *.
      destruct (negb (String.eqb (fst (Zone (EndTime r))) "GMT")); [exact Hri |].
      destruct (Nat.ltb_spec (i + 2) (length (Reads res))) as [Hlt | Hge].
      + destruct (H2 Hlt) as (r2 & Hr2 & Hu2 & Hl2).
        rewrite Hri2, Hparsed, Hr2. cbn [fmap option_fmap option_map].
        assert (Hne : Equal (EndTime (asParsed r2)) (EndTime r) = false).
        { unfold Equal. apply Z.eqb_neq. unfold asParsed.
          destruct (ambiguous (EndTime r2)); cbn [EndTime withEndTime Add unixNano];
            rewrite Hu2, Hour_value; lia. }
        rewrite Hne. exact Hri.
      + destruct (Nat.leb_spec 2 i) as [H2i | H2i]; [| exact Hri].
        destruct (H0 H2i) as (r0 & Hr0 & Hu0 & Hl0). rewrite Hr0.
        assert (Hfix : Add (EndTime r0) Hour = EndTime r).
        { apply Time_eq; cbn; [exact Hu0 | congruence]. }
        rewrite Hfix, Z.eqb_refl. exact Hri. }
  assert (Hreads : Reads (fst (fixTimezone res')) = Reads res).
  { apply list_eq. intros i. destruct (Reads res !! i) as [r |] eqn:Hr.
    - now apply Hall.
    - apply lookup_ge_None. apply lookup_ge_None in Hr.
      rewrite fixTimezone_Reads. unfold fixTimezoneLoop.
      rewrite <- (length_map Value), (foldl_values _ fixTimezoneStep_values), length_map.
      cbn [fst]. rewrite Hn. exact Hr. }
  destruct (fixTimezone_identity res') as (H1 & H2 & H3).
  destruct (fst (fixTimezone res')) as [m s t rs], res as [m' s' t' rs'].
  cbn in *. congruence.
Qed.

(** The theorem around the end of summer time 2023: the readings of 00:00
    and 00:30 UTC (01:00 and 01:30 on the clock, in summer time) are parsed
    as 01:00 and 01:30 UTC, and the pass puts them back. *)
Lemma fixTimezone_repairs_witness :
  map (fun r => Unix (EndTime r)) (map asParsed autumnTruth)
  = map (fun k => Unix (at_ 2023 10 29 0 30) + k * 1800) [0; 3; 4; 3; 4; 5]
  /\ fst (fixTimezone (series (map asParsed autumnTruth))) = series autumnTruth.
Proof.
  split; [vm_compute; reflexivity |].
  apply (fixTimezone_repairs (series autumnTruth)).
  - repeat constructor.
  - vm_compute. repeat split.
  - vm_compute. lia.
Defined.


(** The sample file of the repeated hour, as parsed and put in ascending
    order, is the true series with its two ambiguous readings one hour
    late. *)
Lemma asParsed_autumnRepeatedHour :
  exists res0,
    readData sampleParseFloat 5 (tail autumnRepeatedHour) 1 emptyResult = Ret (inr res0)
    /\ rev (Reads res0) = map asParsed autumnTruth.
Proof. eexists. split; vm_compute; reflexivity. Qed.

(** ** The first row that is refused *)

(** X23. [HDF] stops at the first data row it refuses, without looking at
    the rows after it, and the number in its error counts data rows from
    1 (the header is not counted). For a row that follows accepted rows:
    a malformed row or one without five fields is the reader's error; a
    wrong read type is reported first, then a value that does not parse,
    then a timestamp that does not parse, each before the identifiers of
    the row are compared with those of the file. *)
Theorem HDF_first_bad_row (ParseFloat : string -> option float) (pre : list csv.line)
    (bad : csv.line) (post : list csv.line) (res0 : Result) :
  readData ParseFloat 5 pre 1 emptyResult = Ret (inr res0) ->
  let i := S (length pre) in
  let hdf := header :: pre ++ bad :: post in
  (bad = csv.Malformed -> HDF ParseFloat hdf = Ret ([], Some (ErrCsv csv.ErrSyntax)))
  /\ (forall record, bad = csv.Fields record -> length record <> 5%nat ->
        HDF ParseFloat hdf = Ret ([], Some (ErrCsv csv.ErrFieldCount)))
  /\ (forall m s sval rt sts, bad = csv.Fields [m; s; sval; rt; sts] ->
        (rt <> wantReadType ->
         HDF ParseFloat hdf = Ret ([], Some (ErrReadType i rt wantReadType)))
        /\ (rt = wantReadType -> ParseFloat sval = None ->
            HDF ParseFloat hdf = Ret ([], Some (ErrParseValue i sval)))
        /\ (rt = wantReadType -> ParseFloat sval <> None ->
            timeparse.ParseInLocation sts irelandTimezone = None ->
            HDF ParseFloat hdf = Ret ([], Some (ErrParseTime i sts)))).
Proof.
  intros Hpre i hdf.
  assert (HH : forall e,
            readData ParseFloat 5 (bad :: post) i res0 = Ret (inl e) ->
            HDF ParseFloat hdf = Ret ([], Some e)).
  { intros e He. unfold HDF, hdf. rewrite ingest_header, readData_app, Hpre.
    change (1 + length pre)%nat with i. now rewrite He. }
  split; [| split].
  - intros ->. apply HH. reflexivity.
  - intros record -> Hlen. apply HH. cbn [readData csv.readRecord].
    change (0 <? 5)%nat with true. cbv iota.
    apply Nat.eqb_neq in Hlen. now rewrite Hlen.
  - intros m s sval rt sts ->.
    assert (Hp : parseLine ParseFloat i [m; s; sval; rt; sts]
                 = if negb (String.eqb rt wantReadType) then
                     Ret (inl (ErrReadType i rt wantReadType))
                   else
                     match ParseFloat sval with
                     | None => Ret (inl (ErrParseValue i sval))
                     | Some v =>
                         match timeparse.ParseInLocation sts irelandTimezone with
                         | None => Ret (inl (ErrParseTime i sts))
                         | Some t => Ret (inr (mkLine m s v t))
                         end
                     end) by reflexivity.
    assert (Hrd : forall e, parseLine ParseFloat i [m; s; sval; rt; sts] = Ret (inl e) ->
              readData ParseFloat 5 (csv.Fields [m; s; sval; rt; sts] :: post) i res0
              = Ret (inl e)).
    { intros e He. cbn [readData csv.readRecord length].
      change (0 <? 5)%nat with true. change (negb (5 =? 5)%nat) with false. cbv iota.
      now rewrite He. }
    split; [| split].
    + intros Hne. apply HH, Hrd. rewrite Hp.
      apply String.eqb_neq in Hne. now rewrite Hne.
    + intros -> Hv. apply HH, Hrd. rewrite Hp, String.eqb_refl, Hv. reflexivity.
    + intros -> Hv Ht. apply HH, Hrd. rewrite Hp, String.eqb_refl, Ht.
      destruct (ParseFloat sval); [reflexivity | contradiction].
Qed.

Lemma HDF_first_bad_row_witness :
  HDF sampleParseFloat
    (header :: [row "0.1" "15-01-2023 23:30"]
       ++ csv.Fields ["321"; "45"; "1,5"; wantReadType; "15-01-2023 23:00"]%string
       :: [row "0.1" "15-01-2023 22:30"])
  = Ret ([], Some (ErrParseValue 2 "1,5")).
Proof.
  refine (proj1 (proj2 (proj2 (proj2 (HDF_first_bad_row sampleParseFloat
            [row "0.1" "15-01-2023 23:30"]
            (csv.Fields ["321"; "45"; "1,5"; wantReadType; "15-01-2023 23:00"]%string)
            [row "0.1" "15-01-2023 22:30"] _ _)) _ _ _ _ _ eq_refl)) eq_refl eq_refl).
  vm_compute. reflexivity.
Defined.

